(** * eee: thermodynamic ensembles and their evolution

    A shallow embedding of the core of the [eee] package:

    - [eee/evolve/genotype.py]      ([Module Genotype])
    - [eee/evolve/wright_fisher.py] ([Module WrightFisher])
    - [eee/simulation/core/engine/follow_tree.py] ([Module FollowTree])
    - [eee/core/ensemble.py]        ([Module Ensemble])

    followed by the properties of each ([Module GenotypeFacts],
    [WrightFisherFacts], [FollowTreeFacts], [EnsembleFacts]).

    Python objects that are mutated in place are modelled by explicit state
    passing; a computation that raises keeps the state it had reached, as the
    Python object does.  Random draws come from an explicit model of numpy's
    process-wide generator.  The energies of a genotype are integers and
    fitness values are rationals; branch lengths are binary64 floats; the
    arithmetic of the ensemble is left abstract, with the reals, binary64 and
    a small arithmetic with not-a-number as instances. *)

From Stdlib Require Import ZArith QArith Qround List Sorted String Bool Lia Ring.
From Stdlib Require Import Qabs.
From Stdlib Require Import Floats.SpecFloat.
From Stdlib Require Reals.
From stdpp Require Import base option list gmap strings.

Local Open Scope string_scope.
Local Open Scope list_scope.
Local Open Scope Z_scope.

(** ** Python runtime: exceptions, outcomes, in-place state *)

Module Py.

Inductive exn : Set :=
| ValueError | KeyError | IndexError | TypeError | AttributeError
| OverflowError.

(** The outcome of running a piece of Python code.  [OutOfFuel] stands for a
    [while True] loop that was still spinning when the fuel ran out. *)
Inductive outcome (A : Type) : Type :=
| Ok (a : A)
| Raise (e : exn)
| OutOfFuel.
Arguments Ok {A} a.
Arguments Raise {A} e.
Arguments OutOfFuel {A}.

(** Code running against a mutable state [S]: the state is returned in every
    case, because an exception does not undo the writes made before it. *)
Definition M (S A : Type) : Type := S -> outcome A * S.

Definition ret {S A} (a : A) : M S A := fun s => (Ok a, s).
Definition raise {S A} (e : exn) : M S A := fun s => (Raise e, s).
Definition bind {S A B} (m : M S A) (k : A -> M S B) : M S B :=
  fun s => match m s with
           | (Ok a, s') => k a s'
           | (Raise e, s') => (Raise e, s')
           | (OutOfFuel, s') => (OutOfFuel, s')
           end.
Definition get {S} : M S S := fun s => (Ok s, s).
Definition put {S} (s : S) : M S unit := fun _ => (Ok tt, s).
Definition lift {S A} (o : outcome A) : M S A := fun s => (o, s).

Notation "'let*' x ':=' m 'in' k" := (bind m (fun x => k))
  (at level 10, x name, m at level 100, k at level 200, only parsing).
Notation "'let*' ' p ':=' m 'in' k" := (bind m (fun p => k))
  (at level 10, p strict pattern, m at level 100, k at level 200,
   only parsing).

(** [m] runs alike from related states: same outcome, related final
    states. *)
Definition stable {S A} (R : S -> S -> Prop) (m : M S A) : Prop :=
  forall s1 s2, R s1 s2 ->
    fst (m s1) = fst (m s2) /\ R (snd (m s1)) (snd (m s2)).

(** [m] keeps [P]: from a state where [P] holds it leads to one where [P]
    holds, whether it returns or raises. *)
Definition keeps {S A} (P : S -> Prop) (m : M S A) : Prop :=
  forall s, P s -> P (snd (m s)).

(** [for x in xs: body x] *)
Fixpoint for_each {S A} (xs : list A) (body : A -> M S unit) : M S unit :=
  match xs with
  | [] => ret tt
  | x :: xs' => bind (body x) (fun _ => for_each xs' body)
  end.

(** Keys of the dictionaries and elements of the lists the package handles:
    integers (site numbers, list positions) and strings (labels).  An integer
    never compares equal to a string. *)
Inductive key : Set := KInt (n : Z) | KStr (s : string).

Definition key_eqb (a b : key) : bool :=
  match a, b with
  | KInt m, KInt n => Z.eqb m n
  | KStr s, KStr t => String.eqb s t
  | _, _ => false
  end.

(** [x in l] *)
Definition contains (x : key) (l : list key) : bool := existsb (key_eqb x) l.

(** [l.index(x)]: position of the first element equal to [x]. *)
Fixpoint index (x : key) (l : list key) : outcome Z :=
  match l with
  | [] => Raise ValueError
  | y :: l' => if key_eqb y x then Ok 0
               else match index x l' with
                    | Ok i => Ok (i + 1)
                    | o => o
                    end
  end.

(** [l.remove(x)]: drops the first element equal to the VALUE [x]. *)
Fixpoint remove (x : key) (l : list key) : outcome (list key) :=
  match l with
  | [] => Raise ValueError
  | y :: l' => if key_eqb y x then Ok l'
               else match remove x l' with
                    | Ok r => Ok (y :: r)
                    | o => o
                    end
  end.

(** [l[i]] for an integer [i]; negative positions count from the end. *)
Definition getitem {A} (l : list A) (i : Z) : outcome A :=
  let n := Z.of_nat (length l) in
  let j := if i <? 0 then i + n else i in
  if (j <? 0) || (n <=? j) then Raise IndexError
  else match nth_error l (Z.to_nat j) with
       | Some a => Ok a
       | None => Raise IndexError
       end.

(** [l[k]] where [k] is whatever value the program holds: a string is not a
    list position. *)
Definition getitem_key {A} (l : list A) (k : key) : outcome A :=
  match k with
  | KInt i => getitem l i
  | KStr _ => Raise TypeError
  end.

(** [d[k]] for a dictionary kept in insertion order. *)
Fixpoint dict_get {V} (d : list (key * V)) (k : key) : outcome V :=
  match d with
  | [] => Raise KeyError
  | (k', v) :: d' => if key_eqb k' k then Ok v else dict_get d' k
  end.

(** [list(d.keys())] *)
Definition keys {K V} (d : list (K * V)) : list K := map fst d.

End Py.

(** ** numpy's process-global random generator ([np.random]) *)

Module NpRandom.
Import Py.

(** The generator is a position in a sequence of raw draws.  Each call
    consumes draws from the position onwards. *)
Record generator : Type := mkgen { raw : nat -> N; pos : nat }.

Definition next_raw (g : generator) : N * generator :=
  (raw g (pos g), mkgen (raw g) (S (pos g))).

(** Two states of the generator from which the same draws come: the same
    position, and the same raw draws from it onwards. *)
Definition same_draws (g1 g2 : generator) : Prop :=
  pos g1 = pos g2 /\ forall i, (pos g1 <= i)%nat -> raw g1 i = raw g2 i.

(** [np.random.choice(a)]: one element of [a], every element possible. *)
Definition choice {A} (a : list A) (g : generator) : outcome A * generator :=
  match a with
  | [] => (Raise ValueError, g)
  | x :: _ =>
      let (r, g') := next_raw g in
      (Ok (nth (N.to_nat (r mod N.of_nat (length a))) a x), g')
  end.

(** A generator that yields the listed raw draws, then zeros. *)
Definition draws (l : list N) : generator :=
  mkgen (fun i => nth i l 0%N) 0.

End NpRandom.

(** ** [eee/evolve/genotype.py]

    The module opens with [from numpy import np], which is read here as
    [import numpy as np]. *)

Module Genotype.
Import Py NpRandom.

(** [ddg_dict]: site -> mutation -> species -> energetic effect, each level a
    dictionary in insertion order.  Energies are exact numbers here. *)
Definition ddg_table : Type := list (key * list (key * list (string * Z))).

(** The attributes of a [Genotype] instance.  Of [self._ens] the class only
    reads [species]. *)
Record t : Type := mk {
  _ens : list string;
  _ddg_dict : ddg_table;
  _sites : list key;
  _mutations : list key;
  _mut_energy : gmap string Z;
  _possible_sites : list key;
  _mutations_at_sites : list (list key)
}.

(** [Genotype.__init__] *)
Definition init (ens : list string) (ddg_dict : ddg_table)
    (sites mutations : option (list key))
    (mut_energy : option (gmap string Z)) : t :=
  let sites := match sites with None => [] | Some l => l end in
  let mutations := match mutations with None => [] | Some l => l end in
  let mut_energy :=
    match mut_energy with
    | Some m => m
    | None => fold_left (fun m s => <[s := 0]> m) ens ∅
    end in
  let possible_sites := keys ddg_dict in
  mk ens ddg_dict sites mutations mut_energy possible_sites
     (map (fun s => match dict_get ddg_dict s with
                    | Ok muts => keys muts
                    | _ => []
                    end) possible_sites).

(** [Genotype.copy] *)
Definition copy (self : t) : t :=
  init (_ens self) (_ddg_dict self) (Some (_sites self))
       (Some (_mutations self)) (Some (_mut_energy self)).

(** What [mutate] runs against: the instance and numpy's generator. *)
Record world : Type := mkworld { self : t; np_random : generator }.

Definition get_self : M world t := fun w => (Ok (self w), w).

(** The same instance, and generators that yield the same draws. *)
Definition same_world (w1 w2 : world) : Prop :=
  self w1 = self w2 /\ same_draws (np_random w1) (np_random w2).

Definition set_sites (l : list key) : M world unit := fun w =>
  let g := self w in
  (Ok tt, mkworld (mk (_ens g) (_ddg_dict g) l (_mutations g) (_mut_energy g)
                      (_possible_sites g) (_mutations_at_sites g))
                  (np_random w)).

Definition set_mutations (l : list key) : M world unit := fun w =>
  let g := self w in
  (Ok tt, mkworld (mk (_ens g) (_ddg_dict g) (_sites g) l (_mut_energy g)
                      (_possible_sites g) (_mutations_at_sites g))
                  (np_random w)).

Definition set_mut_energy (m : gmap string Z) : M world unit := fun w =>
  let g := self w in
  (Ok tt, mkworld (mk (_ens g) (_ddg_dict g) (_sites g) (_mutations g) m
                      (_possible_sites g) (_mutations_at_sites g))
                  (np_random w)).

(** [np.random.choice(a)] against the world's generator. *)
Definition random_choice {A} (a : list A) : M world A := fun w =>
  let (o, g') := choice a (np_random w) in (o, mkworld (self w) g').

(** [self._mut_energy[species] -= v] *)
Definition mut_energy_isub (species : string) (v : Z) : M world unit :=
  let* g := get_self in
  match _mut_energy g !! species with
  | Some e => set_mut_energy (<[species := e - v]> (_mut_energy g))
  | None => raise KeyError
  end.

(** [mutation != prev_mut], where [prev_mut] may be [None]. *)
Definition differs (mutation : key) (prev_mut : option key) : bool :=
  match prev_mut with
  | None => true
  | Some p => negb (key_eqb mutation p)
  end.

(** The [while True] loop of [mutate]: draw until the mutation differs from
    the previous one. *)
Fixpoint draw_mutation (fuel : nat) (site : key) (prev_mut : option key)
    : M world key :=
  match fuel with
  | O => lift OutOfFuel
  | S fuel' =>
      let* g := get_self in
      let* at_site := lift (getitem_key (_mutations_at_sites g) site) in
      let* mutation := random_choice at_site in
      if differs mutation prev_mut then ret mutation
      else draw_mutation fuel' site prev_mut
  end.

(** [Genotype.mutate] *)
Definition mutate (fuel : nat) : M world unit :=
  let* g := get_self in
  let* site := random_choice (_possible_sites g) in
  let* prev_mut :=
    if contains site (_sites g) then
      let* idx := lift (index site (_sites g)) in
      let* prev_mut := lift (getitem (_mutations g) idx) in
      let* at_site := lift (dict_get (_ddg_dict g) site) in
      let* effects := lift (dict_get at_site prev_mut) in
      let* _ := for_each effects
                  (fun '(species, v) => mut_energy_isub species v) in
      let* sites' := lift (remove (KInt idx) (_sites g)) in
      let* _ := set_sites sites' in
      let* mutations' := lift (remove (KInt idx) (_mutations g)) in
      let* _ := set_mutations mutations' in
      ret (Some prev_mut)
    else ret None in
  let* mutation := draw_mutation fuel site prev_mut in
  let* g := get_self in
  let* _ := set_sites (_sites g ++ [site]) in
  set_mutations (_mutations g ++ [mutation]).

(** The invariant the class is meant to keep: the energy each species owes
    to the active (site, mutation) pairs, from [ddg_dict]. *)
Definition effect_on (ddg_dict : ddg_table) (species : string)
    (site mutation : key) : Z :=
  match dict_get ddg_dict site with
  | Ok at_site =>
      match dict_get at_site mutation with
      | Ok effects =>
          match List.find (fun p => String.eqb (fst p) species) effects with
          | Some (_, v) => v
          | None => 0
          end
      | _ => 0
      end
  | _ => 0
  end.

Definition active_energy (g : t) (species : string) : Z :=
  fold_left Z.add
    (map (fun '(site, mutation) => effect_on (_ddg_dict g) species site mutation)
         (combine (_sites g) (_mutations g)))
    0.

Definition energy_matches_active (g : t) : Prop :=
  forall species, In species (_ens g) ->
    _mut_energy g !! species = Some (active_energy g species).

End Genotype.

(** ** [eee/evolve/wright_fisher.py] *)

Module WrightFisher.
Import Py NpRandom.

(** What [wright_fisher] asks of its [gc] argument: [gc.fitnesses[g]] and
    [gc.mutate(index=g)], which adds a genotype to the container, draws from
    numpy's generator and returns the index of the new genotype. *)
Class GenotypeContainer (GC : Type) : Type := {
  fitnesses : GC -> Z -> outcome Q;
  gc_mutate : Z -> M (GC * generator) Z
}.

(** The three shapes the [population] argument may take. *)
Inductive population_arg : Type :=
| PopDict (d : list (Z * Z))
| PopArray (a : list Z)
| PopSize (n : Z).

(** [np.unique(population, return_counts=True)]: the sorted distinct values
    and how often each occurs. *)
Fixpoint insert_sorted (x : Z) (l : list Z) : list Z :=
  match l with
  | [] => [x]
  | y :: l' => if x <? y then x :: l
               else if x =? y then l
               else y :: insert_sorted x l'
  end.

Definition np_unique (population : list Z) : list Z * list Z :=
  let seen := fold_right insert_sorted [] population in
  (seen, map (fun g => Z.of_nat (count_occ Z.eq_dec population g)) seen).

(** [np.sum] of a vector of rationals. *)
Definition np_sum (v : list Q) : Q := fold_left Qplus v 0%Q.

(** A float in [0,1) out of one raw draw. *)
Definition random_sample (g : generator) : Q * generator :=
  let (r, g') := next_raw g in
  ((Z.of_N r mod 2 ^ 53) # (2 ^ 53), g').

Fixpoint cumsum (acc : Q) (p : list Q) : list Q :=
  match p with
  | [] => []
  | x :: p' => (acc + x)%Q :: cumsum (acc + x)%Q p'
  end.

(** [cdf.searchsorted(u, side='right')] on a non-decreasing [cdf]: the
    position of the first entry above [u]. *)
Fixpoint searchsorted_right (cdf : list Q) (u : Q) : nat :=
  match cdf with
  | [] => O
  | c :: cdf' => if Qle_bool c u then S (searchsorted_right cdf' u) else O
  end.

Fixpoint sample (a : list Z) (cdf : list Q) (size : nat) (g : generator)
    : outcome (list Z) * generator :=
  match size with
  | O => (Ok [], g)
  | S size' =>
      let (u, g') := random_sample g in
      match nth_error a (searchsorted_right cdf u) with
      | None => (Raise IndexError, g')
      | Some x =>
          match sample a cdf size' g' with
          | (Ok l, g'') => (Ok (x :: l), g'')
          | r => r
          end
      end
  end.

(** [np.random.choice(a, size=size, p=p, replace=True)] *)
Definition choice_p (a : list Z) (size : nat) (p : list Q) (g : generator)
    : outcome (list Z) * generator :=
  if (length a =? 0)%nat && negb (size =? 0)%nat then (Raise ValueError, g)
  else if negb (length p =? length a)%nat then (Raise ValueError, g)
  else if existsb (fun x => negb (Qle_bool 0 x)) p then (Raise ValueError, g)
  else if negb (Qeq_bool (np_sum p) 1) then (Raise ValueError, g)
  else sample a (cumsum 0 p) size g.

(** [np.random.poisson(lam)] *)
Definition poisson (lam : Q) (g : generator) : outcome Z * generator :=
  if negb (Qle_bool 0 lam) then (Raise ValueError, g)
  else if Qeq_bool lam 0 then (Ok 0, g)
  else let (r, g') := next_raw g in (Ok (Z.of_N r), g').

(** [dict(zip(seen, counts))], a later pair with the same key overwriting. *)
Fixpoint dict_set (k v : Z) (d : list (Z * Z)) : list (Z * Z) :=
  match d with
  | [] => [(k, v)]
  | (k', v') :: d' => if k' =? k then (k', v) :: d'
                      else (k', v') :: dict_set k v d'
  end.

Definition dict_zip (g : list Z * list Z) : list (Z * Z) :=
  fold_left (fun d '(k, v) => dict_set k v d) (combine (fst g) (snd g)) [].

Definition total (counts : list Z) : Z := fold_right Z.add 0 counts.

(** Every record is that of a population of [n] individuals. *)
Definition records_of_size (n : nat) (generations : list (list Z * list Z))
    : Prop :=
  List.Forall (fun g => exists population,
                 length population = n /\ g = np_unique population)
              generations.

(** The genotypes every record lists are among [known]. *)
Definition lists_only (known : list Z) (generations : list (list Z * list Z))
    : Prop :=
  List.Forall (fun g => forall x, In x (fst g) -> In x known) generations.

(** The number of individuals a generation record accounts for. *)
Definition population_total (record : list (Z * Z)) : Z :=
  fold_right Z.add 0 (map snd record).

Section Engine.
Context {GC : Type} `{GenotypeContainer GC}.

Definition in_generator {A} (f : generator -> outcome A * generator)
    : M (GC * generator) A :=
  fun w => let (o, g') := f (snd w) in (o, (fst w, g')).

Definition get_gc : M (GC * generator) GC := fun w => (Ok (fst w), w).

(** The same container, and generators that yield the same draws. *)
Definition same_run (w1 w2 : GC * generator) : Prop :=
  fst w1 = fst w2 /\ same_draws (snd w1) (snd w2).

(** [[gc.fitnesses[g] for g in current_genotypes]] *)
Fixpoint fitness_of_each (current_genotypes : list Z)
    : M (GC * generator) (list Q) :=
  match current_genotypes with
  | [] => ret []
  | g :: rest =>
      let* gc := get_gc in
      let* f := lift (fitnesses gc g) in
      let* fs := fitness_of_each rest in
      ret (f :: fs)
  end.

(** The loop [for j in range(num_to_mutate)], [js] being the values of [j]
    still to visit. *)
Fixpoint mutate_first (js : list nat) (population : list Z)
    : M (GC * generator) (list Z) :=
  match js with
  | [] => ret population
  | j :: js' =>
      let* old := lift (getitem population (Z.of_nat j)) in
      let* new_index := gc_mutate old in
      mutate_first js' (<[j := new_index]> population)
  end.

(** One pass through the body of the generation loop: extends
    [generations] by one record. *)
Definition generation_step (population_size : nat)
    (expected_num_mutations : Q) (generations : list (list Z * list Z))
    : M (GC * generator) (list (list Z * list Z)) :=
  let '(current_genotypes, counts) := List.last generations ([], []) in
  let* prob := fitness_of_each current_genotypes in
  let prob := zip_with Qmult prob (map inject_Z counts) in
  let prob := if Qeq_bool (np_sum prob) 0
              then repeat 1%Q population_size else prob in
  let prob := map (fun x => (x / np_sum prob)%Q) prob in
  let* population :=
    in_generator (choice_p current_genotypes population_size prob) in
  let* num_to_mutate := in_generator (poisson expected_num_mutations) in
  let num_to_mutate :=
    if Z.of_nat population_size <? num_to_mutate
    then Z.of_nat population_size else num_to_mutate in
  let* population :=
    mutate_first (seq 0 (Z.to_nat num_to_mutate)) population in
  ret (generations ++ [np_unique population]).

(** [for _ in range(1, num_generations)], [n] passes left. *)
Fixpoint generation_loop (n : nat) (population_size : nat)
    (expected_num_mutations : Q) (generations : list (list Z * list Z))
    : M (GC * generator) (list (list Z * list Z)) :=
  match n with
  | O => ret generations
  | S n' =>
      let* generations :=
        generation_step population_size expected_num_mutations generations in
      generation_loop n' population_size expected_num_mutations generations
  end.

(** The population array the argument stands for. *)
Definition parse_population (population : population_arg)
    : outcome (list Z) :=
  match population with
  | PopDict d =>
      Ok (flat_map (fun '(p, n) => repeat p (Z.to_nat n)) d)
  | PopArray a => Ok a
  | PopSize n => if n <? 0 then Raise ValueError
                 else Ok (repeat 0 (Z.to_nat n))
  end.

(** [wright_fisher(gc, population, mutation_rate, num_generations)]; the
    container of the resulting state is the [gc] the function returns. *)
Definition wright_fisher (population : population_arg) (mutation_rate : Q)
    (num_generations : Z) : M (GC * generator) (list (list (Z * Z))) :=
  let* population := lift (parse_population population) in
  let population_size := length population in
  if (population_size <? 1)%nat then raise ValueError
  else if negb (Qle_bool 0 mutation_rate) then raise ValueError
  else if num_generations <? 1 then raise ValueError
  else
    let expected_num_mutations :=
      (mutation_rate * inject_Z (Z.of_nat population_size))%Q in
    let generations := [np_unique population] in
    let* generations :=
      generation_loop (Z.to_nat (num_generations - 1)) population_size
        expected_num_mutations generations in
    ret (map dict_zip generations).

End Engine.

(** Modelled from the spec: the [GenotypeContainer] class of [eee.evolve],
    which is not part of the sources at hand.  An indexed, append-only
    collection of genotypes with a parallel array of fitness values;
    [mutate(index)] copies the genotype at [index], mutates the copy, appends
    it with its fitness and returns the new index.  The fitness evaluator is
    a parameter. *)
Record container : Type := mkcontainer {
  genotypes : list Genotype.t;
  fitness_values : list Q
}.

Definition container_mutate (fitness : Genotype.t -> Q) (fuel : nat)
    (index : Z) : M (container * generator) Z :=
  fun w =>
    let (gc, g) := w in
    match getitem (genotypes gc) index with
    | Ok parent =>
        match Genotype.mutate fuel
                (Genotype.mkworld (Genotype.copy parent) g) with
        | (Ok _, w') =>
            let child := Genotype.self w' in
            (Ok (Z.of_nat (length (genotypes gc))),
             (mkcontainer (genotypes gc ++ [child])
                          (fitness_values gc ++ [fitness child]),
              Genotype.np_random w'))
        | (Raise e, w') => (Raise e, (gc, Genotype.np_random w'))
        | (OutOfFuel, w') => (OutOfFuel, (gc, Genotype.np_random w'))
        end
    | Raise e => (Raise e, w)
    | OutOfFuel => (OutOfFuel, w)
    end.

#[export] Instance container_is_GenotypeContainer
    (fitness : Genotype.t -> Q) (fuel : nat) : GenotypeContainer container :=
  {| fitnesses := fun gc g => getitem (fitness_values gc) g;
     gc_mutate := container_mutate fitness fuel |}.

End WrightFisher.

(** ** [eee/simulation/core/engine/follow_tree.py] *)

Module FollowTree.
Import Py.

(** Python's floats are binary64 numbers: a signed zero, a signed infinity,
    not-a-number, or [(-1)^s * m * 2^e] with a mantissa of at most 53 bits.
    Their operations round to the nearest float, a tie going to the even
    mantissa. *)
Definition binary64 : Type := spec_float.
Definition prec : Z := 53.
Definition emax : Z := 1024.

(** [float(n)], the conversion [x * n] applies to an integer operand. *)
Definition float_of_int (n : Z) : binary64 :=
  binary_normalize prec emax n 0 false.

(** [x * y] and [x / y] on floats. *)
Definition float_mul (x y : binary64) : binary64 := SFmul prec emax x y.
Definition float_div (x y : binary64) : binary64 := SFdiv prec emax x y.

(** The integer nearest to [m * 2^e], a tie going to the even one. *)
Definition nearest_even (m : positive) (e : Z) : Z :=
  match e with
  | Zneg p =>
      let d := Zpos (2 ^ p) in
      let q := Zpos m / d in
      match 2 * (Zpos m mod d) ?= d with
      | Lt => q
      | Gt => q + 1
      | Eq => if Z.even q then q else q + 1
      end
  | _ => Zpos m * 2 ^ e
  end.

(** [int(np.round(x, 0))]: [np.round] gives the float that is the integer
    nearest to [x], a tie going to the even one, and [int] reads that
    integer; [int] raises [ValueError] on not-a-number and [OverflowError]
    on an infinity. *)
Definition int_np_round (x : binary64) : outcome Z :=
  match x with
  | S754_zero _ => Ok 0
  | S754_finite s m e => Ok (cond_Zopp s (nearest_even m e))
  | S754_infinity _ => Raise OverflowError
  | S754_nan => Raise ValueError
  end.

(** The number a finite float stands for. *)
Definition value (x : binary64) : Q :=
  match x with
  | S754_finite s m (Zneg p) => cond_Zopp s (Zpos m) # 2 ^ p
  | S754_finite s m e => inject_Z (cond_Zopp s (Zpos m) * 2 ^ e)
  | _ => 0
  end.

(** [0 <= x] on floats; it is false of not-a-number. *)
Definition float_nonneg (x : binary64) : bool := SFleb (S754_zero false) x.

(** A float that is not below zero; not-a-number counts as one. *)
Definition not_negative (x : binary64) : Prop :=
  match x with
  | S754_finite true _ _ | S754_infinity true => False
  | _ => True
  end.

Section Branch.
(** The container class and [get_num_accumulated_mutations] (from
    [eee.simulation.analysis]) are not part of the sources at hand; the
    driver is modelled over any container and any such function. *)
Context {GC : Type}.
Variable wt_sequence : GC -> list Ascii.ascii.
Variable get_num_accumulated_mutations : list Z -> list Z -> GC -> Z.

(** The value [_simulate_branch] computes for [num_mutations] and passes on
    to [wright_fisher]; [branch_length] is
    [start_node.get_distance(end_node)] and [starting_pop] is
    [start_node.population]. *)
Definition branch_num_mutations (branch_length : binary64)
    (starting_pop : list (Z * Z)) (gc : GC) : outcome Z :=
  let sequence_length := length (wt_sequence gc) in
  match int_np_round
          (float_mul branch_length
             (float_of_int (Z.of_nat sequence_length))) with
  | Ok num_mutations =>
      let num_mutations_start :=
        get_num_accumulated_mutations (map fst starting_pop)
          (map snd starting_pop) gc in
      let num_mutations := num_mutations + num_mutations_start in
      Ok (if num_mutations =? 0 then 1 else num_mutations)
  | Raise e => Raise e
  | OutOfFuel => OutOfFuel
  end.

End Branch.

End FollowTree.

(** ** [eee/core/ensemble.py] *)

Module Ensemble.
Import Py.

(** The arithmetic of the numbers the class computes with.  The code is
    embedded over any such arithmetic; binary64 floats are one, and the
    rationals or the integers are others. *)
Class RingOps (num : Type) : Type := {
  num0 : num;
  num1 : num;
  nadd : num -> num -> num;
  nsub : num -> num -> num;
  nmul : num -> num -> num;
  nopp : num -> num
}.

Class FloatOps (num : Type) `{RingOps num} : Type := {
  ndiv : num -> num -> num;
  nexp : num -> num;
  nlog : num -> num;
  nmax : num -> num -> num;
  neqb : num -> num -> bool;
  nan : num;
  finfo_max : num;
  hundredth : num
}.

(** A value of a [ligand_dict] or a [temperature] argument: one float or an
    array of floats. *)
Inductive pyvalue (num : Type) : Type :=
| Scalar (x : num)
| Array (a : list num).
Arguments Scalar {num} x.
Arguments Array {num} a.

(** Dictionaries with string keys, in insertion order. *)
Fixpoint sdict_get {V} (d : list (string * V)) (k : string) : option V :=
  match d with
  | [] => None
  | (k', v) :: d' => if String.eqb k' k then Some v else sdict_get d' k
  end.

Definition sdict_mem {V} (k : string) (d : list (string * V)) : bool :=
  match sdict_get d k with Some _ => true | None => false end.

Fixpoint sdict_set {V} (k : string) (v : V) (d : list (string * V))
    : list (string * V) :=
  match d with
  | [] => [(k, v)]
  | (k', v') :: d' => if String.eqb k' k then (k', v) :: d'
                      else (k', v') :: sdict_set k v d'
  end.

Definition of_option {A} (e : exn) (o : option A) : outcome A :=
  match o with Some a => Ok a | None => Raise e end.

Section Model.
Context {num : Type} `{RingOps num}.

(** An entry of [self._species_dict]: the keys ["observable"], ["folded"]
    and ["dG0"], then one key per ligand the species binds.  (A ligand is a
    keyword argument of [add_species], so it cannot be called like one of
    the three fixed keys.) *)
Record species : Type := mkspecies {
  observable : bool;
  folded : bool;
  dG0 : num;
  stoichiometry : list (string * num)
}.

(** The attributes [_build_z_matrix] creates.  It assigns the matrix and
    the two masks before it fills them, and the two negated masks at its
    end: these are [None] as long as no call has come to its end. *)
Record z_attrs : Type := mkz {
  _z_matrix : list (list num);
  _obs_mask : list bool;
  _folded_mask : list bool;
  _not_obs_mask : option (list bool);
  _unfolded_mask : option (list bool)
}.

(** The attributes of an [Ensemble]; [built] is [None] until
    [_build_z_matrix] has assigned the matrix. *)
Record ensemble : Type := mkens {
  _gas_constant : num;
  _species_dict : list (string * species);
  _species_list : list string;
  _ligand_list : list string;
  _max_allowed : num;
  built : option z_attrs
}.

(** Dictionaries handed in by the caller are objects in a store; a
    [ligand_dict] argument is a reference into it. *)
Definition pydict : Type := list (string * pyvalue num).
Definition loc : Type := nat.

Record world : Type := mkworld {
  self : ensemble;
  heap : list pydict;
  read_ligand_dict_default : loc
}.

Definition get_self : M world ensemble := fun w => (Ok (self w), w).
Definition set_self (e : ensemble) : M world unit :=
  fun w => (Ok tt, mkworld e (heap w) (read_ligand_dict_default w)).
Definition deref (l : loc) : M world pydict :=
  fun w => (of_option AttributeError (heap w !! l), w).
Definition store (l : loc) (d : pydict) : M world unit :=
  fun w => (Ok tt, mkworld (self w) (<[l := d]> (heap w))
                           (read_ligand_dict_default w)).
(** A new dictionary object. *)
Definition alloc (d : pydict) : M world loc :=
  fun w => (Ok (length (heap w)),
            mkworld (self w) (heap w ++ [d]) (read_ligand_dict_default w)).

(** The checking functions of [eee._private.check], which are not part of
    the sources at hand.  [check_ligand_dict] works on the store of
    dictionaries and returns the dictionary to use and the number of
    conditions. *)
Class Checks : Type := {
  check_float : num -> option num -> bool -> outcome num;
  check_mut_energy : list (string * num) -> outcome (list (string * num));
  check_ligand_dict : loc -> M (list pydict) (loc * nat);
  check_temperature : pyvalue num -> nat -> outcome (list num)
}.

Context `{Checks}.

Notation "'let+' x ':=' o 'in' k" :=
  (match o with Ok x => k | Raise e => Raise e | OutOfFuel => OutOfFuel end)
  (at level 10, x name, o at level 100, k at level 200, only parsing).

Definition on_heap {A} (m : M (list pydict) A) : M world A :=
  fun w => let (o, h) := m (heap w) in
           (o, mkworld (self w) h (read_ligand_dict_default w)).

(** [len(v)] and [v[j]] for a value of a [ligand_dict]. *)
Definition value_len (v : pyvalue num) : outcome nat :=
  match v with
  | Array a => Ok (length a)
  | Scalar _ => Raise TypeError
  end.

Definition value_at (v : pyvalue num) (j : nat) : outcome num :=
  match v with
  | Array a => of_option IndexError (a !! j)
  | Scalar _ => Raise TypeError
  end.

(** [self._species_dict[name][lig] = value] on the entry [sp]. *)
Definition set_stoichiometry (sp : species) (lig : string) (value : num)
    : species :=
  mkspecies (observable sp) (folded sp) (dG0 sp)
            (sdict_set lig value (stoichiometry sp)).

(** [Ensemble.add_species(name, dG0, observable, folded, **ligands)] *)
Definition add_species (name : string) (dG0 : num) (observable folded : bool)
    (ligands : list (string * num)) : M world unit :=
  let* ens := get_self in
  if sdict_mem name (_species_dict ens) then raise ValueError
  else
    let* dG0 := lift (check_float dG0 None true) in
    let with_species (ens : ensemble) (sp : species) : ensemble :=
      mkens (_gas_constant ens) (sdict_set name sp (_species_dict ens))
            (_species_list ens) (_ligand_list ens) (_max_allowed ens)
            (built ens) in
    let* _ := set_self (with_species ens (mkspecies observable folded dG0 [])) in
    let* _ :=
      for_each ligands (fun '(lig, value) =>
        let* value := lift (check_float value (Some num0) true) in
        let* ens := get_self in
        match sdict_get (_species_dict ens) name with
        | Some sp =>
            set_self (with_species ens (set_stoichiometry sp lig value))
        | None => raise KeyError
        end) in
    let* ens := get_self in
    let ligand_list :=
      fold_left (fun l lig => if existsb (String.eqb lig) l then l
                              else l ++ [lig])
                (map fst ligands) (_ligand_list ens) in
    set_self (mkens (_gas_constant ens) (_species_dict ens)
                    (_species_list ens ++ [name]) ligand_list
                    (_max_allowed ens) (built ens)).

(** [stoich[species_name][lig]] as [_build_z_matrix] fills it in: the
    stoichiometry the species records for the ligand, else 0. *)
Definition stoich_of (sp : species) (lig : string) : num :=
  match sdict_get (stoichiometry sp) lig with
  | Some v => v
  | None => num0
  end.

(** [for x in xs] collecting one value per pass, stopping at the first
    exception. *)
Fixpoint collect {A B} (f : A -> outcome B) (xs : list A) : outcome (list B) :=
  match xs with
  | [] => Ok []
  | x :: xs' =>
      match f x with
      | Ok b => match collect f xs' with
                | Ok bs => Ok (b :: bs)
                | o => o
                end
      | Raise e => Raise e
      | OutOfFuel => OutOfFuel
      end
  end.

(** The innermost loop of [_build_z_matrix] on the entry [z] of the matrix
    for condition [j]:
    [self._z_matrix[i,j] -= ligand_dict[lig][j]*stoich[species_name][lig]]
    for the ligands of the ensemble one after the other.  It gives the
    entry after the loop, or the entry as the loop left it together with
    what was raised.  [stoich] is [stoich[species_name]], when there is
    one. *)
Fixpoint perturb (ligand_dict : pydict)
    (stoich : option (list (string * num))) (j : nat)
    (ligands : list string) (z : num) : num * outcome unit :=
  match ligands with
  | [] => (z, Ok tt)
  | lig :: rest =>
      match (let+ v := of_option KeyError (sdict_get ligand_dict lig) in
             let+ p := value_at v j in
             let+ st := of_option KeyError stoich in
             let+ s := of_option KeyError (sdict_get st lig) in
             Ok (nmul p s)) with
      | Ok x => perturb ligand_dict stoich j rest (nsub z x)
      | Raise e => (z, Raise e)
      | OutOfFuel => (z, OutOfFuel)
      end
  end.

(** [for j in range(num_conditions)] on a row of the matrix, which has
    [num_conditions] entries: the loop goes over the entries of the row
    from [j] on. *)
Fixpoint perturb_row (ligand_dict : pydict)
    (stoich : option (list (string * num))) (ligands : list string)
    (j : nat) (row : list num) : list num * outcome unit :=
  match row with
  | [] => ([], Ok tt)
  | z :: rest =>
      match perturb ligand_dict stoich j ligands z with
      | (z', Ok tt) =>
          let (rest', o) :=
            perturb_row ligand_dict stoich ligands (S j) rest in
          (z' :: rest', o)
      | (z', o) => (z' :: rest, o)
      end
  end.

(** [for i, species_name in enumerate(self._species_dict)] on the matrix
    and the two masks, which start as zeros and [False]: the row of a
    species is set to its [dG0] and perturbed, then its two flags are
    written.  When a pass raises, the rows and flags of the species still
    to come are as they started. *)
Fixpoint fill (ligand_dict : pydict)
    (stoich : list (string * list (string * num))) (ligands : list string)
    (num_conditions : nat) (species_dict : list (string * species))
    : (list (list num) * list bool * list bool) * outcome unit :=
  match species_dict with
  | [] => (([], [], []), Ok tt)
  | (species_name, sp) :: rest =>
      match perturb_row ligand_dict (sdict_get stoich species_name) ligands
              0 (repeat (dG0 sp) num_conditions) with
      | (row, Ok tt) =>
          let '((rows, obs, fold), o) :=
            fill ligand_dict stoich ligands num_conditions rest in
          ((row :: rows, observable sp :: obs, folded sp :: fold), o)
      | (row, o) =>
          ((row :: repeat (repeat num0 num_conditions) (length rest),
            false :: repeat false (length rest),
            false :: repeat false (length rest)), o)
      end
  end.

(** The local dictionary [stoich] of [_build_z_matrix]: for every species
    of the list of species, the stoichiometry of every key of the
    dictionary of conditions, 0 where the species has none. *)
Definition stoich_table (ens : ensemble) (d : pydict)
    : outcome (list (string * list (string * num))) :=
  collect (fun species_name =>
             let+ entries :=
               collect (fun '(lig, _) =>
                          let+ sp := of_option KeyError
                                       (sdict_get (_species_dict ens)
                                                  species_name) in
                          Ok (lig, stoich_of sp lig)) d in
             Ok (species_name, entries)) (_species_list ens).

(** [Ensemble._build_z_matrix(ligand_dict)].  The dictionary is completed
    in place.  The matrix and the two masks are attributes from the moment
    they are created, so a call that raises while it fills them leaves
    them as far as it got, with the negated masks of the call before. *)
Definition _build_z_matrix (ligand_dict : loc) : M world unit :=
  let* ens := get_self in
  let* d := deref ligand_dict in
  let* '(d, num_conditions) :=
    match d with
    | [] =>
        ret (fold_left (fun d lig => sdict_set lig (Array [num0]) d)
                       (_ligand_list ens) d, 1%nat)
    | (_, v) :: _ =>
        let* n := lift (value_len v) in ret (d, n)
    end in
  let d :=
    fold_left (fun d lig =>
                 if sdict_mem lig d then d
                 else sdict_set lig (Array (repeat num0 num_conditions)) d)
              (_ligand_list ens) d in
  let* _ := store ligand_dict d in
  let* stoich := lift (stoich_table ens d) in
  let '((rows, obs_mask, folded_mask), filled) :=
    fill d stoich (_ligand_list ens) num_conditions (_species_dict ens) in
  let with_attrs (not_obs_mask unfolded_mask : option (list bool)) :=
    mkens (_gas_constant ens) (_species_dict ens) (_species_list ens)
          (_ligand_list ens) (_max_allowed ens)
          (Some (mkz rows obs_mask folded_mask not_obs_mask unfolded_mask)) in
  let* _ :=
    set_self
      match built ens with
      | Some z => with_attrs (_not_obs_mask z) (_unfolded_mask z)
      | None => with_attrs None None
      end in
  let* _ := lift filled in
  set_self (with_attrs (Some (map negb obs_mask))
                       (Some (map negb folded_mask))).

(** The number of conditions [_build_z_matrix] reads off a dictionary:
    [len(ligand_dict[next(iter(ligand_dict))])], or 1 for an empty one; and
    the dictionary as its first two loops leave it, with an entry for every
    ligand of the ensemble. *)
Definition num_conditions_of (d : pydict) : outcome nat :=
  match d with
  | [] => Ok 1%nat
  | (_, v) :: _ => value_len v
  end.

Definition completed (ligands : list string) (d : pydict)
    (num_conditions : nat) : pydict :=
  fold_left (fun d lig =>
               if sdict_mem lig d then d
               else sdict_set lig (Array (repeat num0 num_conditions)) d)
            ligands
            match d with
            | [] => fold_left (fun d lig => sdict_set lig (Array [num0]) d)
                              ligands d
            | _ => d
            end.

(** What the ensemble is meant to be between calls: the list of species
    follows the dictionary of species, no species and no ligand is listed
    twice, and every ligand a species binds is a ligand of the ensemble. *)
Definition consistent (ens : ensemble) : Prop :=
  _species_list ens = map fst (_species_dict ens)
  /\ List.NoDup (_species_list ens)
  /\ List.NoDup (_ligand_list ens)
  /\ forall name sp lig,
       sdict_get (_species_dict ens) name = Some sp ->
       sdict_mem lig (stoichiometry sp) = true ->
       In lig (_ligand_list ens).




(** The potential of a ligand under condition [j] in a condition set, and
    the energy the ligands of the ensemble take off a species under that
    condition: the sum over ligands of potential times stoichiometry. *)
Definition potential (d : pydict) (lig : string) (j : nat) : num :=
  match sdict_get d lig with
  | Some (Array a) => match a !! j with Some p => p | None => num0 end
  | _ => num0
  end.

Definition bound_energy (ligands : list string) (d : pydict) (sp : species)
    (j : nat) : num :=
  fold_right (fun lig acc => nadd (nmul (potential d lig j) (stoich_of sp lig))
                                  acc)
             num0 ligands.


(** [Ensemble.read_ligand_dict(ligand_dict={})]: without an argument the
    one dictionary made when the method was defined is used. *)
Definition read_ligand_dict (ligand_dict : option loc) : M world unit :=
  let* w := get in
  let ligand_dict :=
    match ligand_dict with
    | None => read_ligand_dict_default w
    | Some l => l
    end in
  let* '(ligand_dict, _) := on_heap (check_ligand_dict ligand_dict) in
  _build_z_matrix ligand_dict.

(** [Ensemble.mut_dict_to_array(mut_energy)] *)
Definition mut_dict_to_array (ens : ensemble)
    (mut_energy : option (list (string * num))) : list num :=
  let mut_energy := match mut_energy with None => [] | Some d => d end in
  map (fun s => match sdict_get mut_energy s with
                | Some v => v
                | None => num0
                end) (_species_list ens).

Context `{!FloatOps num}.

(** [Ensemble.__init__(gas_constant)] *)
Definition init (gas_constant : num) : outcome ensemble :=
  let+ gas_constant := check_float gas_constant (Some num0) false in
  Ok (mkens gas_constant [] [] [] (nmul (nlog finfo_max) hundredth) None).

(** numpy's elementwise operation on two vectors: equal lengths, or one of
    them of length 1. *)
Definition broadcast2 (f : num -> num -> num) (a b : list num)
    : outcome (list num) :=
  if (length a =? length b)%nat then Ok (zip_with f a b)
  else match a, b with
       | [x], _ => Ok (map (f x) b)
       | _, [y] => Ok (map (fun x => f x y) a)
       | _, _ => Raise ValueError
       end.

(** The entry of a vector that broadcasting pairs with column [j]: its
    only entry if it has one, else the one at [j]. *)
Definition entry (v : list num) (j : nat) : option num :=
  match v with
  | [x] => Some x
  | _ => v !! j
  end.

(** [self._z_matrix + mut_energy[:,None]] *)
Definition add_column (z : list (list num)) (mut_energy : list num)
    : outcome (list (list num)) :=
  if (length mut_energy =? length z)%nat
  then Ok (zip_with (fun row m => map (fun x => nadd x m) row) z mut_energy)
  else match mut_energy, z with
       | [m], _ => Ok (map (map (fun x => nadd x m)) z)
       | _, [row] => Ok (map (fun m => map (fun x => nadd x m) row) mut_energy)
       | _, _ => Raise ValueError
       end.

(** [np.max(weights, axis=0)] *)
Definition column_max (rows : list (list num)) : outcome (list num) :=
  match rows with
  | [] => Raise ValueError
  | r :: rest => Ok (fold_left (zip_with nmax) rest r)
  end.

(** [np.sum(rows, axis=0)] for rows of the given width. *)
Definition column_sum (width : nat) (rows : list (list num)) : list num :=
  fold_left (zip_with nadd) rows (repeat num0 width).

(** [a[mask]] for a boolean [mask]. *)
Definition select {A} (mask : list bool) (a : list A) : outcome (list A) :=
  if (length mask =? length a)%nat
  then Ok (map snd (List.filter (fun p => fst p) (combine mask a)))
  else Raise IndexError.

Fixpoint scatter (a : list num) (mask : list bool) (v : list num)
    : list num :=
  match a, mask with
  | x :: a', true :: mask' =>
      match v with
      | y :: v' => y :: scatter a' mask' v'
      | [] => x :: scatter a' mask' []
      end
  | x :: a', false :: mask' => x :: scatter a' mask' v
  | _, _ => a
  end.

(** [a[mask] = v] for an array [v]: as many values as the mask selects, or
    a single one. *)
Definition mask_assign (a : list num) (mask : list bool) (v : list num)
    : outcome (list num) :=
  let k := length (List.filter (fun b : bool => b) mask) in
  if negb (length mask =? length a)%nat then Raise IndexError
  else if (length v =? k)%nat then Ok (scatter a mask v)
  else match v with
       | [y] => Ok (scatter a mask (repeat y k))
       | _ => Raise ValueError
       end.

(** [a[mask] = x] for a float [x]. *)
Definition mask_fill (a : list num) (mask : list bool) (x : num)
    : outcome (list num) :=
  mask_assign a mask [x].

(** [Ensemble._get_weights(mut_energy, temperature)] *)
Definition _get_weights (ens : ensemble) (mut_energy temperature : list num)
    : outcome (list (list num)) :=
  let beta := map (fun t => ndiv num1 (nmul (_gas_constant ens) t))
                  temperature in
  let+ z := of_option AttributeError (built ens) in
  let+ perturbed := add_column (_z_matrix z) mut_energy in
  let+ weights :=
    collect (fun row => broadcast2 nmul (map nopp beta) row) perturbed in
  let+ top := column_max weights in
  let shift := map (fun m => nsub (_max_allowed ens) m) top in
  let+ weights := collect (fun row => broadcast2 nadd row shift) weights in
  Ok (map (map nexp) weights).

Definition width (weights : list (list num)) : nat :=
  match weights with
  | [] => O
  | r :: _ => length r
  end.

(** [np.sum(weights[mask,:], axis=0)] *)
Definition masked_sum (weights : list (list num)) (mask : list bool)
    : outcome (list num) :=
  let+ rows := select mask weights in
  Ok (column_sum (width weights) rows).

(** [np.logical_or(obs == 0, not_obs == 0)] *)
Definition zero_mask (obs not_obs : list num) : list bool :=
  zip_with orb (map (fun x => neqb x num0) obs)
               (map (fun x => neqb x num0) not_obs).

(** The conditions under which [dG_obs] is not a number: the mask that
    [get_obs] and [get_dG_obs_fast] both compute from the weights. *)
Definition nan_mask (ens : ensemble) (mut_energy temperature : list num)
    : outcome (list bool) :=
  let+ weights := _get_weights ens mut_energy temperature in
  let+ z := of_option AttributeError (built ens) in
  let+ obs := masked_sum weights (_obs_mask z) in
  let+ not_obs_mask := of_option AttributeError (_not_obs_mask z) in
  let+ not_obs := masked_sum weights not_obs_mask in
  Ok (zero_mask obs not_obs).

(** The lengths of the arrays among the values of a dictionary. *)
Definition array_lengths (d : pydict) : list nat :=
  flat_map (fun '(_, v) => match v with
                           | Array a => [length a]
                           | Scalar _ => []
                           end) d.

(** [pd.DataFrame(out)] for a dictionary [out] of columns: the arrays must
    have one length, and a single value is repeated to it.  Arrays of two
    lengths, or single values only, are refused with [ValueError]. *)
Definition DataFrame (out : pydict) : outcome pydict :=
  match out, array_lengths out with
  | [], _ => Ok []
  | _, [] => Raise ValueError
  | _, n :: rest =>
      if forallb (Nat.eqb n) rest
      then Ok (map (fun '(name, v) =>
                      (name, match v with
                             | Scalar x => Array (repeat x n)
                             | Array a => Array a
                             end)) out)
      else Raise ValueError
  end.

(** [Ensemble.get_obs(mut_energy, ligand_dict, temperature)].  The frame
    is made from the dictionary [out], which has one key per column: a
    column assigned under a name that is there already replaces it. *)
Definition get_obs (mut_energy : option (list (string * num)))
    (ligand_dict : option loc) (temperature : pyvalue num)
    : M world pydict :=
  let* ens := get_self in
  if (length (_species_dict ens) <? 2)%nat then raise ValueError
  else
    let num_obs :=
      length (List.filter (fun '(_, sp) => observable sp) (_species_dict ens)) in
    if (num_obs <? 1)%nat || (length (_species_dict ens) - 1 <? num_obs)%nat
    then raise ValueError
    else
      let mut_energy :=
        match mut_energy with
        | None => map (fun '(s, _) => (s, num0)) (_species_dict ens)
        | Some d => d
        end in
      let* ligand_dict :=
        match ligand_dict with
        | None => alloc (map (fun m => (m, Array [num0])) (_ligand_list ens))
        | Some l => ret l
        end in
      let* mut_energy := lift (check_mut_energy mut_energy) in
      let* '(ligand_dict, num_conditions) :=
        on_heap (check_ligand_dict ligand_dict) in
      let* temperature := lift (check_temperature temperature num_conditions) in
      let* _ := _build_z_matrix ligand_dict in
      let* ens := get_self in
      let mut_energy_array := mut_dict_to_array ens (Some mut_energy) in
      let* weights := lift (_get_weights ens mut_energy_array temperature) in
      let* z := lift (of_option AttributeError (built ens)) in
      let* obs := lift (masked_sum weights (_obs_mask z)) in
      let* not_obs_mask := lift (of_option AttributeError (_not_obs_mask z)) in
      let* not_obs := lift (masked_sum weights not_obs_mask) in
      let out : pydict := [] in
      let out := sdict_set "temperature" (Array temperature) out in
      let* d := deref ligand_dict in
      let out := fold_left (fun out '(lig, v) => sdict_set lig v out) d out in
      let total := column_sum (width weights) weights in
      let* fractions :=
        lift (collect (fun '(i, species_name) =>
                let+ w := of_option IndexError (weights !! i) in
                Ok (species_name, zip_with ndiv w total))
              (combine (seq 0 (length (_species_list ens)))
                       (_species_list ens))) in
      let out :=
        fold_left (fun out '(species_name, fraction) =>
                     sdict_set species_name (Array fraction) out)
                  fractions out in
      let out :=
        sdict_set "fx_obs"
          (Array (zip_with ndiv obs (zip_with nadd obs not_obs))) out in
      let nan_mask := zero_mask obs not_obs in
      let not_nan_mask := map negb nan_mask in
      let dG_out := repeat num0 (length nan_mask) in
      let* dG_out := lift (mask_fill dG_out nan_mask nan) in
      let* t_sel := lift (select not_nan_mask temperature) in
      let* obs_sel := lift (select not_nan_mask obs) in
      let* not_obs_sel := lift (select not_nan_mask not_obs) in
      let* rhs :=
        lift (broadcast2 nmul
                (map (fun t => ndiv (nopp num1) (nmul (_gas_constant ens) t))
                     t_sel)
                (map nlog (zip_with ndiv obs_sel not_obs_sel))) in
      let* dG_out := lift (mask_assign dG_out not_nan_mask rhs) in
      let out := sdict_set "dG_obs" (Array dG_out) out in
      let* fold := lift (masked_sum weights (_folded_mask z)) in
      let* unfolded_mask :=
        lift (of_option AttributeError (_unfolded_mask z)) in
      let* unfold := lift (masked_sum weights unfolded_mask) in
      let out :=
        sdict_set "fx_folded"
          (Array (zip_with ndiv fold (zip_with nadd fold unfold))) out in
      lift (DataFrame out).

(** The columns [get_obs] assigns to [out], by groups and in the order of
    the assignments, and the dictionary they make. *)
Record columns : Type := mkdf {
  df_temperature : list num;
  df_ligands : list (string * pyvalue num);
  df_species : list (string * list num);
  fx_obs : list num;
  dG_obs : list num;
  fx_folded : list num
}.

Definition assigned (c : columns) : pydict :=
  let out := sdict_set "temperature" (Array (df_temperature c)) [] in
  let out :=
    fold_left (fun out '(lig, v) => sdict_set lig v out) (df_ligands c) out in
  let out :=
    fold_left (fun out '(species_name, fraction) =>
                 sdict_set species_name (Array fraction) out)
              (df_species c) out in
  let out := sdict_set "fx_obs" (Array (fx_obs c)) out in
  let out := sdict_set "dG_obs" (Array (dG_obs c)) out in
  sdict_set "fx_folded" (Array (fx_folded c)) out.

(** No later column of the frame replaces its temperature column: no
    species and no key of a dictionary of conditions in the store is called
    ["temperature"]. *)
Definition temperature_kept (w : world) : Prop :=
  ~ In "temperature" (_species_list (self w))
  /\ forall l d, heap w !! l = Some d -> sdict_mem "temperature" d = false.

(** Every species has a column of its own in the frame: no species is
    listed twice, and none is called like one of the three columns
    assigned after those of the species. *)
Definition species_columns_kept (ens : ensemble) : Prop :=
  List.NoDup (_species_list ens)
  /\ forall name, In name (_species_list ens) ->
       name <> "fx_obs" /\ name <> "dG_obs" /\ name <> "fx_folded".

(** What a call of [get_obs] that returns [out] has computed on the way. *)
Inductive get_obs_trace (mut_energy : option (list (string * num)))
    (temperature : pyvalue num) (w w' : world) (out : pydict)
    : Prop :=
| Trace (df : columns) (num_conditions : nat) (checked : list (string * num))
    (ligand_dict : loc) (w1 : world) (weights : list (list num))
    (z : z_attrs) (not_obs_mask unfolded_mask : list bool)
    (obs not_obs filled t_sel obs_sel not_obs_sel rhs
     folded_sum unfolded_sum : list num)
    (frame_ok : DataFrame (assigned df) = Ok out)
    (checked_ok :
      check_mut_energy
        match mut_energy with
        | Some d => d
        | None => map (fun '(s, _) => (s, num0)) (_species_dict (self w))
        end = Ok checked)
    (temperature_ok :
      check_temperature temperature num_conditions = Ok (df_temperature df))
    (checked_world : self w1 = self w)
    (build_ok : _build_z_matrix ligand_dict w1 = (Ok tt, w'))
    (ligands_ok : heap w' !! ligand_dict = Some (df_ligands df))
    (built_ok : built (self w') = Some z)
    (not_obs_mask_ok : _not_obs_mask z = Some not_obs_mask)
    (unfolded_mask_ok : _unfolded_mask z = Some unfolded_mask)
    (weights_ok :
      _get_weights (self w') (mut_dict_to_array (self w') (Some checked))
        (df_temperature df) = Ok weights)
    (obs_ok : masked_sum weights (_obs_mask z) = Ok obs)
    (not_obs_ok : masked_sum weights not_obs_mask = Ok not_obs)
    (species_ok :
      collect (fun '(i, species_name) =>
                 let+ w := of_option IndexError (weights !! i) in
                 Ok (species_name,
                     zip_with ndiv w (column_sum (width weights) weights)))
              (combine (seq 0 (length (_species_list (self w'))))
                       (_species_list (self w')))
      = Ok (df_species df))
    (names_ok : map fst (df_species df) = _species_list (self w'))
    (fx_obs_ok : fx_obs df = zip_with ndiv obs (zip_with nadd obs not_obs))
    (filled_ok :
      mask_fill (repeat num0 (length (zero_mask obs not_obs)))
        (zero_mask obs not_obs) nan = Ok filled)
    (t_sel_ok :
      select (map negb (zero_mask obs not_obs)) (df_temperature df)
      = Ok t_sel)
    (obs_sel_ok : select (map negb (zero_mask obs not_obs)) obs = Ok obs_sel)
    (not_obs_sel_ok :
      select (map negb (zero_mask obs not_obs)) not_obs = Ok not_obs_sel)
    (rhs_ok :
      broadcast2 nmul
        (map (fun t => ndiv (nopp num1) (nmul (_gas_constant (self w')) t))
             t_sel)
        (map nlog (zip_with ndiv obs_sel not_obs_sel)) = Ok rhs)
    (dG_obs_ok :
      mask_assign filled (map negb (zero_mask obs not_obs)) rhs
      = Ok (dG_obs df))
    (folded_ok : masked_sum weights (_folded_mask z) = Ok folded_sum)
    (unfolded_ok : masked_sum weights unfolded_mask = Ok unfolded_sum)
    (fx_folded_ok :
      fx_folded df
      = zip_with ndiv folded_sum (zip_with nadd folded_sum unfolded_sum)).

(** [Ensemble.get_fx_obs_fast(mut_energy_array, temperature)] *)
Definition get_fx_obs_fast (ens : ensemble)
    (mut_energy_array temperature : list num)
    : outcome (list num * list num) :=
  let+ weights := _get_weights ens mut_energy_array temperature in
  let+ z := of_option AttributeError (built ens) in
  let+ obs := masked_sum weights (_obs_mask z) in
  let+ not_obs_mask := of_option AttributeError (_not_obs_mask z) in
  let+ not_obs := masked_sum weights not_obs_mask in
  let+ fold := masked_sum weights (_folded_mask z) in
  let+ unfolded_mask := of_option AttributeError (_unfolded_mask z) in
  let+ unfold := masked_sum weights unfolded_mask in
  Ok (zip_with ndiv obs (zip_with nadd obs not_obs),
      zip_with ndiv fold (zip_with nadd fold unfold)).

(** [Ensemble.get_dG_obs_fast(mut_energy_array, temperature)] *)
Definition get_dG_obs_fast (ens : ensemble)
    (mut_energy_array temperature : list num)
    : outcome (list num * list num) :=
  let+ weights := _get_weights ens mut_energy_array temperature in
  let+ z := of_option AttributeError (built ens) in
  let+ obs := masked_sum weights (_obs_mask z) in
  let+ not_obs_mask := of_option AttributeError (_not_obs_mask z) in
  let+ not_obs := masked_sum weights not_obs_mask in
  let mask := zero_mask obs not_obs in
  let not_mask := map negb mask in
  let dG_out := repeat num0 (length mask) in
  let+ dG_out := mask_fill dG_out mask nan in
  let+ obs_sel := select not_mask obs in
  let+ not_obs_sel := select not_mask not_obs in
  let+ rhs :=
    broadcast2 nmul
      (map (fun t => ndiv (nopp num1) (nmul (_gas_constant ens) t))
           temperature)
      (map nlog (zip_with ndiv obs_sel not_obs_sel)) in
  let+ dG_out := mask_assign dG_out not_mask rhs in
  let+ fold := masked_sum weights (_folded_mask z) in
  let+ unfolded_mask := of_option AttributeError (_unfolded_mask z) in
  let+ unfold := masked_sum weights unfolded_mask in
  Ok (dG_out, zip_with ndiv fold (zip_with nadd fold unfold)).

End Model.

Arguments species : clear implicits.
Arguments z_attrs : clear implicits.
Arguments ensemble : clear implicits.
Arguments pydict : clear implicits.
Arguments world : clear implicits.
Arguments columns : clear implicits.
Arguments Checks : clear implicits.

(** Modelled from the spec: the checking functions of [eee._private.check],
    which are not part of the sources at hand.  A condition set maps a
    ligand to one potential or to a sequence of them; all sequences of one
    call have the same length, the number of conditions; an empty sequence
    or two lengths are refused; one potential becomes a sequence of that
    potential.  The spec does not say whether the dictionary handed back is
    the caller's object or a new one: with [in_place] it is the caller's,
    validated where it is, and without it is a new dictionary.  A
    temperature is positive, and a sequence of temperatures has one entry
    per condition.  [ltb] is the comparison [<] of the arithmetic. *)
Section SpecChecks.
Context {num : Type} `{RingOps num} (ltb : num -> num -> bool)
        (in_place : bool).

Definition spec_check_float (value : num) (minimum_allowed : option num)
    (minimum_inclusive : bool) : outcome num :=
  match minimum_allowed with
  | None => Ok value
  | Some m =>
      if minimum_inclusive
      then (if ltb value m then Raise ValueError else Ok value)
      else (if ltb m value then Ok value else Raise ValueError)
  end.

Definition spec_check_ligand_dict (ligand_dict : loc)
    : M (list (pydict num)) (loc * nat) :=
  let* d := (fun h => (of_option AttributeError (h !! ligand_dict), h)) in
  let n := match array_lengths d with [] => 1%nat | n :: _ => n end in
  if forallb (fun m => negb (m =? 0)%nat && (m =? n)%nat) (array_lengths d)
  then
    let validated :=
      map (fun '(lig, v) =>
             (lig, match v with
                   | Scalar x => Array (repeat x n)
                   | Array a => Array a
                   end)) d in
    if in_place
    then fun h => (Ok (ligand_dict, n), <[ligand_dict := validated]> h)
    else fun h => (Ok (length h, n), h ++ [validated])
  else raise ValueError.

Definition spec_check_temperature (temperature : pyvalue num)
    (num_conditions : nat) : outcome (list num) :=
  match temperature with
  | Scalar t => if ltb num0 t then Ok (repeat t num_conditions)
                else Raise ValueError
  | Array a => if (length a =? num_conditions)%nat && forallb (ltb num0) a
               then Ok a else Raise ValueError
  end.

Definition spec_checks : Checks num :=
  {| check_float := spec_check_float;
     check_mut_energy := fun d => Ok d;
     check_ligand_dict := spec_check_ligand_dict;
     check_temperature := spec_check_temperature |}.

End SpecChecks.


(** A small arithmetic with the two features of binary64 the observables
    depend on: a not-a-number value, and an exponential that underflows to
    exactly 0 (here below -745, as [np.exp] does).  Numbers are reduced
    rationals, [None] is NaN, the exponential and the logarithm are in base 2
    and rounded down to a power of two. *)
Module Coarse.

Definition num : Type := option Q.

Definition lift2 (f : Q -> Q -> Q) (a b : num) : num :=
  match a, b with
  | Some x, Some y => Some (Qred (f x y))
  | _, _ => None
  end.

Definition cdiv (a b : num) : num :=
  match a, b with
  | Some x, Some y => if Qeq_bool y 0 then None else Some (Qred (x / y))
  | _, _ => None
  end.

Definition cexp (a : num) : num :=
  match a with
  | Some x => if Qle_bool x (-745 # 1) then Some 0%Q
              else Some (Qred (Qpower 2 (Qfloor x)))
  | None => None
  end.

Definition clog (a : num) : num :=
  match a with
  | Some x => if Qle_bool x 0 then None
              else Some (inject_Z (Z.log2 (Qnum x) - Z.log2 (Zpos (Qden x))))
  | None => None
  end.

Definition cmax (a b : num) : num :=
  match a, b with
  | Some x, Some y => if Qle_bool x y then Some y else Some x
  | _, _ => None
  end.

Definition ceqb (a b : num) : bool :=
  match a, b with
  | Some x, Some y => Qeq_bool x y
  | _, _ => false
  end.

Definition cltb (a b : num) : bool :=
  match a, b with
  | Some x, Some y => negb (Qle_bool y x)
  | _, _ => false
  end.

#[export] Instance ring : RingOps num :=
  {| num0 := Some 0%Q; num1 := Some 1%Q;
     nadd := lift2 Qplus; nsub := lift2 Qminus; nmul := lift2 Qmult;
     nopp := fun a => match a with Some x => Some (Qred (- x)) | None => None end |}.

#[export] Instance float : FloatOps num :=
  {| ndiv := cdiv; nexp := cexp; nlog := clog; nmax := cmax; neqb := ceqb;
     nan := None; finfo_max := Some (Qpower 2 1024);
     hundredth := Some (1 # 100)%Q |}.

#[export] Instance checks : Checks num := spec_checks cltb true.

End Coarse.

(** binary64 floats with the rounding of their sums, differences and
    products, to the nearest float and to the even mantissa on a tie: the
    arithmetic [get_species_dG] runs in. *)
Module Binary64.

Definition num : Type := spec_float.

Definition of_int (n : Z) : num := binary_normalize 53 1024 n 0 false.


Definition ring : RingOps num :=
  {| num0 := S754_zero false; num1 := of_int 1;
     nadd := SFadd 53 1024; nsub := SFsub 53 1024; nmul := SFmul 53 1024;
     nopp := SFopp |}.

Definition checks : Checks num := spec_checks (H := ring) SFltb true.

End Binary64.

(** Exact arithmetic: the real numbers with their exponential and
    logarithm.  There is no not-a-number among them; [nan] stands for the
    quotient [0 / 0]. *)
Module Exact.

Definition num : Type := Rdefinitions.R.

Definition reqb (a b : num) : bool :=
  if RIneq.Req_dec_T a b then true else false.

Definition ring : RingOps num :=
  {| num0 := Rdefinitions.IZR 0; num1 := Rdefinitions.IZR 1;
     nadd := Rdefinitions.Rplus; nsub := Rdefinitions.Rminus;
     nmul := Rdefinitions.Rmult; nopp := Rdefinitions.Ropp |}.

Definition float : @FloatOps num ring :=
  {| ndiv := Rdefinitions.Rdiv; nexp := Rtrigo_def.exp; nlog := Rpower.ln;
     nmax := Rbasic_fun.Rmax; neqb := reqb;
     nan := Rdefinitions.Rdiv (Rdefinitions.IZR 0) (Rdefinitions.IZR 0);
     finfo_max := Rdefinitions.IZR (2 ^ 1024);
     hundredth := Rdefinitions.Rdiv (Rdefinitions.IZR 1)
                                    (Rdefinitions.IZR 100) |}.

End Exact.

End Ensemble.

(** ** [eee/io/read_ensemble.py] *)

Module ReadEnsemble.
Import Py.

(** What [json.load] hands to the reader: a dictionary with string keys, in
    the order of the file, or any other value, kept by its text.  The keys
    of a Python dictionary are distinct ([distinct_keys]). *)
Inductive json : Type :=
| JDict (d : dict)
| JAtom (text : string)
with dict : Type :=
| DNil
| DCons (key : string) (value : json) (rest : dict).

(** [k in d] and [d[k]] *)
Fixpoint dict_lookup (d : dict) (k : string) : option json :=
  match d with
  | DNil => None
  | DCons key value rest =>
      if String.eqb key k then Some value else dict_lookup rest k
  end.

Fixpoint distinct_keys (d : dict) : Prop :=
  match d with
  | DNil => True
  | DCons key value rest =>
      dict_lookup rest key = None
      /\ match value with JDict inner => distinct_keys inner | JAtom _ => True end
      /\ distinct_keys rest
  end.

(** [current_stack[-1] != search_key] *)
Definition last_differs (current_stack : list string) (search_key : string)
    : outcome bool :=
  match List.last (map Some current_stack) None with
  | Some top => Ok (negb (String.eqb top search_key))
  | None => Raise IndexError
  end.

(** The loop of [_search_for_key] over the keys of [some_dict] from the
    first one on, with the stack the loop has reached. *)
Fixpoint search_from (some_dict : dict) (search_key : string)
    (current_stack : list string) : outcome (list string) :=
  match some_dict with
  | DNil => Ok current_stack
  | DCons key value rest =>
      if String.eqb key search_key then Ok (current_stack ++ [key])
      else
        match value with
        | JDict inner =>
            match search_from inner search_key (current_stack ++ [key]) with
            | Ok current_stack =>
                match last_differs current_stack search_key with
                | Ok true =>
                    search_from rest search_key (removelast current_stack)
                | Ok false => search_from rest search_key current_stack
                | Raise e => Raise e
                | OutOfFuel => OutOfFuel
                end
            | o => o
            end
        | JAtom _ => search_from rest search_key current_stack
        end
  end.

(** [_search_for_key(some_dict, search_key, current_stack=None)] *)
Definition _search_for_key (some_dict : dict) (search_key : string)
    (current_stack : option (list string)) : outcome (list string) :=
  search_from some_dict search_key
    match current_stack with None => [] | Some s => s end.

(** [for k in key_stack: calc_input = calc_input[k]], the way
    [_json_to_ensemble] uses the stack. *)
Fixpoint follow_keys (calc_input : json) (key_stack : list string)
    : outcome json :=
  match key_stack with
  | [] => Ok calc_input
  | k :: key_stack' =>
      match calc_input with
      | JDict d =>
          match dict_lookup d k with
          | Some v => follow_keys v key_stack'
          | None => Raise KeyError
          end
      | JAtom _ => Raise TypeError
      end
  end.

(** How often a key occurs in a nested dictionary, at any depth. *)
Fixpoint occurrences (k : string) (d : dict) : nat :=
  match d with
  | DNil => O
  | DCons key value rest =>
      ((if String.eqb key k then 1 else 0)
       + match value with JDict inner => occurrences k inner | JAtom _ => 0 end
       + occurrences k rest)%nat
  end.

End ReadEnsemble.

(** ** [eee/io/read_tree.py] *)

Module ReadTree.
Import Py.

Section Reader.
(** The trees and the parser of [ete3], and [check_int] of
    [eee._private.check], are not part of the sources at hand: the reader
    is modelled over any of them. *)
Variable TreeNode : Type.

(** What [Tree(newick)] or [Tree(newick, format=f)] does: it returns a
    tree, raises [NewickError], or raises something else. *)
Inductive parsed : Type :=
| Parsed (t : TreeNode)
| NewickError
| Failed (e : exn).

Variable Tree : string -> option Z -> parsed.
(** [check_int(value, minimum_allowed, maximum_allowed)]: the integer, or
    the exception it raises. *)
Variable check_int : Z -> Z -> Z -> exn + Z.

(** The [tree] argument: an [ete3] tree already, or something to parse. *)
Inductive tree_arg : Type :=
| IsTree (t : TreeNode)
| Newick (text : string).

(** [list(range(10))] with 100 appended. *)
Definition formats : list Z := map Z.of_nat (seq 0 10) ++ [100].

(** The loop [for f in formats]: [None] when it ends with [t] still
    [None]. *)
Fixpoint try_formats (tree : string) (formats : list Z) : option parsed :=
  match formats with
  | [] => None
  | f :: rest =>
      match Tree tree (Some f) with
      | Parsed t => Some (Parsed t)
      | NewickError => try_formats tree rest
      | Failed e => Some (Failed e)
      end
  end.

(** [read_tree(tree, fmt=None)] *)
Definition read_tree (tree : tree_arg) (fmt : option Z) : parsed :=
  match tree with
  | IsTree t => Parsed t
  | Newick tree =>
      match fmt with
      | None =>
          match Tree tree None with
          | Parsed t => Parsed t
          | NewickError =>
              match try_formats tree formats with
              | Some r => r
              | None => Failed ValueError
              end
          | Failed e => Failed e
          end
      | Some fmt =>
          match check_int fmt 0 100 with
          | inr fmt =>
              if (9 <? fmt) && negb (fmt =? 100) then Failed ValueError
              else Tree tree (Some fmt)
          | inl e => Failed e
          end
      end
  end.

End Reader.

Arguments Parsed {TreeNode} t.
Arguments NewickError {TreeNode}.
Arguments Failed {TreeNode} e.
Arguments IsTree {TreeNode} t.
Arguments Newick {TreeNode} text.

End ReadTree.

(** ** Concrete inputs *)

Module Inputs.
Import Py NpRandom.

(** One mutable site, two possible mutations, one species. *)
Definition ddg_labels : Genotype.ddg_table :=
  [(KInt 0, [(KStr "M1", [("s", 1)]); (KStr "M2", [("s", 2)])])].

Definition wildtype : Genotype.t :=
  Genotype.init ["s"] ddg_labels None None None.

(** Two sites whose mutations are numbered rather than named. *)
Definition ddg_numbers : Genotype.ddg_table :=
  [(KInt 0, [(KInt 0, [("s", 1)]); (KInt 1, [("s", 2)])]);
   (KInt 1, [(KInt 0, [("s", 10)]); (KInt 1, [("s", 20)])])].

Definition wildtype_numbers : Genotype.t :=
  Genotype.init ["s"] ddg_numbers None None None.

(** Two sites numbered from 1, as in a table of mutations read from a
    file, each with two named mutations. *)
Definition ddg_one_based : Genotype.ddg_table :=
  [(KInt 1, [(KStr "A1V", [("s", 1)]); (KStr "A1G", [("s", 2)])]);
   (KInt 2, [(KStr "L2I", [("s", 3)]); (KStr "L2F", [("s", 4)])])].

Definition wildtype_one_based : Genotype.t :=
  Genotype.init ["s"] ddg_one_based None None None.

(** One site with a single possible mutation, both numbered 0. *)
Definition ddg_single : Genotype.ddg_table :=
  [(KInt 0, [(KInt 0, [("s", 1)])])].

Definition wildtype_single : Genotype.t :=
  Genotype.init ["s"] ddg_single None None None.

(** Containers whose fitness evaluator gives every genotype fitness 0, or
    every genotype fitness 1. *)
Definition unfit : WrightFisher.GenotypeContainer WrightFisher.container :=
  WrightFisher.container_is_GenotypeContainer (fun _ => 0%Q) 8.

Definition neutral : WrightFisher.GenotypeContainer WrightFisher.container :=
  WrightFisher.container_is_GenotypeContainer (fun _ => 1%Q) 8.

Definition one_unfit : WrightFisher.container :=
  WrightFisher.mkcontainer [wildtype] [0%Q].

Definition one_neutral : WrightFisher.container :=
  WrightFisher.mkcontainer [wildtype_numbers] [1%Q].

Definition two_neutral : WrightFisher.container :=
  WrightFisher.mkcontainer [wildtype; wildtype] [1%Q; 1%Q].

(** Two states of numpy's generator, one draw in, that differ in the draw
    already consumed and agree from then on. *)
Definition started_after_9 : generator :=
  mkgen (fun i => nth i [9; 0; 0; 0; 2; 0; 0; 1; 1; 0; 0; 0; 1; 1; 1]%N 0%N) 1.

Definition started_after_4 : generator :=
  mkgen (fun i => nth i [4; 0; 0; 0; 2; 0; 0; 1; 1; 0; 0; 0; 1; 1; 1]%N 0%N) 1.

(** Containers for the tree driver: a wild-type sequence of ten residues
    or of twenty-five, and a starting population whose most frequent
    genotype is the wild type, with no mutation accumulated. *)
Definition ten_residues (_ : unit) : list Ascii.ascii :=
  repeat Ascii.zero 10.

Definition twenty_five_residues (_ : unit) : list Ascii.ascii :=
  repeat Ascii.zero 25.

(** The branch lengths [0.01] and [0.1] as Python reads them: the floats
    nearest to 1/100 and to 1/10. *)
Definition float_0_01 : FollowTree.binary64 :=
  FollowTree.float_div (FollowTree.float_of_int 1)
    (FollowTree.float_of_int 100).

Definition float_0_1 : FollowTree.binary64 :=
  FollowTree.float_div (FollowTree.float_of_int 1)
    (FollowTree.float_of_int 10).

Definition none_accumulated (_ _ : list Z) (_ : unit) : Z := 0.

(** Two species, ["A"] not observable and ["B"] observable and binding one
    ligand ["X"], with gas constant 1, and the caller's condition set
    [{"X": [-2000, 0]}]: under the first condition ["B"] lies 2000 above
    ["A"], under the second they are level. *)
Import Ensemble.Coarse.

Definition q (z : Z) : Ensemble.Coarse.num := Some (inject_Z z).

Definition two_conditions : Ensemble.pydict Ensemble.Coarse.num :=
  [("X", Ensemble.Array [q (-2000); q 0])].

Definition empty_ensemble : Ensemble.ensemble Ensemble.Coarse.num :=
  match Ensemble.init (q 1) with
  | Ok ens => ens
  | _ => Ensemble.mkens (q 1) [] [] [] (q 0) None
  end.

Definition binding_world : Ensemble.world Ensemble.Coarse.num :=
  snd ((let* _ := Ensemble.add_species "A" (q 0) false true [] in
        Ensemble.add_species "B" (q 0) true true [("X", q 1)])
         (Ensemble.mkworld empty_ensemble [[]; two_conditions] 0%nat)).

(** [get_obs] on that ensemble under the caller's two conditions, at
    temperature 1, and the frame it returns. *)
Definition binding_run
    : Py.outcome (Ensemble.pydict Ensemble.Coarse.num)
      * Ensemble.world Ensemble.Coarse.num :=
  Ensemble.get_obs None (Some 1%nat) (Ensemble.Array [q 1; q 1])
    binding_world.

Definition binding_frame : Ensemble.pydict Ensemble.Coarse.num :=
  match fst binding_run with
  | Ok df => df
  | _ => []
  end.

(** The same ensemble under the conditions [{"X": [0, 1]}], which leave
    both species populated. *)
Definition mild_world : Ensemble.world Ensemble.Coarse.num :=
  Ensemble.mkworld (Ensemble.self binding_world)
    [[("X", Ensemble.Array [q 0; q 1])]] 0%nat.

Definition mild_run
    : Py.outcome (Ensemble.pydict Ensemble.Coarse.num)
      * Ensemble.world Ensemble.Coarse.num :=
  Ensemble.get_obs None (Some 0%nat) (Ensemble.Array [q 1; q 1]) mild_world.

Definition mild_frame : Ensemble.pydict Ensemble.Coarse.num :=
  match fst mild_run with
  | Ok df => df
  | _ => []
  end.




(** Over the reals, at gas constant 1: ["A"] at 0 and ["B"], observable,
    at 1, no ligand, with the matrix of one condition built. *)
Definition two_levels : Ensemble.ensemble Ensemble.Exact.num :=
  Ensemble.mkens (Rdefinitions.IZR 1)
    [("A", Ensemble.mkspecies false true (Rdefinitions.IZR 0) []);
     ("B", Ensemble.mkspecies true true (Rdefinitions.IZR 1) [])]
    ["A"; "B"] [] (Rdefinitions.IZR 7)
    (Some (Ensemble.mkz [[Rdefinitions.IZR 0]; [Rdefinitions.IZR 1]]
             [false; true] [true; true] (Some [true; false])
             (Some [false; false]))).

Definition two_levels_weights : list (list Ensemble.Exact.num) :=
  match Ensemble._get_weights (H := Ensemble.Exact.ring)
          (FloatOps0 := Ensemble.Exact.float) two_levels
          [Rdefinitions.IZR 0; Rdefinitions.IZR 0] [Rdefinitions.IZR 1] with
  | Ok weights => weights
  | _ => []
  end.

(** Checks that accept what they are given, a single temperature standing
    for one temperature per condition; and the two species above before
    any condition is read, with an empty dictionary of conditions for the
    caller's. *)
Definition accepting_checks : Ensemble.Checks Ensemble.Exact.num :=
  {| Ensemble.check_float := fun value _ _ => Ok value;
     Ensemble.check_mut_energy := fun d => Ok d;
     Ensemble.check_ligand_dict :=
       Ensemble.spec_check_ligand_dict (num := Ensemble.Exact.num) true;
     Ensemble.check_temperature :=
       fun temperature num_conditions =>
         match temperature with
         | Ensemble.Scalar t => Ok (repeat t num_conditions)
         | Ensemble.Array a => Ok a
         end |}.

Definition two_levels_world : Ensemble.world Ensemble.Exact.num :=
  Ensemble.mkworld
    (Ensemble.mkens (Rdefinitions.IZR 1)
       [("A", Ensemble.mkspecies false true (Rdefinitions.IZR 0) []);
        ("B", Ensemble.mkspecies true true (Rdefinitions.IZR 1) [])]
       ["A"; "B"] [] (Rdefinitions.IZR 7) None)
    [[]] 0%nat.

(** [get_obs] on them, under the one condition of an empty dictionary and
    at temperature 1, and the frame it returns. *)
Definition two_levels_run
    : Py.outcome (Ensemble.pydict Ensemble.Exact.num)
      * Ensemble.world Ensemble.Exact.num :=
  Ensemble.get_obs (H := Ensemble.Exact.ring) (H0 := accepting_checks)
    (FloatOps0 := Ensemble.Exact.float) None (Some 0%nat)
    (Ensemble.Scalar (Rdefinitions.IZR 1)) two_levels_world.

Definition two_levels_frame : Ensemble.pydict Ensemble.Exact.num :=
  match fst two_levels_run with
  | Ok df => df
  | _ => []
  end.

(** The description of a simulation with the ensemble under ["ens"], two
    levels down:
    [{"calc_type": "wf_tree_sim", "calc_params": {"param_1": 10},
      "system": {"ens": {"gas_constant": 0.00197, "one": {"dG0": 0}}}}]. *)
Definition simulation_json : ReadEnsemble.dict :=
  ReadEnsemble.DCons "calc_type" (ReadEnsemble.JAtom "wf_tree_sim")
    (ReadEnsemble.DCons "calc_params"
       (ReadEnsemble.JDict
          (ReadEnsemble.DCons "param_1" (ReadEnsemble.JAtom "10")
             ReadEnsemble.DNil))
       (ReadEnsemble.DCons "system"
          (ReadEnsemble.JDict
             (ReadEnsemble.DCons "ens"
                (ReadEnsemble.JDict
                   (ReadEnsemble.DCons "gas_constant"
                      (ReadEnsemble.JAtom "0.00197")
                      (ReadEnsemble.DCons "one"
                         (ReadEnsemble.JDict
                            (ReadEnsemble.DCons "dG0" (ReadEnsemble.JAtom "0")
                               ReadEnsemble.DNil))
                         ReadEnsemble.DNil)))
                ReadEnsemble.DNil))
          ReadEnsemble.DNil)).

End Inputs.

(** * Properties *)

(** ** Running code *)

Module PyFacts.
Import Py NpRandom.

Lemma bind_ok {S A B} (m : M S A) (k : A -> M S B) s b s' :
  bind m k s = (Ok b, s') ->
  exists a s1, m s = (Ok a, s1) /\ k a s1 = (Ok b, s').
Proof.
  unfold bind. destruct (m s) as [[a| |] s1]; try discriminate. eauto.
Qed.

Lemma lift_ok {S A} (o : outcome A) (s : S) a s' :
  lift o s = (Ok a, s') -> o = Ok a /\ s' = s.
Proof. unfold lift. intros Heq; inversion Heq; auto. Qed.

Tactic Notation "step" hyp(H) "as" ident(a) ident(E) :=
  let s := fresh "s" in
  apply bind_ok in H; destruct H as (a & s & E & H);
  first [ apply lift_ok in E; destruct E as [E ->] | idtac ].

Lemma bind_raises {S A B} (m : M S A) (k : A -> M S B) s e s' :
  bind m k s = (Raise e, s') ->
  m s = (Raise e, s')
  \/ exists a s1, m s = (Ok a, s1) /\ k a s1 = (Raise e, s').
Proof.
  unfold bind. destruct (m s) as [[a| |] s1]; intros Hrun.
  - right. eauto.
  - left. now injection Hrun as -> ->.
  - discriminate.
Qed.


(** A loop that completes has kept what each pass keeps. *)
Lemma for_each_keeps {S A} (P : S -> Prop) (body : A -> M S unit) xs :
  (forall x s u s', P s -> body x s = (Ok u, s') -> P s') ->
  forall s u s', P s -> for_each xs body s = (Ok u, s') -> P s'.
Proof.
  intros Hbody. induction xs as [|x xs IH]; intros s u s' Hs Hrun;
    cbn in Hrun.
  - unfold ret in Hrun. now injection Hrun as _ <-.
  - apply bind_ok in Hrun as (v & s1 & Hx & Hrest). eauto.
Qed.

Lemma for_each_keeps_in {S A} (P : S -> Prop) (body : A -> M S unit) xs :
  (forall x s u s', In x xs -> P s -> body x s = (Ok u, s') -> P s') ->
  forall s u s', P s -> for_each xs body s = (Ok u, s') -> P s'.
Proof.
  induction xs as [|x xs IH]; intros Hbody s u s' Hs Hrun; cbn in Hrun.
  - unfold ret in Hrun. now injection Hrun as _ <-.
  - apply bind_ok in Hrun as (v & s1 & Hx & Hrest).
    eapply IH; [|eapply Hbody; [now left|exact Hs|exact Hx]|exact Hrest].
    intros y t v' t' Hy. apply Hbody. now right.
Qed.

(** *** Code that keeps a property of the state *)

Section Keeps.
Context {S : Type} (P : S -> Prop).

Lemma keeps_ret {A} (a : A) : keeps P (ret a).
Proof. intros s Hs. exact Hs. Qed.

Lemma keeps_lift {A} (o : outcome A) : keeps P (lift o).
Proof. intros s Hs. exact Hs. Qed.

Lemma keeps_raise {A} e : keeps P (raise (A := A) e).
Proof. intros s Hs. exact Hs. Qed.

Lemma keeps_bind {A B} (m : M S A) (k : A -> M S B) :
  keeps P m -> (forall a, keeps P (k a)) -> keeps P (bind m k).
Proof.
  intros Hm Hk s Hs. unfold bind. specialize (Hm s Hs).
  destruct (m s) as [[a| |] s1]; cbn in Hm; [now apply Hk|exact Hm..].
Qed.

Lemma keeps_for_each {A} (body : A -> M S unit) xs :
  (forall x, keeps P (body x)) -> keeps P (for_each xs body).
Proof.
  intros Hbody. induction xs as [|x xs IH]; cbn.
  - apply keeps_ret.
  - apply keeps_bind; [apply Hbody|intros _; exact IH].
Qed.

End Keeps.

(** *** Code that runs alike from related states *)

Section Stable.
Context {S : Type} (R : S -> S -> Prop).

Lemma stable_ret {A} (a : A) : stable R (ret a).
Proof. intros s1 s2 Hs. split; [reflexivity|exact Hs]. Qed.

Lemma stable_lift {A} (o : outcome A) : stable R (lift o).
Proof. intros s1 s2 Hs. split; [reflexivity|exact Hs]. Qed.

Lemma stable_raise {A} e : stable R (raise (A := A) e).
Proof. intros s1 s2 Hs. split; [reflexivity|exact Hs]. Qed.

Lemma stable_bind {A B} (m : M S A) (k : A -> M S B) :
  stable R m -> (forall a, stable R (k a)) -> stable R (bind m k).
Proof.
  intros Hm Hk s1 s2 Hs. unfold bind.
  destruct (Hm s1 s2 Hs) as [Ho Hr].
  destruct (m s1) as [o1 t1], (m s2) as [o2 t2]. cbn in Ho, Hr. subst o2.
  destruct o1 as [a| |]; [now apply Hk | split; auto | split; auto].
Qed.

Lemma stable_for_each {A} (body : A -> M S unit) xs :
  (forall x, stable R (body x)) -> stable R (for_each xs body).
Proof.
  intros Hbody. induction xs as [|x xs IH]; cbn.
  - apply stable_ret.
  - apply stable_bind; [apply Hbody|intros _; exact IH].
Qed.

End Stable.

(** *** The draws *)

Lemma next_raw_same g1 g2 :
  same_draws g1 g2 ->
  fst (next_raw g1) = fst (next_raw g2)
  /\ same_draws (snd (next_raw g1)) (snd (next_raw g2)).
Proof.
  intros [Hpos Hraw]. unfold next_raw. cbn. split.
  - rewrite <- Hpos. apply Hraw. lia.
  - split; cbn; [now rewrite Hpos|]. intros i Hi. apply Hraw. lia.
Qed.

Lemma choice_same {A} (a : list A) g1 g2 :
  same_draws g1 g2 ->
  fst (choice a g1) = fst (choice a g2)
  /\ same_draws (snd (choice a g1)) (snd (choice a g2)).
Proof.
  intros Hs. unfold choice. destruct a as [|x a]; [now split|].
  destruct (next_raw_same _ _ Hs) as [Hr Hg].
  destruct (next_raw g1) as [r1 g1'], (next_raw g2) as [r2 g2'].
  cbn in *. subst r2. now split.
Qed.

End PyFacts.

(** ** Genotype *)

Module GenotypeFacts.
Import Py PyFacts NpRandom Genotype Inputs.

(** The resampling loop only draws: it leaves the instance alone. *)
Lemma draw_mutation_self fuel site prev_mut w o w' :
  draw_mutation fuel site prev_mut w = (o, w') -> self w' = self w.
Proof.
  revert w o w'. induction fuel as [|fuel IH]; intros w o w' Hrun.
  - inversion Hrun; reflexivity.
  - cbn [draw_mutation] in Hrun.
    unfold bind, get_self, lift, random_choice, ret in Hrun.
    destruct (getitem_key (_mutations_at_sites (self w)) site) as [at_site| |];
      try (inversion Hrun; reflexivity).
    destruct (choice at_site (np_random w)) as [[mutation| |] g'] eqn:Ec;
      cbn in Hrun; try (inversion Hrun; reflexivity).
    destruct (differs mutation prev_mut).
    + inversion Hrun; reflexivity.
    + apply IH in Hrun. exact Hrun.
Qed.

(** When the site drawn is not yet mutated, a successful [mutate] returns
    with [mut_energy] exactly as it found it: the effect of the new mutation
    is never added. *)
Lemma mutate_fresh_site_keeps_mut_energy fuel w w' site g' :
  choice (_possible_sites (self w)) (np_random w) = (Ok site, g') ->
  contains site (_sites (self w)) = false ->
  mutate fuel w = (Ok tt, w') ->
  _mut_energy (self w') = _mut_energy (self w).
Proof.
  intros Hsite Hfresh Hrun.
  unfold mutate, bind, get_self, random_choice in Hrun.
  rewrite Hsite in Hrun. cbn in Hrun. rewrite Hfresh in Hrun.
  unfold ret in Hrun.
  destruct (draw_mutation fuel site None _) as [[mutation| |] w1] eqn:Ed;
    try discriminate.
  apply draw_mutation_self in Ed. cbn in Ed.
  unfold set_sites, set_mutations in Hrun. cbn in Hrun.
  inversion Hrun; subst; clear Hrun. cbn. rewrite Ed. reflexivity.
Qed.

(** [mutate] reads the generator from its position onwards and nothing
    else of it. *)
Lemma random_choice_stable {A} (a : list A) :
  stable same_world (random_choice a).
Proof.
  intros w1 w2 [Hself Hgen]. unfold random_choice.
  destruct (choice_same a _ _ Hgen) as [Ho Hg].
  destruct (choice a (np_random w1)) as [o1 g1'],
           (choice a (np_random w2)) as [o2 g2'].
  cbn in *. subst o2. split; [reflexivity|]. now split.
Qed.

Lemma get_self_stable : stable same_world get_self.
Proof. intros w1 w2 Hw. split; [cbn; now f_equal; apply Hw|exact Hw]. Qed.

Lemma set_sites_stable l : stable same_world (set_sites l).
Proof.
  intros w1 w2 [Hself Hgen]. unfold set_sites. cbn.
  split; [reflexivity|]. split; cbn; [now rewrite Hself|exact Hgen].
Qed.

Lemma set_mutations_stable l : stable same_world (set_mutations l).
Proof.
  intros w1 w2 [Hself Hgen]. unfold set_mutations. cbn.
  split; [reflexivity|]. split; cbn; [now rewrite Hself|exact Hgen].
Qed.

Lemma set_mut_energy_stable m : stable same_world (set_mut_energy m).
Proof.
  intros w1 w2 [Hself Hgen]. unfold set_mut_energy. cbn.
  split; [reflexivity|]. split; cbn; [now rewrite Hself|exact Hgen].
Qed.

Ltac stable_steps :=
  repeat first
    [ apply stable_ret | apply stable_lift | apply stable_raise
    | apply get_self_stable | apply set_sites_stable
    | apply set_mutations_stable | apply set_mut_energy_stable
    | apply random_choice_stable
    | apply stable_bind; [|intros ?]
    | apply stable_for_each; intros ?
    | match goal with
      | |- stable _ (if ?c then _ else _) => destruct c
      | |- stable _ (match ?x with _ => _ end) => destruct x
      | |- stable _ (let '(_, _) := ?x in _) => destruct x
      end ].

Lemma draw_mutation_stable fuel site prev_mut :
  stable same_world (draw_mutation fuel site prev_mut).
Proof.
  induction fuel as [|fuel IH]; cbn [draw_mutation].
  - apply stable_lift.
  - stable_steps. exact IH.
Qed.

Lemma mutate_stable fuel : stable same_world (mutate fuel).
Proof.
  unfold mutate, mut_energy_isub. stable_steps.
  all: try apply draw_mutation_stable; stable_steps.
Qed.

(** C1 (fails on the code): from the wild type, [mutate] picks site 0 and
    mutation ["M1"], whose effect on species ["s"] is 1; it records the pair
    and returns, yet [mut_energy["s"]] is still 0, so [mut_energy] is not the
    sum of the effects of the active pairs. *)
Theorem mutate_does_not_add_new_effect :
  let after := mutate 8 (mkworld wildtype (draws [0; 0]%N)) in
  fst after = Ok tt
  /\ _sites (self (snd after)) = [KInt 0]
  /\ _mutations (self (snd after)) = [KStr "M1"]
  /\ _mut_energy (self (snd after)) !! "s" = Some 0
  /\ active_energy (self (snd after)) "s" = 1
  /\ ~ energy_matches_active (self (snd after)).
Proof.
  repeat split; try (vm_compute; reflexivity).
  intros Hinv. specialize (Hinv "s" (or_introl eq_refl)).
  vm_compute in Hinv. discriminate Hinv.
Qed.

(** C7 (fails on the code): re-mutating a mutated site.
    With named mutations, the second [mutate] at site 0 takes the old effect
    off [mut_energy], then calls [remove] with the POSITION of the old pair
    as if it were its value: the site list loses the entry equal to 0, the
    mutation list holds no 0, and the call raises [ValueError], leaving the
    lists unpaired and [mut_energy] at -1, where mutating straight to
    ["M2"] leaves it at 0.
    With numbered mutations the same call can return: from sites [1; 0] it
    removes site 1 instead of site 0 and returns with site 0 listed twice. *)
Theorem remutate_removes_by_value :
  let direct := mutate 8 (mkworld wildtype (draws [0; 1]%N)) in
  let once := mutate 8 (mkworld wildtype (draws [0; 0]%N)) in
  let twice := mutate 8 (mkworld (self (snd once)) (draws [0; 0; 1]%N)) in
  let a := mutate 8 (mkworld wildtype_numbers
                             (draws [1; 1; 0; 1; 0; 1; 0]%N)) in
  let b := mutate 8 (snd a) in
  let c := mutate 8 (snd b) in
  (fst twice = Raise ValueError
   /\ _sites (self (snd twice)) = []
   /\ _mutations (self (snd twice)) = [KStr "M1"]
   /\ _mut_energy (self (snd twice)) !! "s" = Some (-1)
   /\ _mutations (self (snd direct)) = [KStr "M2"]
   /\ _mut_energy (self (snd direct)) !! "s" = Some 0)
  /\ (fst b = Ok tt
      /\ _sites (self (snd b)) = [KInt 1; KInt 0]
      /\ _mutations (self (snd b)) = [KInt 1; KInt 1]
      /\ fst c = Ok tt
      /\ _sites (self (snd c)) = [KInt 0; KInt 0]
      /\ _mutations (self (snd c)) = [KInt 1; KInt 0]).
Proof. vm_compute. repeat split; reflexivity. Qed.

(** *** The constructor *)

Lemma zero_energies_other (ens : list string) : forall (m : gmap string Z) s,
  ~ In s ens -> fold_left (fun m s => <[s := 0]> m) ens m !! s = m !! s.
Proof.
  induction ens as [|x ens IH]; intros m s Hs; [reflexivity|].
  cbn [fold_left]. rewrite IH by (intros Hin; apply Hs; now right).
  apply lookup_insert_ne. intros ->. apply Hs. now left.
Qed.

Lemma zero_energies_species (ens : list string) : forall (m : gmap string Z) s,
  In s ens -> fold_left (fun m s => <[s := 0]> m) ens m !! s = Some 0.
Proof.
  induction ens as [|x ens IH]; intros m s Hs; [destruct Hs|].
  cbn [fold_left].
  destruct (in_dec string_dec s ens) as [Hin|Hout]; [now apply IH|].
  rewrite zero_energies_other by exact Hout.
  destruct Hs as [->|Hin]; [|contradiction]. apply lookup_insert_eq.
Qed.

(** X3.  A genotype made without sites, mutations and energies is the wild
    type: no site is mutated, [mut_energy] holds 0 for every species of the
    ensemble and nothing else, and so it is the sum of the effects of the
    active mutations. *)
Theorem init_wild_type ens ddg_dict :
  let g := init ens ddg_dict None None None in
  _sites g = [] /\ _mutations g = []
  /\ (forall s, In s ens -> _mut_energy g !! s = Some 0)
  /\ (forall s, ~ In s ens -> _mut_energy g !! s = None)
  /\ energy_matches_active g.
Proof.
  cbn. repeat split.
  - intros s Hs. now apply zero_energies_species.
  - intros s Hs. now rewrite zero_energies_other.
  - intros s Hs. cbn in *. now apply zero_energies_species.
Qed.

(** *** What [mutate] leaves alone *)

(** X4.  Whether it returns or raises, [mutate] leaves the ensemble, the
    table of effects, the list of possible sites and the mutations listed
    for them as they were: it changes the sites, the mutations and the
    energies only. *)
Theorem mutate_keeps_tables fuel w :
  let g' := self (snd (mutate fuel w)) in
  _ens g' = _ens (self w)
  /\ _ddg_dict g' = _ddg_dict (self w)
  /\ _possible_sites g' = _possible_sites (self w)
  /\ _mutations_at_sites g' = _mutations_at_sites (self w).
Proof.
  set (P := fun w' : world =>
              _ens (self w') = _ens (self w)
              /\ _ddg_dict (self w') = _ddg_dict (self w)
              /\ _possible_sites (self w') = _possible_sites (self w)
              /\ _mutations_at_sites (self w') = _mutations_at_sites (self w)).
  assert (Hget : keeps P get_self) by (intros s Hs; exact Hs).
  assert (Hchoice : forall A (a : list A), keeps P (random_choice a)).
  { intros A a s Hs. unfold random_choice.
    destruct (choice a (np_random s)). exact Hs. }
  assert (Hsites : forall l, keeps P (set_sites l)) by (intros l s Hs; exact Hs).
  assert (Hmuts : forall l, keeps P (set_mutations l))
    by (intros l s Hs; exact Hs).
  assert (Henergy : forall m, keeps P (set_mut_energy m))
    by (intros m s Hs; exact Hs).
  assert (Hdraw : forall fuel site prev, keeps P (draw_mutation fuel site prev)).
  { intros n site prev s Hs.
    destruct (draw_mutation n site prev s) as [o s'] eqn:E.
    apply draw_mutation_self in E. unfold P in *. cbn. now rewrite E. }
  enough (H : keeps P (mutate fuel)) by (apply H; unfold P; auto).
  unfold mutate, mut_energy_isub.
  repeat first
    [ apply keeps_ret | apply keeps_lift | apply keeps_raise
    | apply Hget | apply Hchoice | apply Hsites | apply Hmuts
    | apply Henergy | apply Hdraw
    | apply keeps_bind; [|intros ?]
    | apply keeps_for_each; intros ?
    | match goal with
      | |- keeps _ (if ?c then _ else _) => destruct c
      | |- keeps _ (match ?x with _ => _ end) => destruct x
      | |- keeps _ (let '(_, _) := ?x in _) => destruct x
      end ].
Qed.

(** *** A site that is not yet mutated *)

Lemma choice_In {A} (a : list A) g x g' :
  choice a g = (Ok x, g') -> In x a.
Proof.
  unfold choice. destruct a as [|y a]; [discriminate|].
  destruct (next_raw g) as [r g1] eqn:Er. intros [= <- _].
  assert (Hlt : (N.to_nat (r mod N.of_nat (length (y :: a)))
                 < length (y :: a))%nat).
  { pose proof (N.mod_upper_bound r (N.of_nat (length (y :: a)))) as Hm.
    cbn [length] in *. lia. }
  exact (nth_In _ _ Hlt).
Qed.

(** With no previous mutation to avoid, the loop ends on its first
    draw. *)
Lemma draw_mutation_first fuel site w :
  draw_mutation (S fuel) site None w
  = match getitem_key (_mutations_at_sites (self w)) site with
    | Ok at_site =>
        let (o, g') := choice at_site (np_random w) in (o, mkworld (self w) g')
    | Raise e => (Raise e, w)
    | OutOfFuel => (OutOfFuel, w)
    end.
Proof.
  cbn [draw_mutation]. unfold bind, get_self, lift, random_choice.
  destruct (getitem_key _ site) as [at_site| |]; try reflexivity.
  destruct (choice at_site (np_random w)) as [[m| |] g']; reflexivity.
Qed.

(** X5.  A call of [mutate] that draws a site not yet mutated and returns:
    the site is an integer, and the mutation is one of those listed at the
    POSITION the site's label names in the list of possible sites, which
    are the site's own mutations only if its label is its position.  The
    pair is appended, and [mut_energy] is as it was. *)
Theorem mutate_fresh_site fuel w w' site g1 :
  choice (_possible_sites (self w)) (np_random w) = (Ok site, g1) ->
  contains site (_sites (self w)) = false ->
  mutate fuel w = (Ok tt, w') ->
  exists i at_site mutation,
    site = KInt i
    /\ getitem (_mutations_at_sites (self w)) i = Ok at_site
    /\ In mutation at_site
    /\ _sites (self w') = _sites (self w) ++ [site]
    /\ _mutations (self w') = _mutations (self w) ++ [mutation]
    /\ _mut_energy (self w') = _mut_energy (self w).
Proof.
  intros Hsite Hfresh Hrun.
  unfold mutate, bind, get_self, random_choice in Hrun.
  rewrite Hsite in Hrun. cbn in Hrun. rewrite Hfresh in Hrun.
  unfold ret in Hrun.
  destruct fuel as [|fuel]; [discriminate|].
  rewrite draw_mutation_first in Hrun. cbn [self np_random] in Hrun.
  destruct site as [i|label]; [|discriminate]. cbn [getitem_key] in Hrun.
  destruct (getitem (_mutations_at_sites (self w)) i) as [at_site| |] eqn:Eat;
    try discriminate.
  destruct (choice at_site g1) as [[mutation| |] g2] eqn:Ec; try discriminate.
  unfold set_sites, set_mutations in Hrun. cbn in Hrun.
  injection Hrun as <-. cbn.
  exists i, at_site, mutation.
  split; [reflexivity|]. split; [exact Eat|].
  split; [exact (choice_In _ _ _ _ Ec)|]. repeat split.
Qed.

(** X6.  A site not yet mutated whose label is not a position in the list
    of possible sites cannot be mutated: with a string for a label [mutate]
    raises [TypeError], with a number beyond the last position (the last of
    sites numbered from 1, say) it raises [IndexError].  The site has been
    drawn; the genotype is as it was. *)
Theorem mutate_site_must_be_a_position fuel w site g1 e :
  choice (_possible_sites (self w)) (np_random w) = (Ok site, g1) ->
  contains site (_sites (self w)) = false ->
  match site with
  | KStr _ => e = TypeError
  | KInt i =>
      (Z.of_nat (length (_mutations_at_sites (self w))) <= i
       \/ i < - Z.of_nat (length (_mutations_at_sites (self w))))
      /\ e = IndexError
  end ->
  mutate (S fuel) w = (Raise e, mkworld (self w) g1).
Proof.
  intros Hsite Hfresh Hlabel.
  unfold mutate, bind, get_self, random_choice.
  rewrite Hsite. cbn -[draw_mutation]. rewrite Hfresh. unfold ret.
  rewrite draw_mutation_first. cbn [self np_random].
  destruct site as [i|label]; [|now subst e].
  destruct Hlabel as [Hout ->]. cbn [getitem_key]. unfold getitem.
  set (n := Z.of_nat (length (_mutations_at_sites (self w)))) in *.
  destruct (i <? 0) eqn:Eneg.
  - apply Z.ltb_lt in Eneg.
    assert (Hlow : (i + n <? 0) = true) by (apply Z.ltb_lt; lia).
    now rewrite Hlow.
  - apply Z.ltb_ge in Eneg.
    assert (Hhigh : (n <=? i) = true) by (apply Z.leb_le; lia).
    rewrite Hhigh, orb_true_r. reflexivity.
Qed.

(** *** The loop that draws the mutation *)

(** X7.  The loop of [mutate] draws until the mutation differs from the
    one the site carried.  Where every mutation listed for the site is that
    one, it never ends, whatever the generator yields. *)
Theorem draw_mutation_spins site prev at_site w :
  getitem_key (_mutations_at_sites (self w)) site = Ok at_site ->
  at_site <> [] ->
  List.Forall (fun m => key_eqb m prev = true) at_site ->
  forall fuel, fst (draw_mutation fuel site (Some prev) w) = OutOfFuel.
Proof.
  intros Hat Hsome Hall fuel. revert w Hat.
  induction fuel as [|fuel IH]; intros w Hat; [reflexivity|].
  cbn [draw_mutation]. unfold bind, get_self, lift, random_choice.
  rewrite Hat.
  destruct (choice at_site (np_random w)) as [[m| |] g'] eqn:Ec.
  - cbn [differs]. apply choice_In in Ec.
    rewrite List.Forall_forall in Hall. rewrite (Hall m Ec). cbn [negb].
    apply IH. exact Hat.
  - exfalso. unfold choice in Ec. destruct at_site; [contradiction|].
    destruct (next_raw (np_random w)). discriminate.
  - exfalso. unfold choice in Ec. destruct at_site; [contradiction|].
    destruct (next_raw (np_random w)). discriminate.
Qed.

(** *** At concrete genotypes *)

(** Sites numbered 1 and 2: the draw of site 1 is given a mutation of
    site 2. *)
Lemma mutate_fresh_site_witness :
  exists i at_site mutation,
    KInt 1 = KInt i
    /\ getitem (_mutations_at_sites wildtype_one_based) i = Ok at_site
    /\ In mutation at_site
    /\ _sites (self (snd (mutate 8 (mkworld wildtype_one_based
                                      (draws [0; 0]%N)))))
       = [] ++ [KInt 1]
    /\ _mutations (self (snd (mutate 8 (mkworld wildtype_one_based
                                          (draws [0; 0]%N)))))
       = [] ++ [mutation]
    /\ _mut_energy (self (snd (mutate 8 (mkworld wildtype_one_based
                                           (draws [0; 0]%N)))))
       = _mut_energy wildtype_one_based.
Proof.
  apply (mutate_fresh_site 8 (mkworld wildtype_one_based (draws [0; 0]%N))
           (snd (mutate 8 (mkworld wildtype_one_based (draws [0; 0]%N))))
           (KInt 1) (mkgen (raw (draws [0; 0]%N)) 1));
    reflexivity.
Defined.

(** Sites numbered 1 and 2: the draw of site 2 raises. *)
Lemma mutate_site_must_be_a_position_witness :
  mutate 8 (mkworld wildtype_one_based (draws [1]%N))
  = (Raise IndexError,
     mkworld wildtype_one_based (mkgen (raw (draws [1]%N)) 1)).
Proof.
  apply (mutate_site_must_be_a_position 7
           (mkworld wildtype_one_based (draws [1]%N)) (KInt 2)
           (mkgen (raw (draws [1]%N)) 1) IndexError);
    [reflexivity|reflexivity|].
  split; [left; cbn; lia|reflexivity].
Defined.

(** One site whose only mutation is the one it carries. *)
Lemma draw_mutation_spins_witness :
  fst (draw_mutation 100 (KInt 0) (Some (KInt 0))
         (mkworld wildtype_single (draws [])))
  = OutOfFuel.
Proof.
  apply (draw_mutation_spins (KInt 0) (KInt 0) [KInt 0]
           (mkworld wildtype_single (draws [])) eq_refl).
  - discriminate.
  - repeat constructor.
Defined.

End GenotypeFacts.

(** ** Wright-Fisher *)

Module WrightFisherFacts.
Import Py PyFacts NpRandom WrightFisher Inputs.

(** *** [np.unique] accounts for every individual *)

Lemma insert_sorted_In a l x :
  In x (insert_sorted a l) <-> x = a \/ In x l.
Proof.
  induction l as [|y l IH]; cbn.
  - intuition.
  - destruct (a <? y) eqn:Hlt; cbn.
    + intuition.
    + destruct (a =? y) eqn:Heq; cbn.
      * apply Z.eqb_eq in Heq. subst. intuition.
      * rewrite IH. intuition.
Qed.

Lemma insert_sorted_sorted a l :
  StronglySorted Z.lt l -> StronglySorted Z.lt (insert_sorted a l).
Proof.
  induction 1 as [|y l Hs IH Hy]; cbn.
  - repeat constructor.
  - destruct (a <? y) eqn:Hlt.
    + apply Z.ltb_lt in Hlt. constructor.
      * constructor; assumption.
      * constructor; [assumption|].
        eapply List.Forall_impl; [|exact Hy]. cbn. intros; lia.
    + destruct (a =? y) eqn:Heq.
      * constructor; assumption.
      * apply Z.ltb_ge in Hlt. apply Z.eqb_neq in Heq.
        constructor; [assumption|].
        apply List.Forall_forall. intros x Hx.
        apply insert_sorted_In in Hx. destruct Hx as [->|Hx].
        -- lia.
        -- rewrite List.Forall_forall in Hy. auto.
Qed.

Lemma sorted_NoDup l : StronglySorted Z.lt l -> List.NoDup l.
Proof.
  induction 1 as [|y l Hs IH Hy]; constructor; [|assumption].
  intros Hin. rewrite List.Forall_forall in Hy. specialize (Hy _ Hin). lia.
Qed.

Lemma seen_sorted population :
  StronglySorted Z.lt (fold_right insert_sorted [] population).
Proof.
  induction population; cbn; [constructor | now apply insert_sorted_sorted].
Qed.

Lemma seen_complete population x :
  In x population -> In x (fold_right insert_sorted [] population).
Proof.
  induction population as [|a l IH]; cbn; [tauto|].
  rewrite insert_sorted_In. intuition.
Qed.

Lemma indicator_total_out a s :
  ~ In a s -> total (map (fun g => if Z.eq_dec a g then 1 else 0) s) = 0.
Proof.
  unfold total. induction s as [|y s IH]; cbn; intros Hn; [reflexivity|].
  destruct (Z.eq_dec a y) as [->|Hne]; [tauto|].
  rewrite IH by tauto. reflexivity.
Qed.

Lemma indicator_total_in a s :
  List.NoDup s -> In a s ->
  total (map (fun g => if Z.eq_dec a g then 1 else 0) s) = 1.
Proof.
  induction 1 as [|y s Hy Hs IH]; cbn; intros Hin; [tauto|].
  destruct (Z.eq_dec a y) as [->|Hne].
  - fold (total (map (fun g => if Z.eq_dec y g then 1 else 0) s)).
    rewrite indicator_total_out by assumption. reflexivity.
  - destruct Hin as [Hin|Hin]; [congruence|].
    unfold total in IH. rewrite IH by assumption. reflexivity.
Qed.

Lemma counts_total population s :
  List.NoDup s -> (forall x, In x population -> In x s) ->
  total (map (fun g => Z.of_nat (count_occ Z.eq_dec population g)) s)
  = Z.of_nat (length population).
Proof.
  intros Hs. induction population as [|a l IH]; intros Hall.
  - clear. unfold total. induction s as [|y s IHs]; [reflexivity|].
    cbn in *. exact IHs.
  - assert (Hsplit :
      total (map (fun g => Z.of_nat (count_occ Z.eq_dec (a :: l) g)) s)
      = total (map (fun g => if Z.eq_dec a g then 1 else 0) s)
        + total (map (fun g => Z.of_nat (count_occ Z.eq_dec l g)) s)).
    { clear. induction s as [|y s IHs]; [reflexivity|].
      cbn [map total fold_right]. unfold total in IHs. rewrite IHs.
      cbn [count_occ]. destruct (Z.eq_dec a y); lia. }
    rewrite Hsplit, indicator_total_in by (auto; apply Hall; now left).
    rewrite IH by (intros; apply Hall; now right).
    cbn [length]. lia.
Qed.

Lemma np_unique_total population :
  total (snd (np_unique population)) = Z.of_nat (length population).
Proof.
  unfold np_unique. cbn [snd].
  apply counts_total.
  - apply sorted_NoDup, seen_sorted.
  - apply seen_complete.
Qed.

Lemma np_unique_lengths population :
  length (snd (np_unique population)) = length (fst (np_unique population)).
Proof. unfold np_unique. cbn. now rewrite length_map. Qed.

Lemma np_unique_NoDup population :
  List.NoDup (fst (np_unique population)).
Proof. apply sorted_NoDup, seen_sorted. Qed.

(** *** The dictionary made of a record keeps every pair *)

Lemma dict_set_fresh k v d :
  ~ In k (map fst d) -> dict_set k v d = d ++ [(k, v)].
Proof.
  induction d as [|[k' v'] d IH]; cbn; intros Hk; [reflexivity|].
  destruct (k' =? k) eqn:E.
  - apply Z.eqb_eq in E. tauto.
  - rewrite IH by tauto. reflexivity.
Qed.

Lemma dict_zip_acc s : forall c acc,
  List.NoDup (map fst acc ++ s) ->
  fold_left (fun d '(k, v) => dict_set k v d) (combine s c) acc
  = acc ++ combine s c.
Proof.
  induction s as [|k s IH]; intros c acc Hnd; cbn.
  - now rewrite app_nil_r.
  - destruct c as [|v c]; cbn; [now rewrite app_nil_r|].
    rewrite dict_set_fresh.
    + rewrite IH.
      * now rewrite <- app_assoc.
      * rewrite map_app. cbn. rewrite <- app_assoc. exact Hnd.
    + apply NoDup_remove_2 in Hnd. intros Hin. apply Hnd.
      apply in_or_app. now left.
Qed.

Lemma dict_zip_total population :
  population_total (dict_zip (np_unique population))
  = Z.of_nat (length population).
Proof.
  unfold dict_zip. rewrite dict_zip_acc.
  - cbn [app]. unfold population_total.
    assert (Hsnd : forall (s c : list Z), length c = length s ->
                     map snd (combine s c) = c).
    { induction s as [|x s IHs]; intros [|y c] Hlen; cbn in *;
        try discriminate; [reflexivity|]. f_equal. apply IHs. lia. }
    rewrite Hsnd by apply np_unique_lengths.
    apply np_unique_total.
  - cbn. apply np_unique_NoDup.
Qed.

(** *** The generation loop *)

Section Engine.
Context {GC : Type} `{GenotypeContainer GC}.

Lemma sample_length a cdf : forall size g l g',
  sample a cdf size g = (Ok l, g') -> length l = size.
Proof.
  induction size as [|size IH]; intros g l g' Hrun; cbn [sample] in Hrun.
  - inversion Hrun; reflexivity.
  - destruct (random_sample g) as [u g1].
    destruct (nth_error a (searchsorted_right cdf u)); [|discriminate].
    destruct (sample a cdf size g1) as [[l1| |] g2] eqn:Es; try discriminate.
    inversion Hrun; subst. cbn. f_equal. eapply IH; eassumption.
Qed.

Lemma choice_p_length a size p g l g' :
  choice_p a size p g = (Ok l, g') -> length l = size.
Proof.
  unfold choice_p. intros Hrun.
  repeat match type of Hrun with
         | (if ?c then _ else _) = _ => destruct c; [discriminate|]
         end.
  eapply sample_length; eassumption.
Qed.

Lemma mutate_first_length : forall js population w population' w',
  mutate_first js population w = (Ok population', w') ->
  length population' = length population.
Proof.
  induction js as [|j js IH]; intros population w population' w' Hrun;
    cbn [mutate_first] in Hrun.
  - inversion Hrun; reflexivity.
  - unfold bind, lift in Hrun.
    destruct (getitem population (Z.of_nat j)); try discriminate.
    destruct (gc_mutate a w) as [[new_index| |] w1]; try discriminate.
    apply IH in Hrun. rewrite Hrun. apply length_insert.
Qed.

(** A pass that completes adds the record of a population of the full
    size. *)
Lemma generation_step_extends population_size expected generations w
    generations' w' :
  generation_step population_size expected generations w
  = (Ok generations', w') ->
  exists population,
    length population = population_size
    /\ generations' = generations ++ [np_unique population].
Proof.
  unfold generation_step. intros Hrun.
  destruct (List.last generations ([], [])) as [current_genotypes counts].
  unfold bind, in_generator, ret in Hrun.
  destruct (fitness_of_each current_genotypes w) as [[prob| |] w1];
    try discriminate.
  destruct (choice_p _ _ _ _) as [[population| |] g1] eqn:Ec;
    try discriminate.
  apply choice_p_length in Ec.
  cbn [fst snd] in Hrun.
  destruct (poisson expected g1) as [[num_to_mutate| |] g2];
    try discriminate.
  destruct (mutate_first _ population _) as [[population'| |] w2] eqn:Em;
    try discriminate.
  apply mutate_first_length in Em.
  inversion Hrun; subst. exists population'. split; [congruence|reflexivity].
Qed.

Lemma generation_loop_records population_size expected :
  forall n generations w generations' w',
  records_of_size population_size generations ->
  generation_loop n population_size expected generations w
  = (Ok generations', w') ->
  records_of_size population_size generations'
  /\ length generations' = (length generations + n)%nat.
Proof.
  induction n as [|n IH]; intros generations w generations' w' Hrec Hrun;
    cbn in Hrun.
  - inversion Hrun; subst. split; [assumption|lia].
  - unfold bind in Hrun.
    destruct (generation_step _ _ _ _) as [[generations1| |] w1] eqn:Es;
      try discriminate.
    apply generation_step_extends in Es. destruct Es as (population & Hlen & ->).
    apply IH in Hrun.
    + destruct Hrun as [Hrec' Hlen']. split; [assumption|].
      rewrite Hlen', length_app. cbn. lia.
    + apply List.Forall_app. split; [assumption|].
      constructor; [|constructor]. exists population. auto.
Qed.

(** C6: every record of a run that completes, the initial one included,
    accounts for as many individuals as the initial population has; there is
    one record per generation. *)
Theorem wright_fisher_conserves_population population mutation_rate
    num_generations w generations :
  fst (wright_fisher population mutation_rate num_generations w)
  = Ok generations ->
  exists initial,
    parse_population population = Ok initial
    /\ length generations = Z.to_nat num_generations
    /\ List.Forall (fun record =>
                      population_total record = Z.of_nat (length initial))
                   generations.
Proof.
  unfold wright_fisher, bind, lift. intros Hrun.
  destruct (parse_population population) as [initial| |]; try discriminate.
  exists initial. split; [reflexivity|].
  destruct (length initial <? 1)%nat; [discriminate|].
  destruct (negb (Qle_bool 0 mutation_rate)); [discriminate|].
  destruct (num_generations <? 1) eqn:Hn; [discriminate|].
  apply Z.ltb_ge in Hn.
  destruct (generation_loop _ _ _ _ _) as [[records| |] w1] eqn:El;
    try discriminate.
  apply generation_loop_records in El.
  - destruct El as [Hrec Hlen]. cbn in Hrun. inversion Hrun; subst.
    split.
    + rewrite length_map, Hlen. cbn. lia.
    + apply List.Forall_map. eapply List.Forall_impl; [|exact Hrec].
      cbn. intros g (pop & Hpop & ->). rewrite dict_zip_total. congruence.
  - constructor; [|constructor]. exists initial. auto.
Qed.

(** When every weight is zero and the record does not list as many
    genotypes as there are individuals, the pass raises: the weights that
    replace the zeros are one per individual, not one per genotype, and
    [np.random.choice] refuses weights that do not match its choices. *)
Lemma zero_fitness_pass_raises population_size expected generations
    current_genotypes counts w prob w1 :
  List.last generations ([], []) = (current_genotypes, counts) ->
  fitness_of_each current_genotypes w = (Ok prob, w1) ->
  Qeq_bool (np_sum (zip_with Qmult prob (map inject_Z counts))) 0 = true ->
  length current_genotypes <> population_size ->
  fst (generation_step population_size expected generations w)
  = Raise ValueError.
Proof.
  intros Hlast Hfit Hzero Hne.
  unfold generation_step. rewrite Hlast. unfold bind. rewrite Hfit, Hzero.
  unfold in_generator, choice_p.
  destruct ((length current_genotypes =? 0)%nat && _); [reflexivity|].
  rewrite length_map, repeat_length.
  destruct (population_size =? length current_genotypes)%nat eqn:E.
  - apply Nat.eqb_eq in E. congruence.
  - reflexivity.
Qed.

(** *** The run follows the draws *)

Lemma random_sample_same g1 g2 :
  same_draws g1 g2 ->
  fst (random_sample g1) = fst (random_sample g2)
  /\ same_draws (snd (random_sample g1)) (snd (random_sample g2)).
Proof.
  intros Hs. unfold random_sample.
  destruct (next_raw_same _ _ Hs) as [Hr Hg].
  destruct (next_raw g1) as [r1 g1'], (next_raw g2) as [r2 g2'].
  cbn in *. subst r2. now split.
Qed.

Lemma sample_same a cdf : forall size g1 g2,
  same_draws g1 g2 ->
  fst (sample a cdf size g1) = fst (sample a cdf size g2)
  /\ same_draws (snd (sample a cdf size g1)) (snd (sample a cdf size g2)).
Proof.
  induction size as [|size IH]; intros g1 g2 Hs; cbn [sample].
  - now split.
  - destruct (random_sample_same _ _ Hs) as [Hu Hg].
    destruct (random_sample g1) as [u1 g1'], (random_sample g2) as [u2 g2'].
    cbn in Hu, Hg. subst u2.
    destruct (nth_error a (searchsorted_right cdf u1)); [|now split].
    destruct (IH _ _ Hg) as [Ho Hg'].
    destruct (sample a cdf size g1') as [o1 h1],
             (sample a cdf size g2') as [o2 h2].
    cbn in Ho, Hg'. subst o2. destruct o1; now split.
Qed.

Lemma choice_p_same a size p g1 g2 :
  same_draws g1 g2 ->
  fst (choice_p a size p g1) = fst (choice_p a size p g2)
  /\ same_draws (snd (choice_p a size p g1)) (snd (choice_p a size p g2)).
Proof.
  intros Hs. unfold choice_p.
  repeat match goal with
         | |- context [if ?c then _ else _] => destruct c; [now split|]
         end.
  now apply sample_same.
Qed.

Lemma poisson_same lam g1 g2 :
  same_draws g1 g2 ->
  fst (poisson lam g1) = fst (poisson lam g2)
  /\ same_draws (snd (poisson lam g1)) (snd (poisson lam g2)).
Proof.
  intros Hs. unfold poisson.
  destruct (negb _); [now split|]. destruct (Qeq_bool lam 0); [now split|].
  destruct (next_raw_same _ _ Hs) as [Hr Hg].
  destruct (next_raw g1) as [r1 g1'], (next_raw g2) as [r2 g2'].
  cbn in *. subst r2. now split.
Qed.

Lemma in_generator_stable {A} (f : generator -> outcome A * generator) :
  (forall g1 g2, same_draws g1 g2 ->
     fst (f g1) = fst (f g2) /\ same_draws (snd (f g1)) (snd (f g2))) ->
  stable (@same_run GC) (in_generator f).
Proof.
  intros Hf [gc1 g1] [gc2 g2] [Hgc Hgen]. cbn in Hgc, Hgen. subst gc2.
  unfold in_generator. cbn [fst snd].
  destruct (Hf _ _ Hgen) as [Ho Hg].
  destruct (f g1) as [o1 g1'], (f g2) as [o2 g2']. cbn in *. subst o2.
  split; [reflexivity|]. now split.
Qed.

Lemma get_gc_stable : stable (@same_run GC) get_gc.
Proof. intros w1 w2 Hw. split; [cbn; f_equal; apply Hw|exact Hw]. Qed.

Lemma fitness_of_each_stable current_genotypes :
  stable (@same_run GC) (fitness_of_each current_genotypes).
Proof.
  induction current_genotypes as [|g rest IH]; cbn [fitness_of_each].
  - apply stable_ret.
  - apply stable_bind; [apply get_gc_stable|intros gc].
    apply stable_bind; [apply stable_lift|intros f].
    apply stable_bind; [exact IH|intros fs]. apply stable_ret.
Qed.

(** What is asked of the container: its [mutate] reads the generator from
    its position onwards and nothing else of it. *)
Hypothesis gc_mutate_stable : forall index, stable (@same_run GC) (gc_mutate index).

Lemma mutate_first_stable js : forall population,
  stable (@same_run GC) (mutate_first js population).
Proof.
  induction js as [|j js IH]; intros population; cbn [mutate_first].
  - apply stable_ret.
  - apply stable_bind; [apply stable_lift|intros old].
    apply stable_bind; [apply gc_mutate_stable|intros new_index]. apply IH.
Qed.

Lemma generation_step_stable population_size expected generations :
  stable (@same_run GC) (generation_step population_size expected generations).
Proof.
  unfold generation_step.
  destruct (List.last generations ([], [])) as [current_genotypes counts].
  apply stable_bind; [apply fitness_of_each_stable|intros prob].
  apply stable_bind;
    [apply in_generator_stable; intros; now apply choice_p_same
    |intros population].
  apply stable_bind;
    [apply in_generator_stable; intros; now apply poisson_same
    |intros num_to_mutate].
  apply stable_bind; [apply mutate_first_stable|intros population'].
  apply stable_ret.
Qed.

Lemma generation_loop_stable population_size expected : forall n generations,
  stable (@same_run GC) (generation_loop n population_size expected generations).
Proof.
  induction n as [|n IH]; intros generations; cbn [generation_loop].
  - apply stable_ret.
  - apply stable_bind; [apply generation_step_stable|intros g]. apply IH.
Qed.

(** [wright_fisher] takes no random source; its draws are those of
    numpy's process-wide generator, which the model threads through as
    state.  Two runs with the same arguments, started from states of that
    generator that yield the same draws, return the same generation records
    and leave the same container, and leave the generator in states that
    again yield the same draws. *)
Lemma wright_fisher_follows_the_draws population mutation_rate
    num_generations gc g1 g2 :
  same_draws g1 g2 ->
  let run1 := wright_fisher population mutation_rate num_generations (gc, g1)
  in
  let run2 := wright_fisher population mutation_rate num_generations (gc, g2)
  in
  fst run1 = fst run2
  /\ fst (snd run1) = fst (snd run2)
  /\ same_draws (snd (snd run1)) (snd (snd run2)).
Proof.
  intros Hs run1 run2.
  assert (Hstable : stable (@same_run GC)
            (wright_fisher population mutation_rate num_generations)).
  { unfold wright_fisher.
    apply stable_bind; [apply stable_lift|intros initial].
    destruct (_ <? 1)%nat; [apply stable_raise|].
    destruct (negb _); [apply stable_raise|].
    destruct (num_generations <? 1); [apply stable_raise|].
    apply stable_bind; [apply generation_loop_stable|intros g].
    apply stable_ret. }
  destruct (Hstable (gc, g1) (gc, g2)) as [Ho [Hgc Hg]];
    [split; [reflexivity|exact Hs]|].
  subst run1 run2. split; [exact Ho|]. split; [exact Hgc|exact Hg].
Qed.

End Engine.

(** The container of the model meets the requirement: its [mutate] draws
    through [Genotype.mutate]. *)
Lemma container_mutate_stable fitness fuel index :
  stable (@same_run container) (container_mutate fitness fuel index).
Proof.
  intros [gc1 g1] [gc2 g2] [Hgc Hgen]. cbn in Hgc, Hgen. subst gc2.
  unfold container_mutate.
  destruct (getitem (genotypes gc1) index) as [parent| |];
    try (split; [reflexivity|now split]).
  destruct (GenotypeFacts.mutate_stable fuel
              (Genotype.mkworld (Genotype.copy parent) g1)
              (Genotype.mkworld (Genotype.copy parent) g2))
    as (Ho & Hself & Hg); [now split|].
  destruct (Genotype.mutate fuel (Genotype.mkworld (Genotype.copy parent) g1))
    as [o1 w1].
  destruct (Genotype.mutate fuel (Genotype.mkworld (Genotype.copy parent) g2))
    as [o2 w2].
  cbn in Ho, Hself, Hg. subst o2.
  destruct o1; cbn; (split; [reflexivity|]); split; cbn;
    try reflexivity; try assumption.
  now rewrite Hself.
Qed.

Lemma wright_fisher_follows_the_draws_witness :
  same_draws started_after_9 started_after_4
  /\ fst (wright_fisher (H := neutral) (PopSize 3) (1 # 3) 3
            (one_neutral, started_after_9))
     = fst (wright_fisher (H := neutral) (PopSize 3) (1 # 3) 3
              (one_neutral, started_after_4)).
Proof.
  assert (Hs : same_draws started_after_9 started_after_4).
  { split; [reflexivity|]. intros [|i] Hi; [cbn in Hi; lia|reflexivity]. }
  split; [exact Hs|].
  exact (proj1 (wright_fisher_follows_the_draws (H := neutral)
                  (container_mutate_stable _ _) (PopSize 3) (1 # 3) 3
                  one_neutral started_after_9 started_after_4 Hs)).
Defined.

Lemma wright_fisher_conserves_population_witness :
  exists initial,
    parse_population (PopSize 3) = Ok initial
    /\ length [[(0, 3)]; [(0, 1); (1, 1); (2, 1)]; [(0, 2); (3, 1)]]
       = Z.to_nat 3
    /\ List.Forall (fun record =>
                      population_total record = Z.of_nat (length initial))
                   [[(0, 3)]; [(0, 1); (1, 1); (2, 1)]; [(0, 2); (3, 1)]].
Proof.
  apply (wright_fisher_conserves_population (H := neutral) (PopSize 3)
           (1 # 3) 3
           (one_neutral,
            draws [0; 0; 0; 2; 0; 0; 1; 1; 0; 0; 0; 1; 1; 1]%N)).
  vm_compute. reflexivity.
Defined.

(** C2 (fails on the code): two wild-type individuals of fitness 0.  The
    record of generation 0 lists one genotype; the fallback builds two
    weights; [np.random.choice] is given one choice and two weights and
    raises [ValueError].  With a single individual the lengths happen to
    agree and the run completes. *)
Theorem zero_fitness_population_raises :
  fst (wright_fisher (H := unfit) (PopSize 2) 0 2 (one_unfit, draws []))
  = Raise ValueError
  /\ fst (wright_fisher (H := unfit) (PopSize 1) 0 2 (one_unfit, draws []))
     = Ok [[(0, 1)]; [(0, 1)]].
Proof. split; vm_compute; reflexivity. Qed.

(** The trajectory depends on the draws: the same container, population,
    mutation rate and number of generations give two different trajectories
    from two states of numpy's process-wide generator. *)
Lemma wright_fisher_depends_on_global_generator :
  fst (wright_fisher (H := neutral) (PopArray [0; 1]) 0 2
         (two_neutral, draws []))
  <> fst (wright_fisher (H := neutral) (PopArray [0; 1]) 0 2
            (two_neutral, mkgen (fun _ => (2 ^ 52)%N) 0)).
Proof. vm_compute. discriminate. Qed.

(** *** What the records hold *)

Lemma seen_sound population x :
  In x (fold_right insert_sorted [] population) -> In x population.
Proof.
  induction population as [|a l IH]; cbn; [tauto|].
  rewrite insert_sorted_In. intuition.
Qed.

Lemma combine_fst (s c : list Z) :
  length c = length s -> map fst (combine s c) = s.
Proof.
  revert c. induction s as [|x s IH]; intros [|y c] Hlen; cbn in *;
    try discriminate; [reflexivity|]. f_equal. apply IH. lia.
Qed.

(** The dictionary made of a record lists its pairs in order. *)
Lemma dict_zip_unique population :
  dict_zip (np_unique population)
  = combine (fst (np_unique population)) (snd (np_unique population)).
Proof.
  unfold dict_zip. rewrite dict_zip_acc; [reflexivity|].
  cbn [map app]. apply np_unique_NoDup.
Qed.

(** A record pairs a genotype with a count exactly when that many
    individuals, and at least one, carry the genotype. *)
Lemma dict_zip_pairs population g c :
  In (g, c) (dict_zip (np_unique population))
  <-> 0 < c /\ c = Z.of_nat (count_occ Z.eq_dec population g).
Proof.
  rewrite dict_zip_unique. unfold np_unique. cbn [fst snd].
  set (seen := fold_right insert_sorted [] population).
  assert (Hpairs : forall s : list Z,
            In (g, c)
               (combine s (map (fun g => Z.of_nat (count_occ Z.eq_dec
                                                     population g)) s))
            <-> In g s /\ c = Z.of_nat (count_occ Z.eq_dec population g)).
  { induction s as [|x s IH]; cbn; [tauto|]. rewrite IH. split.
    - intros [[= -> <-]|[Hin ->]]; auto.
    - intros [[->|Hin] ->]; auto. }
  rewrite Hpairs. split.
  - intros [Hin ->]. split; [|reflexivity].
    apply seen_sound in Hin.
    apply (count_occ_In Z.eq_dec) in Hin. lia.
  - intros [Hpos ->]. split; [|reflexivity].
    apply seen_complete. apply (count_occ_In Z.eq_dec). lia.
Qed.

Lemma dict_zip_sorted population :
  StronglySorted Z.lt (map fst (dict_zip (np_unique population))).
Proof.
  rewrite dict_zip_unique, combine_fst by apply np_unique_lengths.
  apply seen_sorted.
Qed.

Section Records.
Context {GC : Type} `{GenotypeContainer GC}.

(** The passes only append: the records made so far stay. *)
Lemma generation_loop_appends population_size expected :
  forall n generations w generations' w',
  generation_loop n population_size expected generations w
  = (Ok generations', w') ->
  exists more, generations' = generations ++ more.
Proof.
  induction n as [|n IH]; intros generations w generations' w' Hrun;
    cbn in Hrun.
  - inversion Hrun; subst. exists []. now rewrite app_nil_r.
  - unfold bind in Hrun.
    destruct (generation_step _ _ _ _) as [[generations1| |] w1] eqn:Es;
      try discriminate.
    apply generation_step_extends in Es.
    destruct Es as (population & _ & ->).
    apply IH in Hrun as [more ->]. eexists. now rewrite <- app_assoc.
Qed.

(** A run that returns has a valid population and has recorded the
    populations of some arrays of its size. *)
Lemma wright_fisher_ok population mutation_rate num_generations w
    generations :
  fst (wright_fisher population mutation_rate num_generations w)
  = Ok generations ->
  exists initial more,
    parse_population population = Ok initial
    /\ generations = map dict_zip (np_unique initial :: more)
    /\ records_of_size (length initial) (np_unique initial :: more).
Proof.
  unfold wright_fisher, bind, lift. intros Hrun.
  destruct (parse_population population) as [initial| |]; try discriminate.
  destruct (length initial <? 1)%nat; [discriminate|].
  destruct (negb (Qle_bool 0 mutation_rate)); [discriminate|].
  destruct (num_generations <? 1); [discriminate|].
  destruct (generation_loop _ _ _ _ _) as [[records| |] w1] eqn:El;
    try discriminate.
  pose proof El as Happ. apply generation_loop_appends in Happ as [more ->].
  apply generation_loop_records in El as [Hrec _].
  - cbn in Hrun. injection Hrun as <-. exists initial, more. auto.
  - constructor; [|constructor]. exists initial. auto.
Qed.

(** X8.  In every record of a run that returns, the genotypes are listed
    once each, in increasing order, and every count is positive: a record
    never lists a genotype that no individual carries. *)
Theorem wright_fisher_records_are_sorted population mutation_rate
    num_generations w generations :
  fst (wright_fisher population mutation_rate num_generations w)
  = Ok generations ->
  List.Forall (fun record =>
                 StronglySorted Z.lt (map fst record)
                 /\ List.Forall (fun c => 0 < c) (map snd record))
              generations.
Proof.
  intros Hrun.
  apply wright_fisher_ok in Hrun as (initial & more & _ & -> & Hrec).
  apply List.Forall_map. eapply List.Forall_impl; [|exact Hrec].
  cbn. intros g (pop & _ & ->). split; [apply dict_zip_sorted|].
  apply List.Forall_forall. intros c Hc.
  apply in_map_iff in Hc as ([g c'] & <- & Hin).
  now apply dict_zip_pairs in Hin.
Qed.

(** X9.  The first record of a run that returns is the population the
    run was started with: it pairs a genotype with a count exactly when
    that many individuals of the initial array, and at least one, carry
    the genotype. *)
Theorem wright_fisher_starts_from_population population mutation_rate
    num_generations w generations :
  fst (wright_fisher population mutation_rate num_generations w)
  = Ok generations ->
  exists initial first rest,
    parse_population population = Ok initial
    /\ generations = first :: rest
    /\ forall g c,
         In (g, c) first
         <-> 0 < c /\ c = Z.of_nat (count_occ Z.eq_dec initial g).
Proof.
  intros Hrun.
  apply wright_fisher_ok in Hrun as (initial & more & Hparse & -> & _).
  exists initial, (dict_zip (np_unique initial)), (map dict_zip more).
  split; [exact Hparse|]. split; [reflexivity|].
  intros g c. apply dict_zip_pairs.
Qed.

End Records.

(** *** A population given as a dictionary *)

Lemma count_occ_repeat (p g : Z) n :
  count_occ Z.eq_dec (repeat p n) g = if Z.eq_dec p g then n else O.
Proof.
  induction n as [|n IH]; cbn; [now destruct (Z.eq_dec p g)|].
  rewrite IH. now destruct (Z.eq_dec p g).
Qed.

Lemma expand_count_other (d : list (Z * Z)) g :
  ~ In g (map fst d) ->
  count_occ Z.eq_dec (flat_map (fun '(p, n) => repeat p (Z.to_nat n)) d) g
  = O.
Proof.
  induction d as [|[p n] d IH]; cbn; intros Hg; [reflexivity|].
  rewrite count_occ_app, count_occ_repeat, IH by tauto.
  destruct (Z.eq_dec p g); [tauto|reflexivity].
Qed.

Lemma expand_count (d : list (Z * Z)) g c :
  List.NoDup (map fst d) -> In (g, c) d -> 0 <= c ->
  Z.of_nat (count_occ Z.eq_dec
              (flat_map (fun '(p, n) => repeat p (Z.to_nat n)) d) g)
  = c.
Proof.
  induction d as [|[p n] d IH]; cbn; intros Hnd Hin Hc; [tauto|].
  apply NoDup_cons_iff in Hnd as [Hp Hnd].
  rewrite count_occ_app, count_occ_repeat.
  destruct Hin as [[= -> ->]|Hin].
  - rewrite expand_count_other by exact Hp.
    destruct (Z.eq_dec g g); [lia|congruence].
  - destruct (Z.eq_dec p g) as [->|Hne].
    + exfalso. apply Hp. apply in_map_iff. now exists (g, c).
    + now apply IH.
Qed.

Section Arguments.
Context {GC : Type} `{GenotypeContainer GC}.

(** X10.  A population handed in as a dictionary of genotypes with
    positive counts comes back as the first record: the same genotypes
    with the same counts. *)
Theorem wright_fisher_reads_population_dict d mutation_rate num_generations
    w generations :
  List.NoDup (map fst d) ->
  List.Forall (fun p => 0 < snd p) d ->
  fst (wright_fisher (PopDict d) mutation_rate num_generations w)
  = Ok generations ->
  exists first rest,
    generations = first :: rest
    /\ forall g c, In (g, c) first <-> In (g, c) d.
Proof.
  intros Hnd Hpos Hrun.
  apply wright_fisher_ok in Hrun as (initial & more & Hparse & -> & _).
  injection Hparse as <-.
  eexists _, _. split; [reflexivity|].
  rewrite List.Forall_forall in Hpos.
  intros g c. rewrite dict_zip_pairs. split.
  - intros [Hc ->].
    destruct (in_dec Z.eq_dec g (map fst d)) as [Hin|Hout].
    + apply in_map_iff in Hin as ([g' c'] & Hg & Hin). cbn in Hg. subst g'.
      rewrite (expand_count d g c' Hnd Hin); [exact Hin|].
      specialize (Hpos _ Hin). cbn in Hpos. lia.
    + rewrite expand_count_other in Hc by exact Hout. cbn in Hc. lia.
  - intros Hin. pose proof (Hpos _ Hin) as Hc. cbn in Hc.
    split; [exact Hc|]. symmetry. apply expand_count; [assumption..|lia].
Qed.

(** X11.  A population without individuals, a negative mutation rate and
    fewer than one generation are refused with [ValueError] before
    anything is drawn: container and generator are as they were. *)
Theorem wright_fisher_rejects_bad_arguments population mutation_rate
    num_generations w initial :
  parse_population population = Ok initial ->
  initial = [] \/ (mutation_rate < 0)%Q \/ num_generations < 1 ->
  wright_fisher population mutation_rate num_generations w
  = (Raise ValueError, w).
Proof.
  intros Hparse Hbad. unfold wright_fisher, bind, lift. rewrite Hparse.
  destruct (length initial <? 1)%nat eqn:Elen; [reflexivity|].
  apply Nat.ltb_ge in Elen.
  destruct (Qle_bool 0 mutation_rate) eqn:Erate; [|reflexivity].
  apply Qle_bool_iff in Erate. cbn [negb].
  destruct (num_generations <? 1) eqn:En; [reflexivity|].
  apply Z.ltb_ge in En.
  destruct Hbad as [->|[Hrate|Hn]].
  - cbn in Elen. lia.
  - exfalso. apply (Qlt_not_le _ _ Hrate Erate).
  - lia.
Qed.

(** *** Without mutations *)

Lemma fitness_of_each_reads current_genotypes w :
  snd (fitness_of_each current_genotypes w) = w.
Proof.
  induction current_genotypes as [|g rest IH]; [reflexivity|].
  cbn [fitness_of_each]. unfold bind, get_gc, lift.
  destruct (fitnesses (fst w) g); try reflexivity.
  destruct (fitness_of_each rest w) as [[fs| |] w1]; cbn in *; exact IH.
Qed.

Lemma sample_In a cdf : forall size g l g',
  sample a cdf size g = (Ok l, g') -> forall x, In x l -> In x a.
Proof.
  induction size as [|size IH]; intros g l g' Hrun x Hx;
    cbn [sample] in Hrun.
  - injection Hrun as <- _. destruct Hx.
  - destruct (random_sample g) as [u g1].
    destruct (nth_error a (searchsorted_right cdf u)) as [y|] eqn:Ey;
      [|discriminate].
    destruct (sample a cdf size g1) as [[l1| |] g2] eqn:Es; try discriminate.
    injection Hrun as <- _. destruct Hx as [<-|Hx].
    + eapply nth_error_In, Ey.
    + eapply IH; eassumption.
Qed.

Lemma choice_p_In a size p g l g' :
  choice_p a size p g = (Ok l, g') -> forall x, In x l -> In x a.
Proof.
  unfold choice_p. intros Hrun.
  repeat match type of Hrun with
         | (if ?c then _ else _) = _ => destruct c; [discriminate|]
         end.
  eapply sample_In; eassumption.
Qed.

Lemma dict_set_keys k v d x :
  In x (map fst (dict_set k v d)) -> x = k \/ In x (map fst d).
Proof.
  induction d as [|[k' v'] d IH]; cbn.
  - intros [<-|[]]. now left.
  - destruct (k' =? k); cbn; intuition.
Qed.

Lemma dict_zip_keys (g : list Z * list Z) x :
  In x (map fst (dict_zip g)) -> In x (fst g).
Proof.
  unfold dict_zip. destruct g as [s c]. cbn [fst snd].
  enough (Hacc : forall acc,
            In x (map fst (fold_left (fun d '(k, v) => dict_set k v d)
                             (combine s c) acc)) ->
            In x (map fst acc) \/ In x s).
  { intros Hx. destruct (Hacc [] Hx) as [[]|Hs]. exact Hs. }
  revert c. induction s as [|k s IH]; intros c acc; cbn; [tauto|].
  destruct c as [|v c]; cbn; [tauto|].
  intros Hx. apply IH in Hx as [Hx|Hx]; [|tauto].
  apply dict_set_keys in Hx. intuition.
Qed.

Lemma last_lists_only known generations :
  lists_only known generations ->
  forall x, In x (fst (List.last generations ([], []))) -> In x known.
Proof.
  intros Hall. induction Hall as [|g rest Hg Hrest IH]; [intros x []|].
  destruct rest as [|g' rest]; [exact Hg|exact IH].
Qed.

Lemma generation_step_without_mutation population_size expected known
    generations w :
  Qeq_bool expected 0 = true ->
  lists_only known generations ->
  fst (snd (generation_step population_size expected generations w)) = fst w
  /\ forall generations',
       fst (generation_step population_size expected generations w)
       = Ok generations' ->
       lists_only known generations'.
Proof.
  intros Hzero Hknown. unfold generation_step.
  pose proof (last_lists_only known generations Hknown) as Hlast.
  destruct (List.last generations ([], [])) as [current_genotypes counts].
  cbn [fst] in Hlast. unfold bind, in_generator, ret.
  pose proof (fitness_of_each_reads current_genotypes w) as Hread.
  destruct (fitness_of_each current_genotypes w) as [[prob| |] w1];
    cbn in Hread; subst w1; try (split; [reflexivity|discriminate]).
  destruct (choice_p _ _ _ _) as [[population| |] g1] eqn:Ec;
    try (split; [reflexivity|discriminate]).
  cbn [fst snd]. unfold poisson.
  assert (Hle : Qle_bool 0 expected = true).
  { apply Qle_bool_iff. apply Qeq_bool_iff in Hzero. rewrite Hzero.
    apply Qle_refl. }
  rewrite Hle, Hzero. cbn [negb fst snd].
  destruct (Z.of_nat population_size <? 0) eqn:Eneg;
    [apply Z.ltb_lt in Eneg; lia|].
  cbn [Z.to_nat seq mutate_first]. unfold ret.
  split; [reflexivity|]. intros generations' [= <-].
  apply List.Forall_app. split; [exact Hknown|].
  constructor; [|constructor]. unfold np_unique. cbn [fst].
  intros x Hx. apply seen_sound in Hx. apply Hlast.
  eapply choice_p_In; eassumption.
Qed.

Lemma generation_loop_without_mutation population_size expected known :
  Qeq_bool expected 0 = true ->
  forall n generations w,
  lists_only known generations ->
  fst (snd (generation_loop n population_size expected generations w))
  = fst w
  /\ forall generations',
       fst (generation_loop n population_size expected generations w)
       = Ok generations' ->
       lists_only known generations'.
Proof.
  intros Hzero. induction n as [|n IH]; intros generations w Hknown.
  - cbn. split; [reflexivity|]. now intros generations' [= <-].
  - cbn [generation_loop]. unfold bind.
    destruct (generation_step_without_mutation population_size expected
                known generations w Hzero Hknown) as [Hgc Hstep].
    destruct (generation_step _ _ _ _) as [[generations1| |] w1];
      cbn [fst snd] in *; try (split; [exact Hgc|discriminate]).
    destruct (IH generations1 w1 (Hstep _ eq_refl)) as [Hgc' Hloop].
    split; [congruence|exact Hloop].
Qed.

(** X12.  With a mutation rate of zero no genotype is ever mutated: the
    container is handed back as it was, whether the run returns or raises,
    and the records of a run that returns list genotypes of the initial
    population only. *)
Theorem wright_fisher_without_mutation population num_generations w :
  fst (snd (wright_fisher population 0 num_generations w)) = fst w
  /\ forall generations initial,
       fst (wright_fisher population 0 num_generations w) = Ok generations ->
       parse_population population = Ok initial ->
       List.Forall (fun record =>
                      forall g, In g (map fst record) -> In g initial)
                   generations.
Proof.
  unfold wright_fisher, bind, lift.
  destruct (parse_population population) as [initial| |];
    try (split; [reflexivity|discriminate]).
  destruct (length initial <? 1)%nat;
    [split; [reflexivity|discriminate]|].
  replace (negb (Qle_bool 0 0)) with false by reflexivity.
  destruct (num_generations <? 1);
    [split; [reflexivity|discriminate]|].
  assert (Hknown : lists_only initial [np_unique initial]).
  { constructor; [|constructor]. unfold np_unique. cbn [fst].
    intros x Hx. now apply seen_sound. }
  destruct (generation_loop_without_mutation (length initial)
              (0 * inject_Z (Z.of_nat (length initial)))%Q initial eq_refl
              (Z.to_nat (num_generations - 1)) [np_unique initial] w Hknown)
    as [Hgc Hloop].
  destruct (generation_loop _ _ _ _ _) as [[records| |] w1];
    cbn [fst snd] in *; try (split; [exact Hgc|discriminate]).
  unfold ret. cbn [fst snd]. split; [exact Hgc|].
  intros generations initial' [= <-] [= <-].
  specialize (Hloop _ eq_refl).
  apply List.Forall_map. eapply List.Forall_impl; [|exact Hloop].
  cbn. intros g Hg x Hx. apply Hg.
  now apply dict_zip_keys.
Qed.

End Arguments.

(** *** At concrete populations *)

Lemma wright_fisher_records_are_sorted_witness :
  List.Forall (fun record =>
                 StronglySorted Z.lt (map fst record)
                 /\ List.Forall (fun c => 0 < c) (map snd record))
              [[(0, 3)]; [(0, 1); (1, 1); (2, 1)]; [(0, 2); (3, 1)]].
Proof.
  apply (wright_fisher_records_are_sorted (H := neutral) (PopSize 3)
           (1 # 3) 3
           (one_neutral,
            draws [0; 0; 0; 2; 0; 0; 1; 1; 0; 0; 0; 1; 1; 1]%N)).
  vm_compute. reflexivity.
Defined.

Lemma wright_fisher_starts_from_population_witness :
  exists initial first rest,
    parse_population (PopArray [5; 5; 4; 0; 0]) = Ok initial
    /\ [[(0, 2); (4, 1); (5, 2)]] = first :: rest
    /\ forall g c,
         In (g, c) first
         <-> 0 < c /\ c = Z.of_nat (count_occ Z.eq_dec initial g).
Proof.
  apply (wright_fisher_starts_from_population (H := neutral)
           (PopArray [5; 5; 4; 0; 0]) 0 1 (one_neutral, draws [])).
  vm_compute. reflexivity.
Defined.

(** The example of the documentation: [{5:2,4:1,0:2}]. *)
Lemma wright_fisher_reads_population_dict_witness :
  exists first rest,
    [[(0, 2); (4, 1); (5, 2)]] = first :: rest
    /\ forall g c, In (g, c) first <-> In (g, c) [(5, 2); (4, 1); (0, 2)].
Proof.
  apply (wright_fisher_reads_population_dict (H := neutral)
           [(5, 2); (4, 1); (0, 2)] 0 1 (one_neutral, draws [])).
  - repeat constructor; cbn; intuition discriminate.
  - repeat constructor.
  - vm_compute. reflexivity.
Defined.

(** A dictionary that gives its only genotype no individual. *)
Lemma wright_fisher_rejects_bad_arguments_witness :
  wright_fisher (H := neutral) (PopDict [(5, 0)]) (1 # 3) 3
    (one_neutral, draws [])
  = (Raise ValueError, (one_neutral, draws [])).
Proof.
  apply (wright_fisher_rejects_bad_arguments (H := neutral)
           (PopDict [(5, 0)]) (1 # 3) 3 (one_neutral, draws []) []
           eq_refl).
  left. reflexivity.
Defined.

End WrightFisherFacts.

(** ** Tree following *)

Module FollowTreeFacts.
Import Py FollowTree Inputs.

Lemma binary_round_aux_sign s m e l :
  match binary_round_aux prec emax s m e l with
  | S754_zero s' | S754_infinity s' | S754_finite s' _ _ => s' = s
  | S754_nan => True
  end.
Proof.
  unfold binary_round_aux.
  destruct (shr_fexp prec emax m e l) as [mrs' e'].
  destruct (shr_fexp prec emax _ e' loc_Exact) as [mrs'' e''].
  destruct (shr_m mrs''); [reflexivity| |exact I].
  destruct (e'' <=? emax - prec); reflexivity.
Qed.

Lemma float_of_int_not_negative (n : nat) :
  not_negative (float_of_int (Z.of_nat n)).
Proof.
  unfold float_of_int, binary_normalize.
  destruct (Z.of_nat n) as [|p|p] eqn:E; [exact I| |lia].
  unfold binary_round. destruct (shl_align _ _ _) as [mz ez].
  pose proof (binary_round_aux_sign false (Zpos mz) ez loc_Exact) as Hs.
  destruct (binary_round_aux _ _ _ _ _ _) as [s|s| |s m e]; try exact I;
    subst; exact I.
Qed.

Lemma float_mul_not_negative x y :
  float_nonneg x = true -> not_negative y -> not_negative (float_mul x y).
Proof.
  intros Hx Hy. unfold float_mul.
  destruct x as [sx|sx| |sx mx ex]; try discriminate Hx;
    destruct y as [sy|sy| |sy my ey]; try exact I;
    try (destruct sx; try discriminate Hx; destruct sy;
         try contradiction Hy; exact I).
  destruct sx; [discriminate Hx|]. destruct sy; [contradiction Hy|].
  unfold SFmul. cbn [xorb].
  pose proof (binary_round_aux_sign false (Zpos (mx * my)) (ex + ey)
                loc_Exact) as Hs.
  destruct (binary_round_aux _ _ _ _ _ _) as [s|s| |s m e]; try exact I;
    subst; exact I.
Qed.

Lemma nearest_even_nonneg m e : 0 <= nearest_even m e.
Proof.
  unfold nearest_even. destruct e as [|p|p]; [lia|lia|].
  assert (Hq : 0 <= Zpos m / Zpos (2 ^ p)) by (apply Z.div_pos; lia).
  destruct (_ ?= _); [destruct (Z.even _)| |]; lia.
Qed.

Lemma int_np_round_not_negative x n :
  not_negative x -> int_np_round x = Ok n -> 0 <= n.
Proof.
  destruct x as [s|s| |[] m e]; cbn; try discriminate; try contradiction.
  - intros _ [= <-]. lia.
  - intros _ [= <-]. apply nearest_even_nonneg.
Qed.

(** What [int_np_round] returns is the integer nearest to the float, and
    an even one where two are as near. *)
Lemma int_np_round_nearest x n :
  int_np_round x = Ok n ->
  (Qabs (inject_Z n - value x) <= 1 # 2)%Q
  /\ (Qabs (inject_Z n - value x) == 1 # 2 -> Z.even n = true)%Q.
Proof.
  destruct x as [s|s| |s m e]; cbn [int_np_round]; try discriminate.
  - intros [= <-]. cbn. split; [discriminate|]. intros Heq. discriminate Heq.
  - intros [= <-].
    assert (Hsame : forall a : Z,
              (Qabs (inject_Z a - inject_Z a) <= 1 # 2)%Q
              /\ ((Qabs (inject_Z a - inject_Z a) == 1 # 2)%Q ->
                  Z.even a = true)).
    { intros a. unfold Qle, Qeq, Qabs, Qminus, Qplus, Qopp, inject_Z. cbn.
      split; [lia|]. intros Heq. lia. }
    destruct e as [|p|p].
    + cbn [value nearest_even]. rewrite Z.mul_1_r.
      replace (cond_Zopp s (Zpos m) * 2 ^ 0) with (cond_Zopp s (Zpos m))
        by lia.
      apply Hsame.
    + cbn [value nearest_even].
      replace (cond_Zopp s (Zpos m) * 2 ^ Zpos p)
        with (cond_Zopp s (Zpos m * 2 ^ Zpos p))
        by (destruct s; cbn [cond_Zopp]; lia).
      apply Hsame.
    + cbn [value]. set (d := (2 ^ p)%positive).
      assert (Hn : nearest_even m (Zneg p)
                   = let q := Zpos m / Zpos d in
                     match 2 * (Zpos m mod Zpos d) ?= Zpos d with
                     | Lt => q
                     | Gt => q + 1
                     | Eq => if Z.even q then q else q + 1
                     end) by reflexivity.
      rewrite Hn. clear Hn. cbv zeta.
      pose proof (Z.div_mod (Zpos m) (Zpos d) ltac:(lia)) as Hdm.
      pose proof (Z.mod_pos_bound (Zpos m) (Zpos d) ltac:(lia)) as Hr.
      set (q := Zpos m / Zpos d) in *. set (r := Zpos m mod Zpos d) in *.
      assert (Hcase : forall k : Z,
                (Qabs (inject_Z (cond_Zopp s k) - (cond_Zopp s (Zpos m) # d))
                 <= 1 # 2)%Q <-> 2 * Z.abs (k * Zpos d - Zpos m) <= Zpos d).
      { intros k. unfold Qle, Qabs, Qminus, Qplus, Qopp, inject_Z. cbn.
        destruct s; cbn [cond_Zopp]; lia. }
      assert (Htie : forall k : Z,
                (Qabs (inject_Z (cond_Zopp s k) - (cond_Zopp s (Zpos m) # d))
                 == 1 # 2)%Q <-> 2 * Z.abs (k * Zpos d - Zpos m) = Zpos d).
      { intros k. unfold Qeq, Qabs, Qminus, Qplus, Qopp, inject_Z. cbn.
        destruct s; cbn [cond_Zopp]; lia. }
      assert (Heven : forall k, Z.even (cond_Zopp s k) = Z.even k).
      { intros k. destruct s; cbn [cond_Zopp]; [apply Z.even_opp|reflexivity]. }
      assert (Hlow : q * Zpos d - Zpos m = - r) by lia.
      assert (Hhigh : (q + 1) * Zpos d - Zpos m = Zpos d - r) by lia.
      destruct (2 * r ?= Zpos d) eqn:E.
      * apply Z.compare_eq in E.
        destruct (Z.even q) eqn:Eq.
        -- split; [apply Hcase; rewrite Hlow; lia|]. intros _.
           now rewrite Heven.
        -- split; [apply Hcase; rewrite Hhigh; lia|]. intros _.
           rewrite Heven, Z.even_add, Eq. reflexivity.
      * rewrite Z.compare_lt_iff in E. split; [apply Hcase; rewrite Hlow; lia|].
        intros Ht. apply Htie in Ht. rewrite Hlow in Ht. lia.
      * rewrite Z.compare_gt_iff in E.
        split; [apply Hcase; rewrite Hhigh; lia|].
        intros Ht. apply Htie in Ht. rewrite Hhigh in Ht. lia.
Qed.

(** C5 (fails as stated): a branch of length 0.01 on a sequence of ten
    residues, from a population with no accumulated mutation.  The scaled
    length rounds to 0 and the sum is 0, but the target is 1: it is not
    equal to the sum. *)
Lemma branch_target_differs_from_sum :
  int_np_round
    (float_mul float_0_01
       (float_of_int (Z.of_nat (length (ten_residues tt))))) = Ok 0
  /\ none_accumulated [0] [5] tt = 0
  /\ branch_num_mutations ten_residues none_accumulated float_0_01 [(0, 5)] tt
     = Ok 1.
Proof. repeat split; vm_compute; reflexivity. Qed.

Section Branch.
Context {GC : Type}.
Variable wt_sequence : GC -> list Ascii.ascii.
Variable get_num_accumulated_mutations : list Z -> list Z -> GC -> Z.

(** The call returns exactly when the product of the branch length and the
    sequence length is a finite float. *)
Lemma branch_num_mutations_returns branch_length starting_pop gc :
  (exists target,
     branch_num_mutations wt_sequence get_num_accumulated_mutations
       branch_length starting_pop gc = Ok target)
  <-> match float_mul branch_length
              (float_of_int (Z.of_nat (length (wt_sequence gc)))) with
      | S754_zero _ | S754_finite _ _ _ => True
      | _ => False
      end.
Proof.
  unfold branch_num_mutations.
  destruct (float_mul _ _) as [s|s| |s m e]; cbn [int_np_round]; split;
    try (intros [target Hrun]; discriminate Hrun); try contradiction;
    try (intros _; exact I); intros _; eexists; reflexivity.
Qed.

(** C5, amended: a call that returns gives a target that is never 0.  With
    [scaled] the integer nearest to the binary64 product of the branch
    length and the sequence length, a tie going to the even one, and
    [start] the count accumulated at the start, the target is
    [scaled + start], except that a sum of 0 is replaced by 1.  For a
    branch length and a starting count that are not negative, [scaled] is
    not negative and the target is at least 1. *)
Theorem branch_num_mutations_forced branch_length starting_pop gc target :
  branch_num_mutations wt_sequence get_num_accumulated_mutations
    branch_length starting_pop gc = Ok target ->
  let product :=
    float_mul branch_length
      (float_of_int (Z.of_nat (length (wt_sequence gc)))) in
  let start :=
    get_num_accumulated_mutations (map fst starting_pop)
      (map snd starting_pop) gc in
  exists scaled,
    int_np_round product = Ok scaled
    /\ (Qabs (inject_Z scaled - value product) <= 1 # 2)%Q
    /\ ((Qabs (inject_Z scaled - value product) == 1 # 2)%Q ->
        Z.even scaled = true)
    /\ target = (if scaled + start =? 0 then 1 else scaled + start)
    /\ target <> 0
    /\ (float_nonneg branch_length = true -> 0 <= start ->
        0 <= scaled /\ 1 <= target).
Proof.
  intros Hrun product start. unfold branch_num_mutations in Hrun.
  fold product in Hrun.
  destruct (int_np_round product) as [scaled| |] eqn:Eround;
    try discriminate.
  injection Hrun as <-. fold start. exists scaled.
  destruct (int_np_round_nearest _ _ Eround) as [Hnear Htie].
  split; [reflexivity|]. split; [exact Hnear|]. split; [exact Htie|].
  split; [reflexivity|].
  split.
  { destruct (scaled + start =? 0) eqn:E; [discriminate|].
    now apply Z.eqb_neq in E. }
  intros Hlen Hstart.
  assert (Hscaled : 0 <= scaled).
  { apply (int_np_round_not_negative product); [|exact Eround].
    apply float_mul_not_negative; [exact Hlen|].
    apply float_of_int_not_negative. }
  split; [exact Hscaled|].
  destruct (scaled + start =? 0) eqn:E; [lia|].
  apply Z.eqb_neq in E. lia.
Qed.

End Branch.

(** A branch of length 0.1 on twenty-five residues: the binary64 product is
    2.5 and the target is 2. *)
Lemma branch_num_mutations_forced_witness :
  let product :=
    float_mul float_0_1
      (float_of_int (Z.of_nat (length (twenty_five_residues tt)))) in
  exists scaled,
    int_np_round product = Ok scaled
    /\ (Qabs (inject_Z scaled - value product) <= 1 # 2)%Q
    /\ ((Qabs (inject_Z scaled - value product) == 1 # 2)%Q ->
        Z.even scaled = true)
    /\ 2 = (if scaled + none_accumulated [0] [5] tt =? 0 then 1
            else scaled + none_accumulated [0] [5] tt)
    /\ 2 <> 0
    /\ (float_nonneg float_0_1 = true -> 0 <= none_accumulated [0] [5] tt ->
        0 <= scaled /\ 1 <= 2).
Proof.
  apply (branch_num_mutations_forced twenty_five_residues none_accumulated
           float_0_1 [(0, 5)] tt 2).
  vm_compute. reflexivity.
Defined.

End FollowTreeFacts.

(** ** Ensemble *)

Module EnsembleFacts.
Import Py PyFacts Ensemble Inputs.

Lemma of_option_ok {A} e (o : option A) a :
  of_option e o = Ok a -> o = Some a.
Proof. destruct o; cbn; intros Heq; inversion Heq; reflexivity. Qed.

Lemma sdict_get_set {V} (d : list (string * V)) k v k' :
  sdict_get (sdict_set k v d) k'
  = if String.eqb k k' then Some v else sdict_get d k'.
Proof.
  induction d as [|[k0 v0] d IH]; cbn.
  - reflexivity.
  - destruct (String.eqb k0 k) eqn:E0; cbn.
    + apply String.eqb_eq in E0. subst k0.
      destruct (String.eqb k k'); reflexivity.
    + rewrite IH. destruct (String.eqb k0 k') eqn:E1; [|reflexivity].
      apply String.eqb_eq in E1. subst k0.
      rewrite String.eqb_sym in E0. now rewrite E0.
Qed.

Lemma sdict_mem_In {V} (d : list (string * V)) k :
  sdict_mem k d = true <-> In k (map fst d).
Proof.
  unfold sdict_mem. induction d as [|[k' v] d IH]; cbn.
  - split; [discriminate|tauto].
  - destruct (String.eqb k' k) eqn:E.
    + apply String.eqb_eq in E. split; auto.
    + apply String.eqb_neq in E. rewrite IH. split; [auto|].
      intros [Hk|Hin]; [contradiction|exact Hin].
Qed.

Lemma lookup_map {A B} (f : A -> B) (l : list A) j x :
  l !! j = Some x -> map f l !! j = Some (f x).
Proof.
  revert j. induction l as [|y l IH]; intros [|j]; cbn; try discriminate.
  - now intros [= ->].
  - apply IH.
Qed.

Lemma In_lookup {A} (x : A) (l : list A) :
  In x l -> exists i, l !! i = Some x.
Proof.
  induction l as [|y l IH]; intros Hin; [contradiction|].
  destruct Hin as [->|Hin]; [now exists O|].
  destruct (IH Hin) as [i Hi]. now exists (S i).
Qed.


(** *** The frame as a dictionary of columns *)

Section Frames.
Context {num : Type}.

(** Columns assigned one after the other leave a column of another name
    as it was. *)
Lemma assign_other {V} (f : V -> pyvalue num) (l : list (string * V)) k :
  forall out : pydict num,
  ~ In k (map fst l) ->
  sdict_get (fold_left (fun out '(name, v) => sdict_set name (f v) out) l out)
            k
  = sdict_get out k.
Proof.
  induction l as [|[name v] l IH]; intros out Hk; cbn in *; [reflexivity|].
  rewrite IH by tauto. rewrite sdict_get_set.
  destruct (String.eqb name k) eqn:E; [|reflexivity].
  apply String.eqb_eq in E. tauto.
Qed.

(** Of columns with different names each is found as it was assigned. *)
Lemma assign_found {V} (f : V -> pyvalue num) (l : list (string * V)) :
  forall (out : pydict num) i name v,
  List.NoDup (map fst l) -> l !! i = Some (name, v) ->
  sdict_get (fold_left (fun out '(name, v) => sdict_set name (f v) out) l out)
            name
  = Some (f v).
Proof.
  induction l as [|[name0 v0] l IH]; intros out i name v Hnd Hi;
    [discriminate|].
  apply List.NoDup_cons_iff in Hnd as [Hout Hnd]. cbn [fold_left].
  destruct i as [|i]; cbn in Hi.
  - injection Hi as -> ->. rewrite assign_other by exact Hout.
    now rewrite sdict_get_set, String.eqb_refl.
  - eapply IH; eassumption.
Qed.

(** What [pd.DataFrame] makes of a dictionary: the arrays are its columns,
    and all its columns are arrays of one length. *)
Lemma repeated_column n (p : pydict num) k a :
  sdict_get p k = Some (Array a) ->
  sdict_get (map (fun '(name, v) =>
                    (name, match v with
                           | Scalar x => Array (repeat x n)
                           | Array a => Array a
                           end)) p) k = Some (Array a).
Proof.
  induction p as [|[name v] p IH]; cbn; [discriminate|].
  destruct (String.eqb name k); [|exact IH].
  now intros [= ->].
Qed.

Lemma repeated_shape n (p : pydict num) k v :
  (forall m, In m (array_lengths p) -> m = n) ->
  sdict_get (map (fun '(name, v) =>
                    (name, match v with
                           | Scalar x => Array (repeat x n)
                           | Array a => Array a
                           end)) p) k = Some v ->
  exists a, v = Array a /\ length a = n.
Proof.
  intros Hall Hk.
  induction p as [|[name v0] p IH]; cbn in *; [discriminate|].
  destruct (String.eqb name k).
  - injection Hk as <-. destruct v0 as [x|a].
    + eexists. split; [reflexivity|]. apply repeat_length.
    + exists a. split; [reflexivity|]. apply Hall. cbn. now left.
  - apply IH; [|exact Hk]. intros m Hm. apply Hall.
    destruct v0; cbn; [exact Hm|now right].
Qed.

Lemma DataFrame_column (d out : pydict num) k a :
  DataFrame d = Ok out -> sdict_get d k = Some (Array a) ->
  sdict_get out k = Some (Array a).
Proof.
  unfold DataFrame. destruct d as [|entry d]; [discriminate|].
  destruct (array_lengths (entry :: d)) as [|n rest]; [discriminate|].
  destruct (forallb _ _); [|discriminate].
  intros [= <-]. apply (repeated_column n (entry :: d)).
Qed.

Lemma DataFrame_shape (d out : pydict num) :
  DataFrame d = Ok out ->
  exists n, forall k v, sdict_get out k = Some v ->
    exists a, v = Array a /\ length a = n.
Proof.
  unfold DataFrame. destruct d as [|entry d].
  { intros [= <-]. exists O. intros k v Hk. discriminate. }
  destruct (array_lengths (entry :: d)) as [|n rest] eqn:El; [discriminate|].
  destruct (forallb _ _) eqn:Eall; [|discriminate].
  intros [= <-]. exists n.
  assert (Hall : forall m, In m (array_lengths (entry :: d)) -> m = n).
  { rewrite El. intros m [<-|Hm]; [reflexivity|].
    rewrite forallb_forall in Eall. symmetry.
    now apply Nat.eqb_eq, Eall. }
  intros k v. apply (repeated_shape n (entry :: d)). exact Hall.
Qed.

Lemma columns_fx_folded (c : columns num) :
  sdict_get (assigned c) "fx_folded" = Some (Array (fx_folded c)).
Proof. unfold assigned. now rewrite sdict_get_set. Qed.

Lemma columns_dG_obs (c : columns num) :
  sdict_get (assigned c) "dG_obs" = Some (Array (dG_obs c)).
Proof. unfold assigned. now rewrite !sdict_get_set. Qed.

Lemma columns_fx_obs (c : columns num) :
  sdict_get (assigned c) "fx_obs" = Some (Array (fx_obs c)).
Proof. unfold assigned. now rewrite !sdict_get_set. Qed.

Lemma columns_temperature (c : columns num) :
  ~ In "temperature" (map fst (df_ligands c)) ->
  ~ In "temperature" (map fst (df_species c)) ->
  sdict_get (assigned c) "temperature" = Some (Array (df_temperature c)).
Proof.
  intros Hligands Hspecies. unfold assigned. rewrite !sdict_get_set.
  cbn [String.eqb Ascii.eqb Bool.eqb].
  rewrite (assign_other Array) by exact Hspecies.
  rewrite (assign_other (fun v => v)) by exact Hligands.
  reflexivity.
Qed.

Lemma columns_species (c : columns num) i name fraction :
  List.NoDup (map fst (df_species c)) ->
  name <> "fx_obs" -> name <> "dG_obs" -> name <> "fx_folded" ->
  df_species c !! i = Some (name, fraction) ->
  sdict_get (assigned c) name = Some (Array fraction).
Proof.
  intros Hnd H1 H2 H3 Hi. unfold assigned. rewrite !sdict_get_set.
  apply String.eqb_neq in H1, H2, H3.
  rewrite (String.eqb_sym "fx_folded"), (String.eqb_sym "dG_obs"),
    (String.eqb_sym "fx_obs"), H1, H2, H3.
  now apply (assign_found Array _ _ i).
Qed.

End Frames.

(** *** The fast paths against [get_obs] *)

Section Fast.
Context {num : Type} `{FloatOps num} `{!Checks num}.

Lemma collect_names {I X} (F : I * string -> outcome (string * X)) l :
  (forall p y, F p = Ok y -> fst y = snd p) ->
  forall fractions, collect F l = Ok fractions ->
  map fst fractions = map snd l.
Proof.
  intros HF. induction l as [|p l IH]; intros fractions; cbn.
  - now intros [= <-].
  - destruct (F p) as [y| |] eqn:Ep; try discriminate.
    destruct (collect F l) as [rest| |]; try discriminate.
    intros [= <-]. cbn. f_equal; [now apply HF|now apply IH].
Qed.

Lemma enumerate_names {A} (names : list A) : forall k,
  map snd (combine (seq k (length names)) names) = names.
Proof.
  induction names as [|name names IH]; intros k; cbn; [reflexivity|].
  now rewrite IH.
Qed.

Lemma get_obs_ok mut_energy ligand_dict temperature w out w' :
  get_obs mut_energy ligand_dict temperature w = (Ok out, w') ->
  get_obs_trace mut_energy temperature w w' out.
Proof.
  unfold get_obs. intros Hrun.
  step Hrun as ens Eens. injection Eens as <-.
  destruct (_ <? 2)%nat; [discriminate|].
  destruct (_ || _); [discriminate|].
  apply bind_ok in Hrun as (l & s0 & El & Hrun).
  assert (Hs0 : self s0 = self w).
  { destruct ligand_dict as [l0|].
    - unfold ret in El. now injection El as _ <-.
    - unfold alloc in El. now injection El as _ <-. }
  step Hrun as checked Echecked.
  apply bind_ok in Hrun as ([ld n] & s1 & Edict & Hrun).
  assert (Hs1 : self s1 = self w).
  { rewrite <- Hs0. unfold on_heap in Edict.
    destruct (check_ligand_dict l (heap s0)). now injection Edict as _ <-. }
  step Hrun as T ET.
  apply bind_ok in Hrun as (u & s2 & Ebuild & Hrun). destruct u.
  step Hrun as ens Eens. injection Eens as <-.
  step Hrun as weights Eweights.
  step Hrun as z Ez. apply of_option_ok in Ez.
  step Hrun as obs Eobs.
  step Hrun as not_obs_mask Enot_obs_mask. apply of_option_ok in Enot_obs_mask.
  step Hrun as not_obs Enot_obs.
  step Hrun as d Ed.
  apply of_option_ok in Ed.
  step Hrun as fractions Efractions.
  step Hrun as filled Efilled.
  step Hrun as t_sel Et_sel.
  step Hrun as obs_sel Eobs_sel.
  step Hrun as not_obs_sel Enot_obs_sel.
  step Hrun as rhs Erhs.
  step Hrun as dG_out EdG_out.
  step Hrun as fold Efold.
  step Hrun as unfolded_mask Eunfolded_mask.
  apply of_option_ok in Eunfolded_mask.
  step Hrun as unfold Eunfold.
  apply lift_ok in Hrun as [Hframe ->].
  eapply (Trace _ _ _ _ _
            (mkdf T d fractions
               (zip_with ndiv obs (zip_with nadd obs not_obs)) dG_out
               (zip_with ndiv fold (zip_with nadd fold unfold)))
            n checked ld s1 weights z not_obs_mask unfolded_mask);
    cbn [df_temperature df_ligands df_species fx_obs dG_obs fx_folded];
    try eassumption; try reflexivity.
  match goal with
  | |- _ = _species_list ?e =>
      rewrite <- (enumerate_names (_species_list e) 0) at 1
  end.
  eapply collect_names; [|exact Efractions].
  intros [i name] y. cbn.
  destruct (of_option IndexError (weights !! i)); try discriminate.
  now intros [= <-].
Qed.

Lemma select_length {A} mask (a r : list A) :
  select mask a = Ok r ->
  length mask = length a
  /\ length r = length (List.filter (fun b : bool => b) mask).
Proof.
  unfold select. destruct (length mask =? length a)%nat eqn:E;
    [|discriminate].
  apply Nat.eqb_eq in E. intros Heq; inversion Heq; subst; clear Heq.
  split; [assumption|]. rewrite length_map.
  revert a E. induction mask as [|b mask IH]; intros [|x a] E; cbn in *;
    try discriminate; [reflexivity|].
  destruct b; cbn; rewrite IH by lia; reflexivity.
Qed.

Lemma select_all {A} mask (a : list A) :
  List.Forall (eq true) mask -> length mask = length a ->
  select mask a = Ok a.
Proof.
  intros Hall Hlen. unfold select.
  rewrite (proj2 (Nat.eqb_eq _ _) Hlen). f_equal.
  revert a Hlen. induction Hall as [|b mask <- Hall IH]; intros [|x a] Hlen;
    cbn in *; try discriminate; [reflexivity|].
  f_equal. apply IH. lia.
Qed.

Lemma selected_fewer mask :
  In true mask ->
  (length (List.filter (fun b : bool => b) (map negb mask)) < length mask)%nat.
Proof.
  induction mask as [|b mask IH]; cbn; [tauto|].
  assert (Hle : forall m : list bool,
            (length (List.filter (fun b : bool => b) m) <= length m)%nat).
  { induction m as [|c m IHm]; cbn; [lia|]. destruct c; cbn; lia. }
  intros [->|Hin]; cbn.
  - specialize (Hle (map negb mask)). rewrite length_map in Hle. lia.
  - specialize (IH Hin). destruct b; cbn; lia.
Qed.

Lemma scatter_length (a : list num) : forall mask v,
  length (scatter a mask v) = length a.
Proof.
  induction a as [|x a IH]; intros [|[] mask] [|y v]; cbn;
    try reflexivity; now rewrite IH.
Qed.

Lemma mask_assign_length (a : list num) mask v r :
  mask_assign a mask v = Ok r -> length r = length a.
Proof.
  unfold mask_assign. destruct (negb _); [discriminate|].
  destruct (_ =? _)%nat.
  - intros Heq; inversion Heq. apply scatter_length.
  - destruct v as [|y [|]]; try discriminate.
    intros Heq; inversion Heq. apply scatter_length.
Qed.

Lemma scatter_untouched (a : list num) : forall mask v j,
  mask !! j = Some false -> scatter a mask v !! j = a !! j.
Proof.
  induction a as [|x a IH]; intros [|b mask] v [|j] Hj; cbn in *;
    try discriminate; try reflexivity.
  - injection Hj as ->. reflexivity.
  - destruct b; [destruct v|]; cbn; now apply IH.
Qed.

Lemma scatter_filled (a : list num) y : forall mask j extra,
  length mask = length a ->
  mask !! j = Some true ->
  scatter a mask
    (repeat y (length (List.filter (fun b : bool => b) mask) + extra)) !! j
  = Some y.
Proof.
  induction a as [|x a IH]; intros [|b mask] [|j] extra Hlen Hj; cbn in *;
    try discriminate.
  - injection Hj as ->. reflexivity.
  - destruct b; cbn; apply IH; auto.
Qed.

Lemma mask_fill_at (a : list num) mask x r j :
  mask_fill a mask x = Ok r -> mask !! j = Some true -> r !! j = Some x.
Proof.
  unfold mask_fill, mask_assign.
  destruct (length mask =? length a)%nat eqn:Hlen; [|discriminate].
  apply Nat.eqb_eq in Hlen. cbn [negb length].
  set (k := length (List.filter (fun b : bool => b) mask)).
  intros Hrun Hj.
  assert (Hr : r = scatter a mask (repeat x (k + 0))).
  { rewrite Nat.add_0_r.
    destruct (1 =? k)%nat eqn:Hk.
    - apply Nat.eqb_eq in Hk. rewrite <- Hk. now injection Hrun as <-.
    - now injection Hrun as <-. }
  subst r. now apply scatter_filled.
Qed.

Lemma mask_assign_untouched (a : list num) mask v r j :
  mask_assign a mask v = Ok r -> mask !! j = Some false -> r !! j = a !! j.
Proof.
  unfold mask_assign. destruct (negb _); [discriminate|].
  intros Hrun Hj. destruct (_ =? _)%nat.
  - injection Hrun as <-. now apply scatter_untouched.
  - destruct v as [|y [|]]; try discriminate.
    injection Hrun as <-. now apply scatter_untouched.
Qed.

(** The temperature column of the frame holds the checked temperatures
    when no ligand and no species is called like it. *)
Lemma frame_temperature (df : columns num) out (w' : world num) ld :
  DataFrame (assigned df) = Ok out ->
  heap w' !! ld = Some (df_ligands df) ->
  map fst (df_species df) = _species_list (self w') ->
  temperature_kept w' ->
  sdict_get out "temperature" = Some (Array (df_temperature df)).
Proof.
  intros Hframe Hligands Hnames [Hspecies Hstore].
  eapply DataFrame_column; [exact Hframe|].
  apply columns_temperature.
  - intros Hin. apply sdict_mem_In in Hin.
    rewrite (Hstore _ _ Hligands) in Hin. discriminate.
  - now rewrite Hnames.
Qed.

Lemma nan_mask_of_trace (ens : ensemble num) mut_energy_array T z weights
    not_obs_mask obs not_obs t_sel :
  built ens = Some z ->
  _not_obs_mask z = Some not_obs_mask ->
  _get_weights ens mut_energy_array T = Ok weights ->
  masked_sum weights (_obs_mask z) = Ok obs ->
  masked_sum weights not_obs_mask = Ok not_obs ->
  select (map negb (zero_mask obs not_obs)) T = Ok t_sel ->
  nan_mask ens mut_energy_array T = Ok (zero_mask obs not_obs)
  /\ length (zero_mask obs not_obs) = length T.
Proof.
  intros built_ok not_obs_mask_ok weights_ok obs_ok not_obs_ok t_sel_ok.
  unfold nan_mask. rewrite weights_ok, built_ok.
  cbn [of_option]. rewrite obs_ok, not_obs_mask_ok. cbn [of_option].
  rewrite not_obs_ok. split; [reflexivity|].
  apply select_length in t_sel_ok as [Hlen _].
  now rewrite length_map in Hlen.
Qed.

(** X20.  The half of C3 that holds.  In a frame whose temperature column
    no ligand and no species has replaced, [get_fx_obs_fast], run on the
    ensemble [get_obs] leaves behind with the array of the checked mutation
    energies and the temperature column of the frame, returns the frame's
    [fx_obs] and [fx_folded] columns. *)
Lemma get_fx_obs_fast_agrees mut_energy ligand_dict temperature w out w' :
  get_obs mut_energy ligand_dict temperature w = (Ok out, w') ->
  temperature_kept w' ->
  exists checked T fx folded,
    check_mut_energy
      match mut_energy with
      | Some d => d
      | None => map (fun '(s, _) => (s, num0)) (_species_dict (self w))
      end = Ok checked
    /\ sdict_get out "temperature" = Some (Array T)
    /\ sdict_get out "fx_obs" = Some (Array fx)
    /\ sdict_get out "fx_folded" = Some (Array folded)
    /\ get_fx_obs_fast (self w')
         (mut_dict_to_array (self w') (Some checked)) T
       = Ok (fx, folded).
Proof.
  intros Hrun Hkept. destruct (get_obs_ok _ _ _ _ _ _ Hrun).
  exists checked, (df_temperature df), (fx_obs df), (fx_folded df).
  split; [assumption|].
  split; [eapply frame_temperature; eassumption|].
  split; [eapply DataFrame_column; [exact frame_ok|apply columns_fx_obs]|].
  split; [eapply DataFrame_column; [exact frame_ok|apply columns_fx_folded]|].
  unfold get_fx_obs_fast.
  rewrite weights_ok, built_ok. cbn [of_option].
  rewrite obs_ok, not_obs_mask_ok. cbn [of_option].
  rewrite not_obs_ok, folded_ok, unfolded_mask_ok. cbn [of_option].
  rewrite unfolded_ok, fx_obs_ok, fx_folded_ok. reflexivity.
Qed.

(** X22.  Where the fast path departs from [get_obs]: as soon as one
    condition of several is masked, [get_dG_obs_fast], handed the
    temperatures [get_obs] has checked and used, multiplies one factor per
    condition with one logarithm per unmasked condition, and raises
    [ValueError].  [get_obs] takes the temperatures of the unmasked
    conditions only.  The checked temperatures are the temperature column
    of the frame, unless a ligand or a species called like it has replaced
    it. *)
Lemma get_dG_obs_fast_raises_when_masked mut_energy ligand_dict temperature
    w out w' :
  get_obs mut_energy ligand_dict temperature w = (Ok out, w') ->
  exists checked num_conditions T mask,
    check_mut_energy
      match mut_energy with
      | Some d => d
      | None => map (fun '(s, _) => (s, num0)) (_species_dict (self w))
      end = Ok checked
    /\ check_temperature temperature num_conditions = Ok T
    /\ (temperature_kept w' -> sdict_get out "temperature" = Some (Array T))
    /\ nan_mask (self w') (mut_dict_to_array (self w') (Some checked)) T
       = Ok mask
    /\ ((2 <= length T)%nat -> In true mask ->
        get_dG_obs_fast (self w')
          (mut_dict_to_array (self w') (Some checked)) T
        = Raise ValueError).
Proof.
  intros Hrun. destruct (get_obs_ok _ _ _ _ _ _ Hrun).
  destruct (nan_mask_of_trace _ _ _ _ _ _ _ _ _ built_ok not_obs_mask_ok
              weights_ok obs_ok not_obs_ok t_sel_ok) as [Hmask _].
  exists checked, num_conditions, (df_temperature df), (zero_mask obs not_obs).
  split; [assumption|]. split; [assumption|].
  split; [intros Hkept; eapply frame_temperature; eassumption|].
  split; [exact Hmask|].
  intros Hmany Hin.
  unfold get_dG_obs_fast. rewrite weights_ok, built_ok. cbn [of_option].
  rewrite obs_ok, not_obs_mask_ok. cbn [of_option].
  rewrite not_obs_ok, filled_ok, obs_sel_ok, not_obs_sel_ok.
  set (mask := zero_mask obs not_obs) in *.
  apply select_length in obs_sel_ok as [_ Ho], not_obs_sel_ok as [_ Hn].
  apply select_length in t_sel_ok as [Hlen _]. rewrite length_map in Hlen.
  pose proof (selected_fewer mask Hin) as Hfew.
  set (logs := map nlog (zip_with ndiv obs_sel not_obs_sel)).
  assert (Hlogs : length logs
                  = length (List.filter (fun b : bool => b) (map negb mask))).
  { unfold logs. rewrite length_map, length_zip_with. lia. }
  set (factors := map _ (df_temperature df)).
  assert (Hfactors : length factors = length (df_temperature df))
    by (unfold factors; now rewrite length_map).
  clearbody logs factors. clear rhs_ok dG_obs_ok.
  unfold broadcast2.
  destruct (length factors =? length logs)%nat eqn:E;
    [apply Nat.eqb_eq in E; lia|].
  destruct factors as [|f1 [|f2 factors]]; cbn in Hfactors; try lia.
  destruct logs as [|l1 [|l2 logs]]; try reflexivity.
  cbn [length] in Hlogs. unfold mask_assign.
  rewrite length_map, (mask_assign_length _ _ _ _ filled_ok), repeat_length.
  rewrite Nat.eqb_refl. cbn [negb map length]. rewrite <- Hlogs.
  reflexivity.
Qed.

(** X21.  Where nothing is masked the two agree: in a frame whose
    temperature column no ligand and no species has replaced,
    [get_dG_obs_fast], handed that column, returns the frame's [dG_obs] and
    [fx_folded] columns. *)
Lemma get_dG_obs_fast_agrees_when_unmasked mut_energy ligand_dict
    temperature w out w' :
  get_obs mut_energy ligand_dict temperature w = (Ok out, w') ->
  temperature_kept w' ->
  exists checked T dG folded mask,
    check_mut_energy
      match mut_energy with
      | Some d => d
      | None => map (fun '(s, _) => (s, num0)) (_species_dict (self w))
      end = Ok checked
    /\ sdict_get out "temperature" = Some (Array T)
    /\ sdict_get out "dG_obs" = Some (Array dG)
    /\ sdict_get out "fx_folded" = Some (Array folded)
    /\ nan_mask (self w') (mut_dict_to_array (self w') (Some checked)) T
       = Ok mask
    /\ (List.Forall (eq false) mask ->
        get_dG_obs_fast (self w')
          (mut_dict_to_array (self w') (Some checked)) T
        = Ok (dG, folded)).
Proof.
  intros Hrun Hkept. destruct (get_obs_ok _ _ _ _ _ _ Hrun).
  destruct (nan_mask_of_trace _ _ _ _ _ _ _ _ _ built_ok not_obs_mask_ok
              weights_ok obs_ok not_obs_ok t_sel_ok) as [Hmask _].
  exists checked, (df_temperature df), (dG_obs df), (fx_folded df),
    (zero_mask obs not_obs).
  split; [assumption|].
  split; [eapply frame_temperature; eassumption|].
  split; [eapply DataFrame_column; [exact frame_ok|apply columns_dG_obs]|].
  split; [eapply DataFrame_column; [exact frame_ok|apply columns_fx_folded]|].
  split; [exact Hmask|].
  intros Hnone.
  unfold get_dG_obs_fast. rewrite weights_ok, built_ok. cbn [of_option].
  rewrite obs_ok, not_obs_mask_ok. cbn [of_option].
  rewrite not_obs_ok, filled_ok, obs_sel_ok, not_obs_sel_ok.
  assert (Hsel : t_sel = df_temperature df).
  { pose proof t_sel_ok as Hs. apply select_length in Hs as [Hlen _].
    rewrite select_all in t_sel_ok; [congruence| |assumption].
    apply List.Forall_map. eapply List.Forall_impl; [|exact Hnone].
    intros b <-. reflexivity. }
  rewrite <- Hsel, rhs_ok, dG_obs_ok, folded_ok, unfolded_mask_ok.
  cbn [of_option]. rewrite unfolded_ok, fx_folded_ok.
  reflexivity.
Qed.

(** Under a masked condition [get_obs] reports not-a-number. *)
Lemma get_obs_nan_where_masked mut_energy ligand_dict temperature w out w' :
  get_obs mut_energy ligand_dict temperature w = (Ok out, w') ->
  exists checked num_conditions T dG mask,
    check_mut_energy
      match mut_energy with
      | Some d => d
      | None => map (fun '(s, _) => (s, num0)) (_species_dict (self w))
      end = Ok checked
    /\ check_temperature temperature num_conditions = Ok T
    /\ sdict_get out "dG_obs" = Some (Array dG)
    /\ nan_mask (self w') (mut_dict_to_array (self w') (Some checked)) T
       = Ok mask
    /\ length mask = length T
    /\ forall j, mask !! j = Some true -> dG !! j = Some nan.
Proof.
  intros Hrun. destruct (get_obs_ok _ _ _ _ _ _ Hrun).
  destruct (nan_mask_of_trace _ _ _ _ _ _ _ _ _ built_ok not_obs_mask_ok
              weights_ok obs_ok not_obs_ok t_sel_ok) as [Hmask Hlen].
  exists checked, num_conditions, (df_temperature df), (dG_obs df),
    (zero_mask obs not_obs).
  split; [assumption|]. split; [assumption|].
  split; [eapply DataFrame_column; [exact frame_ok|apply columns_dG_obs]|].
  split; [exact Hmask|]. split; [exact Hlen|].
  intros j Hj.
  rewrite (mask_assign_untouched _ _ _ _ j dG_obs_ok).
  - eapply mask_fill_at; eassumption.
  - now apply (lookup_map negb) in Hj.
Qed.

End Fast.

(** *** The matrix of energies *)

Lemma collect_lookup {A B} (f : A -> outcome B) xs : forall ys,
  collect f xs = Ok ys ->
  forall i y, ys !! i = Some y -> exists x, xs !! i = Some x /\ f x = Ok y.
Proof.
  induction xs as [|x xs IH]; cbn; intros ys Hc i y Hy.
  - injection Hc as <-. discriminate.
  - destruct (f x) as [b| |] eqn:Ef; try discriminate.
    destruct (collect f xs) as [bs| |]; try discriminate.
    injection Hc as <-. destruct i as [|i]; cbn in *.
    + injection Hy as <-. eauto.
    + eapply IH; eauto.
Qed.

Lemma collect_map {A B} (f : A -> outcome B) (g : A -> B) xs : forall ys,
  collect f xs = Ok ys ->
  (forall x y, f x = Ok y -> y = g x) ->
  ys = map g xs.
Proof.
  induction xs as [|x xs IH]; cbn; intros ys Hc Hg.
  - now injection Hc as <-.
  - destruct (f x) as [b| |] eqn:Ef; try discriminate.
    destruct (collect f xs) as [bs| |]; try discriminate.
    injection Hc as <-. f_equal; [now apply Hg|]. now apply IH.
Qed.

Lemma collect_length {A B} (f : A -> outcome B) xs : forall ys,
  collect f xs = Ok ys -> length ys = length xs.
Proof.
  induction xs as [|x xs IH]; cbn; intros ys Hc.
  - now injection Hc as <-.
  - destruct (f x) as [b| |]; try discriminate.
    destruct (collect f xs) as [bs| |]; try discriminate.
    injection Hc as <-. cbn. f_equal. now apply IH.
Qed.

Lemma collect_each {A B} (f : A -> outcome B) (P : B -> Prop) xs : forall ys,
  collect f xs = Ok ys -> (forall x y, f x = Ok y -> P y) -> List.Forall P ys.
Proof.
  induction xs as [|x xs IH]; cbn; intros ys Hc HP.
  - injection Hc as <-. constructor.
  - destruct (f x) as [b| |] eqn:Ef; try discriminate.
    destruct (collect f xs) as [bs| |]; try discriminate.
    injection Hc as <-. constructor; [now apply (HP x)|now apply IH].
Qed.

Section Build.
Context {num : Type} `{RingOps num}.

(** The first loop of [_build_z_matrix], over an empty dictionary. *)
Lemma fill_empty (v : pyvalue num) ligs : forall d lig,
  In lig ligs \/ sdict_get d lig = Some v ->
  sdict_get (fold_left (fun d lig => sdict_set lig v d) ligs d) lig = Some v.
Proof.
  induction ligs as [|l ligs IH]; cbn; intros d lig Hin.
  - destruct Hin as [[]|Hin]. exact Hin.
  - apply IH. rewrite sdict_get_set.
    destruct (String.eqb l lig) eqn:E; [now right|].
    destruct Hin as [[->|Hin]|Hin]; [|now left|now right].
    rewrite String.eqb_refl in E. discriminate.
Qed.

(** The second loop: a ligand without an entry gets the zeros, an entry
    that is there stays. *)
Lemma fill_missing (v : pyvalue num) ligs : forall d lig,
  (In lig ligs /\ sdict_mem lig d = false) \/ sdict_get d lig = Some v ->
  sdict_get
    (fold_left (fun d lig => if sdict_mem lig d then d else sdict_set lig v d)
               ligs d) lig = Some v.
Proof.
  induction ligs as [|l ligs IH]; cbn; intros d lig Hin.
  - destruct Hin as [[[] _]|Hin]. exact Hin.
  - apply IH. unfold sdict_mem in *.
    destruct (sdict_get d l) eqn:El.
    + destruct Hin as [[[->|Hin] Hno]|Hin]; [|now left|now right].
      rewrite El in Hno. discriminate.
    + rewrite sdict_get_set. destruct (String.eqb l lig) eqn:E; [now right|].
      destruct Hin as [[[->|Hin] Hno]|Hin]; [|now left|now right].
      rewrite String.eqb_refl in E. discriminate.
Qed.

Lemma fill_missing_keeps (v : pyvalue num) ligs : forall d lig x,
  sdict_get d lig = Some x ->
  sdict_get
    (fold_left (fun d lig => if sdict_mem lig d then d else sdict_set lig v d)
               ligs d) lig = Some x.
Proof.
  induction ligs as [|l ligs IH]; cbn; intros d lig x Hget; [exact Hget|].
  apply IH. unfold sdict_mem. destruct (sdict_get d l) eqn:El; [exact Hget|].
  rewrite sdict_get_set. destruct (String.eqb l lig) eqn:E; [|exact Hget].
  apply String.eqb_eq in E. subst. congruence.
Qed.

(** The dictionary as the first two loops leave it: a ligand of the
    ensemble without an entry has the zeros, one per condition; an entry
    that was there stays; and no other key appears. *)
Lemma completed_missing ligands (d : pydict num) n lig :
  num_conditions_of d = Ok n ->
  In lig ligands -> sdict_mem lig d = false ->
  sdict_get (completed ligands d n) lig = Some (Array (repeat num0 n)).
Proof.
  intros Hn Hin Hno. unfold completed. apply fill_missing.
  destruct d as [|[k v] d].
  - right. injection Hn as <-. apply fill_empty. now left.
  - now left.
Qed.

Lemma completed_keeps ligands (d : pydict num) n k v :
  sdict_get d k = Some v -> sdict_get (completed ligands d n) k = Some v.
Proof.
  intros Hk. unfold completed. apply fill_missing_keeps.
  destruct d as [|entry d]; [discriminate|exact Hk].
Qed.

Lemma completed_keys ligands (d : pydict num) n k :
  sdict_mem k (completed ligands d n) = true ->
  sdict_mem k d = true \/ In k ligands.
Proof.
  unfold completed.
  assert (Hfirst : forall (v : pyvalue num) ligs d0,
            sdict_mem k (fold_left (fun d lig => sdict_set lig v d) ligs d0)
            = true -> sdict_mem k d0 = true \/ In k ligs).
  { intros v ligs. induction ligs as [|l ligs IH]; intros d0; cbn; [auto|].
    intros Hk. apply IH in Hk as [Hk|Hk]; [|now right; right].
    unfold sdict_mem in Hk. rewrite sdict_get_set in Hk.
    destruct (String.eqb l k) eqn:E; [|now left].
    apply String.eqb_eq in E. right. now left. }
  assert (Hsecond : forall (v : pyvalue num) ligs d0,
            sdict_mem k (fold_left (fun d lig => if sdict_mem lig d then d
                                                 else sdict_set lig v d)
                                   ligs d0)
            = true -> sdict_mem k d0 = true \/ In k ligs).
  { intros v ligs. induction ligs as [|l ligs IH]; intros d0; cbn; [auto|].
    intros Hk. apply IH in Hk as [Hk|Hk]; [|now right; right].
    destruct (sdict_mem l d0); [now left|].
    unfold sdict_mem in Hk. rewrite sdict_get_set in Hk.
    destruct (String.eqb l k) eqn:E; [|now left].
    apply String.eqb_eq in E. right. now left. }
  intros Hk. apply Hsecond in Hk as [Hk|Hk]; [|now right].
  destruct d as [|entry d]; [|now left].
  apply Hfirst in Hk as [Hk|Hk]; [discriminate|now right].
Qed.

(** The loops over the entries of a row and over the rows, when they come
    to their end. *)
Lemma perturb_row_ok (d : pydict num) st ligands : forall row0 j row,
  perturb_row d st ligands j row0 = (row, Ok tt) ->
  length row = length row0
  /\ forall k z0, row0 !! k = Some z0 ->
       exists z', row !! k = Some z'
                  /\ perturb d st (j + k) ligands z0 = (z', Ok tt).
Proof.
  induction row0 as [|z row0 IH]; intros j row; cbn [perturb_row].
  - intros [= <-]. split; [reflexivity|]. intros k z0 Hk. discriminate.
  - destruct (perturb d st j ligands z) as [z' [[]| |]] eqn:Ez;
      try (intros [= _ Hbad]; discriminate Hbad).
    destruct (perturb_row d st ligands (S j) row0) as [rest' o] eqn:Erest.
    intros [= <- ->]. destruct (IH _ _ Erest) as [Hlen Hrest].
    split; [cbn; now rewrite Hlen|].
    intros [|k] z0 Hk; cbn in Hk.
    + injection Hk as <-. exists z'. rewrite Nat.add_0_r. now split.
    + destruct (Hrest k z0 Hk) as (z1 & Hz1 & Hp). exists z1.
      rewrite Nat.add_succ_r. now split.
Qed.

Lemma fill_ok (d : pydict num) stoich ligands n :
  forall species_dict rows obs fold,
  fill d stoich ligands n species_dict = ((rows, obs, fold), Ok tt) ->
  obs = map (fun '(_, sp) => observable sp) species_dict
  /\ fold = map (fun '(_, sp) => folded sp) species_dict
  /\ length rows = length species_dict
  /\ List.Forall (fun row => length row = n) rows
  /\ forall idx name sp row,
       species_dict !! idx = Some (name, sp) -> rows !! idx = Some row ->
       perturb_row d (sdict_get stoich name) ligands 0 (repeat (dG0 sp) n)
       = (row, Ok tt).
Proof.
  induction species_dict as [|[name sp] rest IH]; intros rows obs fold;
    cbn [fill].
  - intros [= <- <- <-]. repeat split; try constructor.
    intros idx name sp row Hidx. discriminate.
  - destruct (perturb_row d (sdict_get stoich name) ligands 0
                (repeat (dG0 sp) n)) as [row [[]| |]] eqn:Erow;
      try (intros [= _ _ _ Hbad]; discriminate Hbad).
    destruct (fill d stoich ligands n rest) as [[[rows' obs'] fold'] o]
      eqn:Erest.
    intros [= <- <- <- ->].
    destruct (IH _ _ _ eq_refl) as (-> & -> & Hlen & Hrows & Hrow).
    split; [reflexivity|]. split; [reflexivity|].
    split; [cbn; now rewrite Hlen|].
    split.
    { constructor; [|exact Hrows].
      apply perturb_row_ok in Erow as [Hl _].
      now rewrite Hl, repeat_length. }
    intros [|idx] name' sp' row' Hidx Hr; cbn in Hidx, Hr.
    + injection Hidx as <- <-. now injection Hr as <-.
    + eapply Hrow; eassumption.
Qed.

(** The dictionary of conditions after a call of [_build_z_matrix],
    whether it returns or raises: once the number of conditions is read the
    dictionary handed in is completed where it is, and no other dictionary
    of the store is touched. *)
Lemma build_heap l (w : world num) o w' d1 :
  heap w !! l = Some d1 ->
  _build_z_matrix l w = (o, w') ->
  match num_conditions_of d1 with
  | Ok n => heap w' = <[l := completed (_ligand_list (self w)) d1 n]> (heap w)
  | Raise e => o = Raise e /\ w' = w
  | OutOfFuel => o = OutOfFuel /\ w' = w
  end.
Proof.
  intros Hd1.
  unfold _build_z_matrix, bind, get_self, deref, store, lift, set_self, ret.
  unfold pydict in *. rewrite Hd1. cbn [of_option].
  destruct d1 as [|[k v] d1]; cbn [num_conditions_of].
  - cbn [self heap].
    destruct (stoich_table _ _) as [stoich| |];
      try (intros [= _ <-]; reflexivity).
    destruct (fill _ stoich _ _ _) as [[[rows obs] fold] [[]| |]];
      destruct (built (self w)); intros [= _ <-]; reflexivity.
  - destruct (value_len v) as [n| |]; try (intros [= <- <-]; now split).
    cbn [self heap].
    destruct (stoich_table _ _) as [stoich| |];
      try (intros [= _ <-]; reflexivity).
    destruct (fill _ stoich _ _ _) as [[[rows obs] fold] [[]| |]];
      destruct (built (self w)); intros [= _ <-]; reflexivity.
Qed.

(** A call of [_build_z_matrix] that returns, step by step. *)
Lemma build_run l (w : world num) w' d1 :
  heap w !! l = Some d1 ->
  _build_z_matrix l w = (Ok tt, w') ->
  exists n stoich rows,
    num_conditions_of d1 = Ok n
    /\ stoich_table (self w) (completed (_ligand_list (self w)) d1 n)
       = Ok stoich
    /\ fill (completed (_ligand_list (self w)) d1 n) stoich
            (_ligand_list (self w)) n (_species_dict (self w))
       = ((rows,
           map (fun '(_, sp) => observable sp) (_species_dict (self w)),
           map (fun '(_, sp) => folded sp) (_species_dict (self w))), Ok tt)
    /\ w' = mkworld
              (mkens (_gas_constant (self w)) (_species_dict (self w))
                 (_species_list (self w)) (_ligand_list (self w))
                 (_max_allowed (self w))
                 (Some (mkz rows
                          (map (fun '(_, sp) => observable sp)
                               (_species_dict (self w)))
                          (map (fun '(_, sp) => folded sp)
                               (_species_dict (self w)))
                          (Some (map negb (map (fun '(_, sp) => observable sp)
                                               (_species_dict (self w)))))
                          (Some (map negb (map (fun '(_, sp) => folded sp)
                                               (_species_dict (self w))))))))
              (<[l := completed (_ligand_list (self w)) d1 n]> (heap w))
              (read_ligand_dict_default w).
Proof.
  intros Hd1 Hrun. unfold _build_z_matrix in Hrun.
  step Hrun as ens Eens. injection Eens as <-.
  step Hrun as d Ed. unfold pydict in *. rewrite Hd1 in Ed.
  injection Ed as <-.
  step Hrun as dn Edn. destruct dn as [d n].
  assert (Hn : s = w /\ num_conditions_of d1 = Ok n
               /\ fold_left
                    (fun d lig =>
                       if sdict_mem lig d then d
                       else sdict_set lig (Array (repeat num0 n)) d)
                    (_ligand_list (self w)) d
                  = completed (_ligand_list (self w)) d1 n).
  { destruct d1 as [|[k v] d1].
    - unfold ret in Edn. now injection Edn as <- <- <-.
    - step Edn as n' En. unfold ret in Edn. now injection Edn as <- <- <-. }
  destruct Hn as (-> & Hn & Hd). rewrite Hd in Hrun. clear Edn Hd.
  step Hrun as u Estore. unfold store in Estore.
  inversion Estore; subst; clear Estore.
  step Hrun as stoich Estoich.
  cbn [self] in Hrun.
  destruct (fill _ stoich _ n _) as [[[rows obs] fold] filled] eqn:Efill.
  step Hrun as u' Eset. clear Eset u'.
  step Hrun as u'' Efilled. subst filled. destruct u''.
  unfold set_self in Hrun. injection Hrun as <-.
  destruct (fill_ok _ _ _ _ _ _ _ _ Efill) as (-> & -> & _).
  exists n, stoich, rows. split; [exact Hn|]. split; [exact Estoich|].
  split; [exact Efill|]. reflexivity.
Qed.

End Build.

(** *** The caller's dictionary *)

Section Completion.
Context {num : Type} `{RingOps num}.

(** X26.  [_build_z_matrix] writes into the dictionary of conditions it
    is handed.  Once the number of conditions is read off it, and whether
    the call then returns or raises: every ligand of the ensemble that had
    no entry has one, an array of zeros with one zero per condition; the
    entries that were there are as they were; no other key has appeared;
    and no other dictionary of the store is touched. *)
Theorem build_z_matrix_completes_dictionary l (w : world num) o w' d1 n :
  heap w !! l = Some d1 ->
  num_conditions_of d1 = Ok n ->
  _build_z_matrix l w = (o, w') ->
  exists d',
    heap w' !! l = Some d'
    /\ (forall lig, In lig (_ligand_list (self w)) ->
                    sdict_mem lig d1 = false ->
                    sdict_get d' lig = Some (Array (repeat num0 n)))
    /\ (forall k v, sdict_get d1 k = Some v -> sdict_get d' k = Some v)
    /\ (forall k, sdict_mem k d' = true ->
                  sdict_mem k d1 = true \/ In k (_ligand_list (self w)))
    /\ (forall l', l' <> l -> heap w' !! l' = heap w !! l')
    /\ length (heap w') = length (heap w).
Proof.
  intros Hd1 Hn Hrun.
  pose proof (build_heap l w o w' d1 Hd1 Hrun) as Hheap.
  rewrite Hn in Hheap. rewrite Hheap.
  exists (completed (_ligand_list (self w)) d1 n).
  split; [apply list_lookup_insert_eq; eapply lookup_lt_Some; eauto|].
  split; [intros lig; now apply completed_missing|].
  split; [intros k v; apply completed_keeps|].
  split; [intros k; apply completed_keys|].
  split; [intros l' Hl'; now apply list_lookup_insert_ne|].
  apply length_insert.
Qed.

End Completion.

Lemma keys_map_values {V W} (f : V -> W) (d : list (string * V)) :
  map fst (map (fun '(lig, v) => (lig, f v)) d) = map fst d.
Proof.
  induction d as [|[lig v] d IH]; cbn; [reflexivity|now rewrite IH].
Qed.

(** *** The species list follows the species dictionary *)

Section Order.
Context {num : Type} `{RingOps num} `{!Checks num}.

Lemma sdict_set_keys {V} (d : list (string * V)) k v :
  map fst (sdict_set k v d)
  = if sdict_mem k d then map fst d else map fst d ++ [k].
Proof.
  unfold sdict_mem. induction d as [|[k' v'] d IH]; cbn; [reflexivity|].
  destruct (String.eqb k' k) eqn:E; cbn; [reflexivity|].
  rewrite IH. now destruct (sdict_get d k).
Qed.

(** [add_species] keeps the order the rows of the matrix rely on: a call
    that returns has added the name at the end of both. *)
Lemma add_species_keeps_order name dG0 observable folded ligands w w' :
  _species_list (self w) = map fst (_species_dict (self w)) ->
  add_species name dG0 observable folded ligands w = (Ok tt, w') ->
  _species_list (self w') = map fst (_species_dict (self w'))
  /\ _species_list (self w') = _species_list (self w) ++ [name].
Proof.
  intros Horder Hrun. unfold add_species in Hrun.
  step Hrun as ens Eens. injection Eens as <-.
  destruct (sdict_mem name (_species_dict (self w))) eqn:Hnew;
    [discriminate|].
  step Hrun as checked Echecked.
  step Hrun as u Eset. clear Eset u.
  step Hrun as u Eloop. destruct u.
  step Hrun as ens Eens. injection Eens as <-.
  unfold set_self in Hrun. injection Hrun as <-. cbn.
  set (P := fun s : world num =>
              _species_list (self s) = _species_list (self w)
              /\ map fst (_species_dict (self s))
                 = map fst (_species_dict (self w)) ++ [name]).
  assert (HP : P s).
  { eapply (for_each_keeps P); [| |exact Eloop].
    - intros [lig value] s0 u s' [Hl Hd] Hpass.
      step Hpass as v Ev.
      step Hpass as ens Eens. injection Eens as <-.
      destruct (sdict_get (_species_dict (self s0)) name) as [sp|] eqn:Esp;
        [|discriminate].
      unfold set_self in Hpass. injection Hpass as _ <-.
      unfold P. cbn [self _species_dict _species_list].
      split; [exact Hl|].
      rewrite sdict_set_keys. unfold sdict_mem. now rewrite Esp.
    - unfold P. cbn [self _species_dict _species_list].
      split; [reflexivity|].
      rewrite sdict_set_keys. now rewrite Hnew. }
  destruct HP as [Hl Hd]. rewrite Hl, Hd, Horder. now split.
Qed.

End Order.

(** *** [get_species_dG] in exact arithmetic *)



Section Linear.
Context {num : Type} `{RingOps num} `{!Checks num}.



Hypothesis ring_laws : ring_theory num0 num1 nadd nmul nsub nopp eq.
Add Ring num_ring : ring_laws.


(** The closed form has slope minus the stoichiometry in each potential:
    raising the potential of one ligand by [delta] under condition [j]
    raises the bound energy by [delta] times the stoichiometry of that
    ligand. *)
Lemma bound_energy_slope ligands (d d' : pydict num) sp j lig0 delta :
  List.NoDup ligands -> In lig0 ligands ->
  potential d' lig0 j = nadd (potential d lig0 j) delta ->
  (forall lig, lig <> lig0 -> potential d' lig j = potential d lig j) ->
  bound_energy ligands d' sp j
  = nadd (bound_energy ligands d sp j) (nmul delta (stoich_of sp lig0)).
Proof.
  intros Hnd Hin Hraised Hothers.
  assert (Hsame : forall ligs, ~ In lig0 ligs ->
            bound_energy ligs d' sp j = bound_energy ligs d sp j).
  { induction ligs as [|l ligs IH]; intros Hout; [reflexivity|].
    cbn [bound_energy fold_right] in *.
    fold (bound_energy ligs d' sp j). fold (bound_energy ligs d sp j).
    rewrite IH, Hothers; [reflexivity| |]; cbn in Hout; intuition congruence. }
  induction Hnd as [|l ligs Hl Hnd IH]; [destruct Hin|].
  cbn [bound_energy fold_right].
  fold (bound_energy ligs d' sp j). fold (bound_energy ligs d sp j).
  destruct (String.eqb l lig0) eqn:E.
  - apply String.eqb_eq in E. subst l.
    rewrite Hsame by assumption. rewrite Hraised. ring.
  - apply String.eqb_neq in E. destruct Hin as [->|Hin]; [congruence|].
    rewrite IH by assumption. rewrite Hothers by assumption. ring.
Qed.



(** The typed numbers of the model are floats already: the assumption on
    [check_float], which is not at hand, is that it hands them back. *)
Hypothesis check_float_accepts : forall v, check_float v None true = Ok v.



End Linear.

(** *** The shift of [_get_weights] in exact arithmetic *)

Lemma map_lookup {A B} (f : A -> B) (l : list A) i y :
  map f l !! i = Some y -> exists x, l !! i = Some x /\ y = f x.
Proof.
  revert i. induction l as [|x l IH]; intros [|i]; cbn; try discriminate.
  - intros [= <-]. eauto.
  - apply IH.
Qed.

Section Ratios.
Context {num : Type} `{FloatOps num}.

Lemma zip_with_lookup (f : num -> num -> num) a : forall b j w,
  zip_with f a b !! j = Some w ->
  exists x y, a !! j = Some x /\ b !! j = Some y /\ w = f x y.
Proof.
  induction a as [|x a IH]; intros [|y b] [|j] w; cbn; try discriminate.
  - intros [= <-]. eauto.
  - apply IH.
Qed.

Lemma broadcast2_entry (f : num -> num -> num) a b r j w :
  broadcast2 f a b = Ok r -> r !! j = Some w ->
  exists x y, entry a j = Some x /\ entry b j = Some y /\ w = f x y.
Proof.
  unfold broadcast2. destruct (length a =? length b)%nat eqn:E.
  - apply Nat.eqb_eq in E. intros [= <-] Hw.
    apply zip_with_lookup in Hw as (x & y & Ha & Hb & ->).
    exists x, y. repeat split.
    + destruct a as [|a0 [|a1 a]]; try exact Ha.
      destruct j; cbn in Ha; [exact Ha|discriminate].
    + destruct b as [|b0 [|b1 b]]; try exact Hb.
      destruct j; cbn in Hb; [exact Hb|discriminate].
  - destruct a as [|a0 [|a1 a]].
    + destruct b as [|y [|]]; try discriminate.
      intros [= <-]. discriminate.
    + intros [= <-] Hw. apply map_lookup in Hw as (y & Hb & ->).
      exists a0, y. repeat split.
      destruct b as [|b0 [|b1 b]]; try exact Hb. discriminate.
    + destruct b as [|y [|]]; try discriminate.
      intros [= <-] Hw.
      change (map (fun x => f x y) (a0 :: a1 :: a) !! j = Some w) in Hw.
      apply map_lookup in Hw as (x & Ha & ->).
      exists x, y. repeat split. exact Ha.
Qed.

(** The numbers are exact: the exponential turns sums into products and
    never vanishes, and a common non-zero factor cancels in a quotient. *)
Hypothesis exp_add : forall a s, nexp (nadd a s) = nmul (nexp a) (nexp s).
Hypothesis exp_nonzero : forall s, nexp s <> num0.
Hypothesis div_cancel : forall x y c,
  c <> num0 -> ndiv (nmul x c) (nmul y c) = ndiv x y.

(** X24.  In exact arithmetic the shift of [_get_weights] leaves the
    ratio of two weights of one condition as it was: it is the ratio of the
    exponentials of the exponents before the shift. *)
Lemma shift_keeps_ratios ens mut_energy temperature weights :
  _get_weights ens mut_energy temperature = Ok weights ->
  exists z perturbed exponents,
    built ens = Some z
    /\ add_column (_z_matrix z) mut_energy = Ok perturbed
    /\ collect (fun row =>
                 broadcast2 nmul
                   (map nopp
                      (map (fun t => ndiv num1 (nmul (_gas_constant ens) t))
                           temperature)) row) perturbed = Ok exponents
    /\ forall i k j ri rk wi wk,
         weights !! i = Some ri -> ri !! j = Some wi ->
         weights !! k = Some rk -> rk !! j = Some wk ->
         exists ei ek xi xk,
           exponents !! i = Some ei /\ entry ei j = Some xi
           /\ exponents !! k = Some ek /\ entry ek j = Some xk
           /\ ndiv wi wk = ndiv (nexp xi) (nexp xk).
Proof.
  unfold _get_weights. intros Hrun.
  destruct (built ens) as [z|]; [|discriminate]. cbn [of_option] in Hrun.
  destruct (add_column (_z_matrix z) mut_energy) as [perturbed| |] eqn:Eadd;
    try discriminate.
  destruct (collect _ perturbed) as [exponents| |] eqn:Eexp; try discriminate.
  destruct (column_max exponents) as [top| |]; try discriminate.
  destruct (collect _ exponents) as [shifted| |] eqn:Eshift;
    try discriminate.
  injection Hrun as <-.
  exists z, perturbed, exponents.
  split; [reflexivity|]. split; [exact Eadd|]. split; [exact Eexp|].
  intros i k j ri rk wi wk Hi Hwi Hk Hwk.
  apply map_lookup in Hi as (si & Hsi & ->), Hk as (sk & Hsk & ->).
  apply map_lookup in Hwi as (vi & Hvi & ->), Hwk as (vk & Hvk & ->).
  destruct (collect_lookup _ _ _ Eshift _ _ Hsi) as (ei & Hei & Hbi).
  destruct (collect_lookup _ _ _ Eshift _ _ Hsk) as (ek & Hek & Hbk).
  destruct (broadcast2_entry _ _ _ _ _ _ Hbi Hvi) as (xi & s & Hxi & Hs & ->).
  destruct (broadcast2_entry _ _ _ _ _ _ Hbk Hvk)
    as (xk & s' & Hxk & Hs' & ->).
  assert (s' = s) as -> by congruence.
  exists ei, ek, xi, xk. repeat split; try assumption.
  rewrite !exp_add. apply div_cancel, exp_nonzero.
Qed.

End Ratios.

(** *** Adding species *)

Section Species.
Context {num : Type} `{FloatOps num} `{!Checks num}.

(** The list of ligands grows at its end, by the ligands not yet in it. *)
Lemma ligand_list_grows (ligs : list string) : forall l,
  let l' := fold_left (fun l lig => if existsb (String.eqb lig) l then l
                                    else l ++ [lig]) ligs l in
  (exists more, l' = l ++ more)
  /\ (forall x, In x l' <-> In x l \/ In x ligs)
  /\ (List.NoDup l -> List.NoDup l').
Proof.
  induction ligs as [|lig ligs IH]; intros l; cbn.
  - split; [exists []; now rewrite app_nil_r|]. split; [tauto|auto].
  - destruct (existsb (String.eqb lig) l) eqn:E.
    + destruct (IH l) as (Hmore & Hin & Hnd).
      split; [exact Hmore|]. split; [|exact Hnd].
      intros x. rewrite Hin. split; [tauto|].
      intros [Hx|[<-|Hx]]; auto. left.
      apply existsb_exists in E as (y & Hy & Ey).
      apply String.eqb_eq in Ey. now subst.
    + destruct (IH (l ++ [lig])) as ([more Hmore] & Hin & Hnd).
      split; [exists (lig :: more); rewrite Hmore, <- app_assoc; reflexivity|].
      split.
      * intros x. rewrite Hin, in_app_iff. cbn. tauto.
      * intros Hl. apply Hnd.
        apply List.NoDup_app; [exact Hl|repeat constructor; intros []|].
        intros x Hx [<-|[]].
        assert (existsb (String.eqb lig) l = true) as Hex; [|congruence].
        apply existsb_exists. exists lig. split; [exact Hx|].
        apply String.eqb_refl.
Qed.

(** What the loop over the keyword arguments has done when it is over. *)
Lemma add_species_loop name checked obs fol ligands (w0 : world num) sd1 s u
    s' :
  sd1 = sdict_set name (mkspecies obs fol checked []) (_species_dict (self w0)) ->
  sdict_mem name (_species_dict (self w0)) = false ->
  s = mkworld (mkens (_gas_constant (self w0)) sd1 (_species_list (self w0))
                 (_ligand_list (self w0)) (_max_allowed (self w0))
                 (built (self w0)))
        (heap w0) (read_ligand_dict_default w0) ->
  for_each ligands
    (fun '(lig, value) =>
       let* value := lift (check_float value (Some num0) true) in
       let* ens := get_self in
       match sdict_get (_species_dict ens) name with
       | Some sp =>
           set_self
             (mkens (_gas_constant ens)
                (sdict_set name (set_stoichiometry sp lig value)
                   (_species_dict ens))
                (_species_list ens) (_ligand_list ens) (_max_allowed ens)
                (built ens))
       | None => raise KeyError
       end) s = (Ok u, s') ->
  exists sp sd',
    s' = mkworld (mkens (_gas_constant (self w0)) sd' (_species_list (self w0))
                    (_ligand_list (self w0)) (_max_allowed (self w0))
                    (built (self w0)))
           (heap w0) (read_ligand_dict_default w0)
    /\ sdict_get sd' name = Some sp
    /\ observable sp = obs /\ folded sp = fol /\ dG0 sp = checked
    /\ (forall lig, sdict_mem lig (stoichiometry sp) = true ->
                    In lig (map fst ligands))
    /\ (forall other, other <> name ->
          sdict_get sd' other = sdict_get (_species_dict (self w0)) other)
    /\ map fst sd' = map fst (_species_dict (self w0)) ++ [name].
Proof.
  intros -> Hnew -> Hloop.
  set (P := fun s' : world num =>
    exists sp sd',
      s' = mkworld (mkens (_gas_constant (self w0)) sd'
                      (_species_list (self w0)) (_ligand_list (self w0))
                      (_max_allowed (self w0)) (built (self w0)))
             (heap w0) (read_ligand_dict_default w0)
      /\ sdict_get sd' name = Some sp
      /\ observable sp = obs /\ folded sp = fol /\ dG0 sp = checked
      /\ (forall lig, sdict_mem lig (stoichiometry sp) = true ->
                      In lig (map fst ligands))
      /\ (forall other, other <> name ->
            sdict_get sd' other = sdict_get (_species_dict (self w0)) other)
      /\ map fst sd' = map fst (_species_dict (self w0)) ++ [name]).
  change (P s'). eapply (for_each_keeps_in P); [| |exact Hloop].
  - intros [lig value] s0 u0 s1 Hin (sp & sd' & -> & Hsp & Ho & Hf & Hd & Hl
                                      & Hother & Hkeys) Hpass.
    step Hpass as v Ev.
    step Hpass as ens Eens. injection Eens as <-.
    cbn [self _species_dict] in Hpass. rewrite Hsp in Hpass.
    unfold set_self in Hpass. injection Hpass as _ <-. cbn.
    exists (set_stoichiometry sp lig v), (sdict_set name (set_stoichiometry sp lig v) sd').
    split; [reflexivity|].
    split; [rewrite sdict_get_set, String.eqb_refl; reflexivity|].
    split; [exact Ho|]. split; [exact Hf|]. split; [exact Hd|].
    split; [|split].
    + intros lig' Hmem. cbn [set_stoichiometry stoichiometry] in Hmem.
      unfold sdict_mem in Hmem. rewrite sdict_get_set in Hmem.
      destruct (String.eqb lig lig') eqn:E.
      * apply String.eqb_eq in E as <-.
        apply in_map_iff. now exists (lig, value).
      * apply Hl. exact Hmem.
    + intros other Hne. rewrite sdict_get_set.
      destruct (String.eqb name other) eqn:E; [|now apply Hother].
      apply String.eqb_eq in E. congruence.
    + rewrite sdict_set_keys. unfold sdict_mem. now rewrite Hsp.
  - exists (mkspecies obs fol checked []),
      (sdict_set name (mkspecies obs fol checked [])
         (_species_dict (self w0))).
    split; [reflexivity|].
    split; [rewrite sdict_get_set, String.eqb_refl; reflexivity|].
    repeat split.
    + intros lig Hmem. discriminate Hmem.
    + intros other Hne. rewrite sdict_get_set.
      destruct (String.eqb name other) eqn:E; [|reflexivity].
      apply String.eqb_eq in E. congruence.
    + rewrite sdict_set_keys. now rewrite Hnew.
Qed.

(** A call of [add_species] that returns, step by step. *)
Lemma add_species_run name dG0 obs fol ligands w w' :
  add_species name dG0 obs fol ligands w = (Ok tt, w') ->
  exists sp sd',
    sdict_mem name (_species_dict (self w)) = false
    /\ check_float dG0 None true = Ok (Ensemble.dG0 sp)
    /\ w' = mkworld
              (mkens (_gas_constant (self w)) sd'
                 (_species_list (self w) ++ [name])
                 (fold_left (fun l lig => if existsb (String.eqb lig) l then l
                                          else l ++ [lig])
                            (map fst ligands) (_ligand_list (self w)))
                 (_max_allowed (self w)) (built (self w)))
              (heap w) (read_ligand_dict_default w)
    /\ sdict_get sd' name = Some sp
    /\ observable sp = obs /\ folded sp = fol
    /\ (forall lig, sdict_mem lig (stoichiometry sp) = true ->
                    In lig (map fst ligands))
    /\ (forall other, other <> name ->
          sdict_get sd' other = sdict_get (_species_dict (self w)) other)
    /\ map fst sd' = map fst (_species_dict (self w)) ++ [name].
Proof.
  intros Hrun. unfold add_species in Hrun.
  step Hrun as ens Eens. injection Eens as <-.
  destruct (sdict_mem name (_species_dict (self w))) eqn:Hnew;
    [discriminate|].
  step Hrun as checked Echecked.
  step Hrun as u Eset. unfold set_self in Eset. injection Eset as <-.
  step Hrun as u' Eloop.
  destruct (add_species_loop name checked obs fol ligands w _ _ _ _
              eq_refl Hnew eq_refl Eloop)
    as (sp & sd' & -> & Hsp & Ho & Hf & Hd & Hl & Hother & Hkeys).
  step Hrun as ens Eens. injection Eens as <-.
  unfold set_self in Hrun. injection Hrun as <-. cbn.
  exists sp, sd'. subst checked. repeat split; assumption.
Qed.

(** X13.  A call of [add_species] that returns has registered the
    species: it is found under its name with the flags and the checked
    [dG0] it was given, the other species are as they were, the name is at
    the end of the list of species, the ligands named are ligands of the
    ensemble, behind those that were, and the dictionaries of the caller
    are untouched.  A second species of that name is refused with
    [ValueError]. *)
Theorem add_species_registers name dG0 obs fol ligands w w' :
  add_species name dG0 obs fol ligands w = (Ok tt, w') ->
  (exists sp,
     sdict_get (_species_dict (self w')) name = Some sp
     /\ observable sp = obs /\ folded sp = fol
     /\ check_float dG0 None true = Ok (Ensemble.dG0 sp))
  /\ (forall other, other <> name ->
        sdict_get (_species_dict (self w')) other
        = sdict_get (_species_dict (self w)) other)
  /\ _species_list (self w') = _species_list (self w) ++ [name]
  /\ (exists more, _ligand_list (self w') = _ligand_list (self w) ++ more)
  /\ (forall lig, In lig (map fst ligands) -> In lig (_ligand_list (self w')))
  /\ heap w' = heap w
  /\ forall dG0' obs' fol' ligands',
       add_species name dG0' obs' fol' ligands' w' = (Raise ValueError, w').
Proof.
  intros Hrun.
  destruct (add_species_run _ _ _ _ _ _ _ Hrun)
    as (sp & sd' & Hnew & Hcheck & -> & Hsp & Ho & Hf & _ & Hother & _).
  cbn [self _species_dict _species_list _ligand_list heap].
  destruct (ligand_list_grows (map fst ligands) (_ligand_list (self w)))
    as (Hmore & Hin & _).
  split; [exists sp; auto|]. split; [exact Hother|].
  split; [reflexivity|]. split; [exact Hmore|].
  split; [intros lig Hlig; apply Hin; now right|].
  split; [reflexivity|].
  intros dG0' obs' fol' ligands'. unfold add_species, bind, get_self.
  cbn [self _species_dict]. unfold sdict_mem. now rewrite Hsp.
Qed.

(** X14.  [add_species] records the species before it checks the
    stoichiometries.  When a stoichiometry is refused, the call raises with
    the species in the dictionary of species and not in the list of
    species; the name can then no longer be added. *)
Theorem add_species_failure_leaves_species name dG0 obs fol ligands w w' e
    checked :
  sdict_mem name (_species_dict (self w)) = false ->
  check_float dG0 None true = Ok checked ->
  add_species name dG0 obs fol ligands w = (Raise e, w') ->
  sdict_mem name (_species_dict (self w')) = true
  /\ _species_list (self w') = _species_list (self w)
  /\ forall dG0' obs' fol' ligands',
       add_species name dG0' obs' fol' ligands' w' = (Raise ValueError, w').
Proof.
  intros Hnew Hcheck Hrun.
  set (Q := fun s : world num =>
              sdict_mem name (_species_dict (self s)) = true
              /\ _species_list (self s) = _species_list (self w)).
  enough (HQ : Q w').
  { destruct HQ as [Hmem Hlist]. repeat split; try assumption.
    intros dG0' obs' fol' ligands'. unfold add_species, bind, get_self.
    now rewrite Hmem. }
  unfold add_species in Hrun.
  apply bind_raises in Hrun as [Hr|(ens & s1 & Eens & Hrun)];
    [discriminate|].
  injection Eens as <- <-. rewrite Hnew in Hrun.
  apply bind_raises in Hrun as [Hr|(c & s1 & Ec & Hrun)];
    [unfold lift in Hr; rewrite Hcheck in Hr; discriminate|].
  unfold lift in Ec. injection Ec as _ <-.
  apply bind_raises in Hrun as [Hr|(u & s1 & Eset & Hrun)];
    [discriminate|].
  unfold set_self in Eset. injection Eset as _ <-.
  apply bind_raises in Hrun as [Hr|(u' & s1 & Eloop & Hrun)];
    [|discriminate].
  match type of Hr with
  | for_each ligands ?body ?s = _ =>
      assert (Hkeeps : keeps Q (for_each ligands body));
      [|specialize (Hkeeps s); rewrite Hr in Hkeeps; apply Hkeeps]
  end.
  - apply keeps_for_each. intros [lig value].
    apply keeps_bind; [apply keeps_lift|]. intros v.
    intros s [Hmem Hlist]. unfold bind, get_self.
    destruct (sdict_get (_species_dict (self s)) name) as [sp|];
      [|split; assumption].
    unfold set_self, Q, sdict_mem. cbn.
    rewrite sdict_get_set, String.eqb_refl. auto.
  - unfold Q, sdict_mem. cbn.
    rewrite sdict_get_set, String.eqb_refl. auto.
Qed.

(** X15.  The constructor makes a consistent ensemble and [add_species]
    keeps it so when it returns: the list of species follows the
    dictionary of species, no species and no ligand is listed twice, and
    every ligand a species binds is a ligand of the ensemble. *)
Theorem add_species_keeps_consistent :
  (forall gas_constant ens, init gas_constant = Ok ens -> consistent ens)
  /\ forall name dG0 obs fol ligands w w',
       consistent (self w) ->
       add_species name dG0 obs fol ligands w = (Ok tt, w') ->
       consistent (self w').
Proof.
  split.
  - intros gas_constant ens. unfold init.
    destruct (check_float gas_constant (Some num0) false); try discriminate.
    intros [= <-]. repeat split; cbn; try constructor.
    intros name sp lig Hsp. discriminate Hsp.
  - intros name dG0 obs fol ligands w w' (Horder & Hspecies & Hligands & Hbound)
           Hrun.
    destruct (add_species_run _ _ _ _ _ _ _ Hrun)
      as (sp & sd' & Hnew & _ & -> & Hsp & _ & _ & Hl & Hother & Hkeys).
    unfold consistent. cbn [self _species_list _species_dict _ligand_list].
    destruct (ligand_list_grows (map fst ligands) (_ligand_list (self w)))
      as (_ & Hin & Hnd).
    split; [now rewrite Hkeys, Horder|]. split; [|split].
    + apply List.NoDup_app; [exact Hspecies|repeat constructor; intros []|].
      intros x Hx [<-|[]]. rewrite Horder in Hx.
      apply sdict_mem_In in Hx. congruence.
    + now apply Hnd.
    + intros name' sp' lig Hsp' Hmem. apply Hin.
      destruct (String.eqb name name') eqn:E.
      * apply String.eqb_eq in E as <-.
        assert (sp' = sp) as -> by congruence. right. now apply Hl.
      * apply String.eqb_neq in E. left.
        apply (Hbound name' sp' lig); [|exact Hmem].
        rewrite <- Hother by congruence. exact Hsp'.
Qed.

End Species.

(** *** The shape of the matrix *)

Section Matrix.
Context {num : Type} `{FloatOps num} `{!Checks num}.

(** X16.  [_build_z_matrix], when it returns, has made a matrix with one
    row per species of the dictionary of species and one column per
    condition, the number of conditions being the length of the first
    entry of the dictionary of conditions, or 1 for an empty one; the masks
    have one entry per species, the negative masks are their negations,
    and the species and ligands are as they were. *)
Theorem build_z_matrix_shape l w w' d1 :
  heap w !! l = Some d1 ->
  _build_z_matrix l w = (Ok tt, w') ->
  exists z n,
    built (self w') = Some z
    /\ match d1 with
       | [] => n = 1%nat
       | (_, v) :: _ => value_len v = Ok n
       end
    /\ length (_z_matrix z) = length (_species_dict (self w))
    /\ List.Forall (fun row => length row = n) (_z_matrix z)
    /\ _obs_mask z = map (fun p => observable (snd p)) (_species_dict (self w))
    /\ _folded_mask z = map (fun p => folded (snd p)) (_species_dict (self w))
    /\ _not_obs_mask z = Some (map negb (_obs_mask z))
    /\ _unfolded_mask z = Some (map negb (_folded_mask z))
    /\ _species_dict (self w') = _species_dict (self w)
    /\ _species_list (self w') = _species_list (self w)
    /\ _ligand_list (self w') = _ligand_list (self w).
Proof.
  intros Hd1 Hrun.
  destruct (build_run l w w' d1 Hd1 Hrun)
    as (n & stoich & rows & Hn & _ & Efill & ->).
  destruct (fill_ok _ _ _ _ _ _ _ _ Efill) as (_ & _ & Hlen & Hrows & _).
  eexists _, n. cbn [self built _z_matrix _obs_mask _folded_mask
                     _not_obs_mask _unfolded_mask _species_dict
                     _species_list _ligand_list].
  split; [reflexivity|].
  split.
  { destruct d1 as [|[k v] d1]; cbn in Hn; [now injection Hn|exact Hn]. }
  split; [exact Hlen|]. split; [exact Hrows|].
  assert (Hmask : forall f : species num -> bool,
            map (fun '(_, sp) => f sp) (_species_dict (self w))
            = map (fun p => f (snd p)) (_species_dict (self w))).
  { intros f. apply map_ext. now intros [name sp]. }
  rewrite !Hmask. repeat split.
Qed.

(** X17.  [mut_dict_to_array] gives one energy per species of the list of
    species, in its order: the entry of the dictionary for the species, or
    0 without one.  No dictionary is all zeros, and an entry for a name that
    is not a species is ignored. *)
Theorem mut_dict_to_array_follows_species (ens : ensemble num) :
  (forall mut_energy,
     length (mut_dict_to_array ens mut_energy) = length (_species_list ens))
  /\ mut_dict_to_array ens None = repeat num0 (length (_species_list ens))
  /\ (forall d i s,
        _species_list ens !! i = Some s ->
        mut_dict_to_array ens (Some d) !! i
        = Some match sdict_get d s with Some v => v | None => num0 end)
  /\ (forall d k v,
        ~ In k (_species_list ens) ->
        mut_dict_to_array ens (Some (sdict_set k v d))
        = mut_dict_to_array ens (Some d)).
Proof.
  unfold mut_dict_to_array. repeat split.
  - intros mut_energy. apply length_map.
  - cbn. induction (_species_list ens) as [|s l IH]; cbn; [reflexivity|].
    f_equal. exact IH.
  - intros d i s Hs.
    exact (lookup_map (fun s => match sdict_get d s with
                                | Some v => v
                                | None => num0
                                end) _ _ _ Hs).
  - intros d k v Hk. apply map_ext_in. intros s Hs.
    rewrite sdict_get_set. destruct (String.eqb k s) eqn:E; [|reflexivity].
    apply String.eqb_eq in E. now subst.
Qed.

(** One energy more than the matrix has rows cannot be added to it. *)
Lemma weights_of_stale_matrix (ens : ensemble num) z mut_energy temperature :
  built ens = Some z ->
  (2 <= length (_z_matrix z))%nat ->
  length (_species_list ens) = S (length (_z_matrix z)) ->
  _get_weights ens (mut_dict_to_array ens mut_energy) temperature
  = Raise ValueError.
Proof.
  intros Hz Htwo Hlen. unfold _get_weights. rewrite Hz. cbn [of_option].
  unfold add_column.
  assert (Hm : length (mut_dict_to_array ens mut_energy)
               = S (length (_z_matrix z))).
  { unfold mut_dict_to_array. now rewrite length_map. }
  destruct (length _ =? length _)%nat eqn:E;
    [apply Nat.eqb_eq in E; lia|].
  destruct (mut_dict_to_array ens mut_energy) as [|m0 [|m1 arr]];
    cbn in Hm; try lia.
  destruct (_z_matrix z) as [|r0 [|r1 rows]]; cbn in Htwo; try lia.
  reflexivity.
Qed.

(** X18.  [add_species] leaves the matrix of energies as it is.  After
    [_build_z_matrix] and one more species, on an ensemble of two species
    or more, the fast paths are handed one energy more than the matrix has
    rows and raise [ValueError], until the conditions are read again. *)
Theorem add_species_leaves_matrix_stale l name dG0 obs fol ligands w0 w w'
    mut_energy temperature :
  consistent (self w0) ->
  (2 <= length (_species_list (self w0)))%nat ->
  _build_z_matrix l w0 = (Ok tt, w) ->
  add_species name dG0 obs fol ligands w = (Ok tt, w') ->
  built (self w') = built (self w)
  /\ get_fx_obs_fast (self w') (mut_dict_to_array (self w') mut_energy)
       temperature = Raise ValueError
  /\ get_dG_obs_fast (self w') (mut_dict_to_array (self w') mut_energy)
       temperature = Raise ValueError.
Proof.
  intros (Horder & _) Htwo Hbuild Hadd.
  destruct (heap w0 !! l) as [d1|] eqn:Hd1.
  2:{ unfold _build_z_matrix, bind, get_self, deref in Hbuild.
      unfold pydict in *. rewrite Hd1 in Hbuild. discriminate. }
  destruct (build_run l w0 w d1 Hd1 Hbuild)
    as (n & stoich & rows & _ & _ & Efill & ->).
  destruct (fill_ok _ _ _ _ _ _ _ _ Efill) as (_ & _ & Erows & _).
  destruct (add_species_run _ _ _ _ _ _ _ Hadd)
    as (sp & sd' & _ & _ & -> & _).
  cbn [self built _species_list] in *.
  split; [reflexivity|].
  rewrite Horder, length_map in Htwo.
  match goal with
  | |- context [get_fx_obs_fast ?ens _ _] =>
      assert (Hweights : _get_weights ens (mut_dict_to_array ens mut_energy)
                           temperature = Raise ValueError)
  end.
  { eapply weights_of_stale_matrix; [reflexivity| |];
      cbn [_z_matrix _species_list]; rewrite ?length_app, Erows; [lia|].
    rewrite Horder, length_map. cbn. lia. }
  unfold get_fx_obs_fast, get_dG_obs_fast. now rewrite Hweights.
Qed.

End Matrix.

(** *** The observable columns of the frame *)

Section Columns.
Context {num : Type} `{FloatOps num} `{!Checks num}.

Lemma zip_with_at {A B C} (f : A -> B -> C) (a : list A) : forall b j x y,
  a !! j = Some x -> b !! j = Some y -> zip_with f a b !! j = Some (f x y).
Proof.
  induction a as [|x0 a IH]; intros [|y0 b] [|j] x y Hx Hy; cbn in *;
    try discriminate.
  - now injection Hx as ->; injection Hy as ->.
  - now apply IH.
Qed.

(** What [select] returns, as a function of the mask and the array. *)
Lemma select_ok {A} mask (a r : list A) :
  select mask a = Ok r ->
  length mask = length a
  /\ r = map snd (List.filter (fun p => fst p) (combine mask a)).
Proof.
  unfold select. destruct (length mask =? length a)%nat eqn:E;
    [|discriminate].
  apply Nat.eqb_eq in E. now intros [= <-].
Qed.

Lemma selected_zip_with {A B C} (f : A -> B -> C) mask : forall a b,
  length a = length mask -> length b = length mask ->
  map snd (List.filter (fun p => fst p) (combine mask (zip_with f a b)))
  = zip_with f
      (map snd (List.filter (fun p => fst p) (combine mask a)))
      (map snd (List.filter (fun p => fst p) (combine mask b))).
Proof.
  induction mask as [|m mask IH]; intros [|x a] [|y b] Ha Hb; cbn in *;
    try discriminate; [reflexivity|].
  destruct m; cbn; [f_equal|]; apply IH; lia.
Qed.

Lemma selected_map {A B} (f : A -> B) mask : forall a,
  map snd (List.filter (fun p => fst p) (combine mask (map f a)))
  = map f (map snd (List.filter (fun p => fst p) (combine mask a))).
Proof.
  induction mask as [|m mask IH]; intros [|x a]; cbn; try reflexivity.
  destruct m; cbn; [f_equal|]; apply IH.
Qed.

(** Writing the selected entries of [values] back where they came from. *)
Lemma scatter_selected (a : list num) : forall mask values j y,
  length mask = length a -> length values = length a ->
  mask !! j = Some true -> values !! j = Some y ->
  scatter a mask
    (map snd (List.filter (fun p => fst p) (combine mask values))) !! j
  = Some y.
Proof.
  induction a as [|x a IH]; intros [|m mask] [|v values] [|j] y Hm Hv Hj Hy;
    cbn in *; try discriminate.
  - injection Hj as ->. cbn. exact Hy.
  - destruct m; cbn; apply IH; auto.
Qed.

Lemma zero_mask_at (obs not_obs : list num) j o n :
  obs !! j = Some o -> not_obs !! j = Some n ->
  zero_mask obs not_obs !! j = Some (neqb o num0 || neqb n num0).
Proof.
  intros Ho Hn. unfold zero_mask.
  apply zip_with_at.
  - exact (lookup_map (fun x => neqb x num0) _ _ _ Ho).
  - exact (lookup_map (fun x => neqb x num0) _ _ _ Hn).
Qed.

(** X19.  The observable columns of the frame [get_obs] returns, entry by
    entry, in a frame whose temperature column no ligand and no species
    has replaced.  With [o] and [n] the sums of the weights of the
    observable and of the other species under a condition at temperature
    [T]: [fx_obs] is [o / (o + n)]; [dG_obs] is not-a-number where [o] or
    [n] is zero, and [(-1 / (R * T)) * log (o / n)] elsewhere. *)
Theorem get_obs_observable_columns mut_energy ligand_dict temperature w out
    w' :
  get_obs mut_energy ligand_dict temperature w = (Ok out, w') ->
  temperature_kept w' ->
  exists checked z not_obs_mask weights obs not_obs Ts fx dG,
    check_mut_energy
      match mut_energy with
      | Some d => d
      | None => map (fun '(s, _) => (s, num0)) (_species_dict (self w))
      end = Ok checked
    /\ sdict_get out "temperature" = Some (Array Ts)
    /\ sdict_get out "fx_obs" = Some (Array fx)
    /\ sdict_get out "dG_obs" = Some (Array dG)
    /\ built (self w') = Some z
    /\ _not_obs_mask z = Some not_obs_mask
    /\ _get_weights (self w') (mut_dict_to_array (self w') (Some checked)) Ts
       = Ok weights
    /\ masked_sum weights (_obs_mask z) = Ok obs
    /\ masked_sum weights not_obs_mask = Ok not_obs
    /\ length obs = length Ts
    /\ length not_obs = length Ts
    /\ forall j T o n,
         Ts !! j = Some T ->
         obs !! j = Some o -> not_obs !! j = Some n ->
         fx !! j = Some (ndiv o (nadd o n))
         /\ dG !! j
            = Some (if neqb o num0 || neqb n num0 then nan
                    else nmul (ndiv (nopp num1)
                                 (nmul (_gas_constant (self w')) T))
                              (nlog (ndiv o n))).
Proof.
  intros Hrun Hkept. destruct (get_obs_ok _ _ _ _ _ _ Hrun).
  exists checked, z, not_obs_mask, weights, obs, not_obs,
    (df_temperature df), (fx_obs df), (dG_obs df).
  split; [assumption|].
  split; [eapply frame_temperature; eassumption|].
  split; [eapply DataFrame_column; [exact frame_ok|apply columns_fx_obs]|].
  split; [eapply DataFrame_column; [exact frame_ok|apply columns_dG_obs]|].
  do 5 (split; [assumption|]).
  set (mask := zero_mask obs not_obs) in *.
  apply select_ok in t_sel_ok as [HlenT ->].
  apply select_ok in obs_sel_ok as [Hleno ->].
  apply select_ok in not_obs_sel_ok as [Hlenn ->].
  rewrite length_map in HlenT, Hleno, Hlenn.
  split; [congruence|]. split; [congruence|].
  intros j T o n HT Ho Hn.
  split.
  { rewrite fx_obs_ok. apply zip_with_at; [exact Ho|].
    now apply zip_with_at. }
  pose proof (zero_mask_at obs not_obs j o n Ho Hn) as Hmask.
  fold mask in Hmask.
  destruct (neqb o num0 || neqb n num0) eqn:Ezero.
  - rewrite (mask_assign_untouched _ _ _ _ j dG_obs_ok).
    + eapply mask_fill_at; eassumption.
    + now apply (lookup_map negb) in Hmask.
  - set (c := fun t => ndiv (nopp num1) (nmul (_gas_constant (self w')) t))
      in *.
    set (values := zip_with nmul (map c (df_temperature df))
                     (map nlog (zip_with ndiv obs not_obs))).
    assert (Hrhs : rhs = map snd (List.filter (fun p => fst p)
                                    (combine (map negb mask) values))).
    { unfold values.
      rewrite selected_zip_with, !selected_map, selected_zip_with
        by (rewrite ?length_map, ?length_zip_with; lia).
      unfold broadcast2 in rhs_ok.
      rewrite !length_map, length_zip_with in rhs_ok.
      rewrite !length_map in rhs_ok.
      assert (Hsame : forall (a b : list num),
                length a = length mask -> length b = length mask ->
                length (List.filter (fun p => fst p)
                          (combine (map negb mask) a))
                = length (List.filter (fun p => fst p)
                            (combine (map negb mask) b))).
      { clear. induction mask as [|m mask IH]; intros [|x a] [|y b] Ha Hb;
          cbn in *; try discriminate; [reflexivity|].
        destruct m; cbn; [|f_equal]; apply IH; lia. }
      rewrite (Hsame (df_temperature df) obs) in rhs_ok by lia.
      rewrite (Hsame not_obs obs) in rhs_ok by lia.
      rewrite Nat.min_id, Nat.eqb_refl in rhs_ok.
      now injection rhs_ok as <-. }
    assert (Hfilled : length filled = length mask).
    { apply mask_assign_length in filled_ok.
      now rewrite repeat_length in filled_ok. }
    assert (Hvalues : length values = length mask).
    { unfold values. rewrite length_zip_with, !length_map, length_zip_with.
      lia. }
    unfold mask_assign in dG_obs_ok.
    rewrite length_map, Hfilled, Nat.eqb_refl in dG_obs_ok.
    cbn [negb] in dG_obs_ok.
    assert (Hcount : length rhs
                     = length (List.filter (fun b : bool => b)
                                 (map negb mask))).
    { rewrite Hrhs, length_map. clear -Hvalues. clearbody values.
      revert values Hvalues. induction mask as [|m mask IH];
        intros [|v values] Hv; cbn in *; try discriminate; [reflexivity|].
      destruct m; cbn; [|f_equal]; apply IH; lia. }
    rewrite Hcount, Nat.eqb_refl in dG_obs_ok.
    injection dG_obs_ok as <-. rewrite Hrhs.
    apply scatter_selected.
    + now rewrite length_map.
    + congruence.
    + now apply (lookup_map negb) in Hmask.
    + unfold values. apply zip_with_at.
      * now apply (lookup_map c).
      * apply (lookup_map nlog). now apply zip_with_at.
Qed.

End Columns.

(** *** The shape of the weights *)

Lemma collect_each_in {A B} (f : A -> outcome B) (P : B -> Prop) xs :
  forall ys,
  collect f xs = Ok ys ->
  (forall x y, In x xs -> f x = Ok y -> P y) -> List.Forall P ys.
Proof.
  induction xs as [|x xs IH]; cbn; intros ys Hc HP.
  - injection Hc as <-. constructor.
  - destruct (f x) as [b| |] eqn:Ef; try discriminate.
    destruct (collect f xs) as [bs| |]; try discriminate.
    injection Hc as <-. constructor; [apply (HP x); auto|].
    apply IH; [reflexivity|]. intros x' y Hin. apply HP. now right.
Qed.

Section Weights.
Context {num : Type} `{FloatOps num}.

Lemma broadcast2_length (f : num -> num -> num) a b r :
  broadcast2 f a b = Ok r ->
  length r = if (length a =? 1)%nat then length b
             else if (length b =? 1)%nat then length a
             else length a.
Proof.
  unfold broadcast2. destruct (length a =? length b)%nat eqn:E.
  - apply Nat.eqb_eq in E. intros [= <-]. rewrite length_zip_with, <- E.
    rewrite Nat.min_id. destruct (length a =? 1)%nat; [reflexivity|].
    now destruct (length b =? 1)%nat.
  - destruct a as [|x [|x' a]].
    + destruct b as [|y [|y' b]]; try discriminate. intros [= <-].
      reflexivity.
    + intros [= <-]. cbn. apply length_map.
    + destruct b as [|y [|y' b]]; try discriminate. intros [= <-].
      cbn [length Nat.eqb]. now rewrite length_map.
Qed.

(** A matrix with rows of one length and a full column of energies give
    weights with rows of one length, one row per row of the matrix, and
    every weight is an exponential. *)
Lemma weights_shape (ens : ensemble num) z n mut_energy temperature weights :
  built ens = Some z ->
  List.Forall (fun r => length r = n) (_z_matrix z) ->
  length mut_energy = length (_z_matrix z) ->
  _get_weights ens mut_energy temperature = Ok weights ->
  length weights = length (_z_matrix z)
  /\ exists n' exponents,
       List.Forall (fun r => length r = n') exponents
       /\ weights = map (map nexp) exponents.
Proof.
  intros Hz Hn Hm Hrun. unfold _get_weights in Hrun.
  rewrite Hz in Hrun. cbn [of_option] in Hrun.
  unfold add_column in Hrun. rewrite Hm, Nat.eqb_refl in Hrun.
  set (perturbed := zip_with _ (_z_matrix z) mut_energy) in Hrun.
  assert (Hp : List.Forall (fun r => length r = n) perturbed
               /\ length perturbed = length (_z_matrix z)).
  { unfold perturbed. split; [|rewrite length_zip_with; lia].
    clear -Hn. revert mut_energy.
    induction Hn as [|row rows Hrow Hn IH]; intros [|m ms]; cbn;
      constructor; [now rewrite length_map|apply IH]. }
  destruct Hp as [Hp Hplen]. clearbody perturbed.
  set (v := map nopp _) in Hrun.
  destruct (collect _ perturbed) as [w1| |] eqn:E1; try discriminate.
  destruct (column_max w1) as [top| |]; try discriminate.
  set (shift := map _ top) in Hrun.
  destruct (collect _ w1) as [w2| |] eqn:E2; try discriminate.
  injection Hrun as <-.
  pose proof (collect_length _ _ _ E1) as Hlen1.
  pose proof (collect_length _ _ _ E2) as Hlen2.
  split; [rewrite !length_map; congruence|].
  set (n1 := if (length v =? 1)%nat then n
             else if (n =? 1)%nat then length v else length v).
  assert (H1 : List.Forall (fun r => length r = n1) w1).
  { eapply collect_each_in; [exact E1|]. intros row r Hin Hr. cbn in Hr.
    rewrite List.Forall_forall in Hp. specialize (Hp row Hin).
    apply broadcast2_length in Hr. rewrite Hr, Hp. reflexivity. }
  exists (if (n1 =? 1)%nat then length shift else n1), w2.
  split; [|reflexivity].
  eapply collect_each_in; [exact E2|]. intros row r Hin Hr. cbn in Hr.
  rewrite List.Forall_forall in H1. specialize (H1 row Hin).
  apply broadcast2_length in Hr. rewrite Hr, H1.
  destruct (n1 =? 1)%nat; [reflexivity|].
  now destruct (length shift =? 1)%nat.
Qed.

End Weights.

Section Fractions.
Context {num : Type} `{FloatOps num} `{!Checks num}.

(** What a call of [get_obs] that returns has computed for the columns of
    the species. *)
Lemma get_obs_fractions mut_energy ligand_dict temperature w out w' :
  get_obs mut_energy ligand_dict temperature w = (Ok out, w') ->
  _species_dict (self w') = _species_dict (self w)
  /\ _species_list (self w') = _species_list (self w)
  /\ exists (df : columns num) z n weights,
       DataFrame (assigned df) = Ok out
       /\ map fst (df_species df) = _species_list (self w')
       /\ built (self w') = Some z
       /\ List.Forall (fun r => length r = n) (_z_matrix z)
       /\ length (_z_matrix z) = length (_species_dict (self w))
       /\ (2 <= length (_species_dict (self w)))%nat
       /\ (exists checked,
             _get_weights (self w')
               (mut_dict_to_array (self w') (Some checked))
               (df_temperature df) = Ok weights)
       /\ (exists num_conditions,
             check_temperature temperature num_conditions
             = Ok (df_temperature df))
       /\ (exists not_obs_mask obs not_obs,
             masked_sum weights (_obs_mask z) = Ok obs
             /\ masked_sum weights not_obs_mask = Ok not_obs
             /\ length (zero_mask obs not_obs)
                = length (df_temperature df))
       /\ collect (fun '(i, species_name) =>
                     match of_option IndexError (weights !! i) with
                     | Ok w =>
                         Ok (species_name,
                             zip_with ndiv w
                               (column_sum (width weights) weights))
                     | Raise e => Raise e
                     | OutOfFuel => OutOfFuel
                     end)
            (combine (seq 0 (length (_species_list (self w'))))
                     (_species_list (self w')))
          = Ok (df_species df).
Proof.
  intros Hrun.
  assert (Htwo : (2 <= length (_species_dict (self w)))%nat).
  { unfold get_obs, bind, get_self in Hrun.
    destruct (_ <? 2)%nat eqn:Etwo; [discriminate|].
    now apply Nat.ltb_ge in Etwo. }
  destruct (get_obs_ok _ _ _ _ _ _ Hrun).
  destruct (heap w1 !! ligand_dict0) as [d1|] eqn:Hd1.
  2:{ unfold _build_z_matrix, bind, get_self, deref in build_ok.
      unfold pydict in *. rewrite Hd1 in build_ok. discriminate. }
  destruct (build_run _ _ _ _ Hd1 build_ok)
    as (n & stoich & rows & _ & _ & Efill & Hw').
  destruct (fill_ok _ _ _ _ _ _ _ _ Efill) as (_ & _ & Hlen & Hrows & _).
  assert (Hdict : _species_dict (self w') = _species_dict (self w1))
    by (rewrite Hw'; reflexivity).
  assert (Hlist : _species_list (self w') = _species_list (self w1))
    by (rewrite Hw'; reflexivity).
  assert (Hz : _z_matrix z = rows).
  { rewrite Hw' in built_ok. cbn in built_ok. now injection built_ok as <-. }
  rewrite <- Hz in Hlen, Hrows. clear Hw' Efill Hz.
  rewrite checked_world in *.
  split; [exact Hdict|]. split; [exact Hlist|].
  exists df, z, n, weights.
  split; [exact frame_ok|]. split; [exact names_ok|].
  split; [exact built_ok|]. split; [exact Hrows|]. split; [exact Hlen|].
  split; [exact Htwo|].
  split; [exists checked; exact weights_ok|].
  split; [exists num_conditions; exact temperature_ok|].
  split; [|exact species_ok].
  exists not_obs_mask, obs, not_obs.
  split; [exact obs_ok|]. split; [exact not_obs_ok|].
  apply select_length in t_sel_ok as [Hmask _].
  now rewrite length_map in Hmask.
Qed.

Lemma column_sum_length (rows : list (list num)) n : forall acc,
  length acc = n -> List.Forall (fun r => length r = n) rows ->
  length (fold_left (zip_with nadd) rows acc) = n.
Proof.
  induction rows as [|r rows IH]; intros acc Hacc Hrows; [exact Hacc|].
  apply List.Forall_cons_iff in Hrows as [Hr Hrows]. cbn [fold_left].
  apply IH; [|exact Hrows]. rewrite length_zip_with. lia.
Qed.

Lemma masked_sum_length (weights : list (list num)) mask n sums :
  weights <> [] -> List.Forall (fun r => length r = n) weights ->
  masked_sum weights mask = Ok sums -> length sums = n.
Proof.
  intros Hsome Hrows. unfold masked_sum.
  destruct (select mask weights) as [rows| |] eqn:Esel; try discriminate.
  intros [= <-]. apply select_ok in Esel as [_ ->].
  assert (Hwidth : width weights = n).
  { destruct weights as [|r weights]; [contradiction|].
    now apply List.Forall_cons_iff in Hrows as [Hr _]. }
  unfold column_sum. rewrite Hwidth.
  apply column_sum_length; [apply repeat_length|].
  clear Hsome Hwidth. revert mask.
  induction Hrows as [|r weights Hr Hrows IH]; intros [|m mask]; cbn;
    try constructor.
  destruct m; cbn; [constructor; [exact Hr|]|]; apply IH.
Qed.

(** The columns of the species, out of the weights and their total. *)
Lemma fractions_of_weights (f : list num -> list num) (weights : list (list num))
    : forall (names : list string) k (fractions : list (string * list num)),
  length names = length weights ->
  collect (fun '(i, species_name) =>
             match of_option IndexError ((k ++ weights) !! i) with
             | Ok w => Ok (species_name, f w)
             | Raise e => Raise e
             | OutOfFuel => OutOfFuel
             end)
          (combine (seq (length k) (length names)) names) = Ok fractions ->
  map fst fractions = names /\ map snd fractions = map f weights.
Proof.
  induction weights as [|w weights IH]; intros [|name names] k fractions Hlen;
    cbn in Hlen; try discriminate.
  - cbn. now intros [= <-].
  - cbn [length seq combine collect].
    rewrite lookup_app_r by lia. rewrite Nat.sub_diag. cbn [lookup of_option].
    cbn.
    destruct (collect _ _) as [rest| |] eqn:Erest; try discriminate.
    intros [= <-]. cbn.
    specialize (IH names (k ++ [w]) rest ltac:(lia)).
    rewrite length_app, <- app_assoc in IH. cbn in IH.
    rewrite Nat.add_1_r in IH. destruct (IH Erest) as [-> ->]. now split.
Qed.

End Fractions.

(** *** The shift of the weights and the observables *)

Section Shift.
Context {num : Type} `{FloatOps num} `{!Checks num}.




End Shift.

(** *** At concrete ensembles *)

Import Coarse.

(** C3 (fails on the code): ["B"] observable, 2000 above ["A"] under the
    first of two conditions and level with it under the second.  The weight
    of ["B"] underflows to 0 under the first condition; [get_obs] reports
    [dG_obs] as not-a-number there and 0 under the second condition;
    [get_fx_obs_fast] returns the frame's [fx_obs] and [fx_folded];
    [get_dG_obs_fast], on the same ensemble, mutation energies and
    temperatures, raises [ValueError]. *)
Theorem get_dG_obs_fast_raises_where_get_obs_gives_nan :
  let run := get_obs None (Some 1%nat) (Array [q 1; q 1]) binding_world in
  match fst run with
  | Ok df =>
      sdict_get df "temperature" = Some (Array [q 1; q 1])
      /\ sdict_get df "dG_obs" = Some (Array [nan; q 0])
      /\ sdict_get df "fx_obs" = Some (Array [q 0; Some (1 # 2)%Q])
      /\ match sdict_get df "fx_obs", sdict_get df "fx_folded" with
         | Some (Array fx), Some (Array folded) =>
             get_fx_obs_fast (self (snd run)) [q 0; q 0] [q 1; q 1]
             = Ok (fx, folded)
         | _, _ => False
         end
  | _ => False
  end
  /\ mut_dict_to_array (self (snd run)) (Some [("A", q 0); ("B", q 0)])
     = [q 0; q 0]
  /\ get_dG_obs_fast (self (snd run)) [q 0; q 0] [q 1; q 1]
     = Raise ValueError.
Proof. vm_compute. repeat split; reflexivity. Qed.




(** *** The extras at concrete ensembles *)

Lemma mild_run_ok : mild_run = (Ok mild_frame, snd mild_run).
Proof. vm_compute. reflexivity. Qed.

Lemma binding_run_ok : binding_run = (Ok binding_frame, snd binding_run).
Proof. vm_compute. reflexivity. Qed.

(** Neither ensemble has a species, and neither store a ligand, called
    ["temperature"]. *)
Lemma binding_run_kept : temperature_kept (snd binding_run).
Proof.
  split.
  - vm_compute. intuition discriminate.
  - intros [|[|l]] d Hl; vm_compute in Hl; try discriminate;
      injection Hl as <-; reflexivity.
Qed.

Lemma mild_run_kept : temperature_kept (snd mild_run).
Proof.
  split.
  - vm_compute. intuition discriminate.
  - intros [|l] d Hl; vm_compute in Hl; try discriminate;
      injection Hl as <-; reflexivity.
Qed.

Lemma get_fx_obs_fast_agrees_witness :
  exists checked T fx folded,
    check_mut_energy
      (map (fun '(s, _) => (s, num0)) (_species_dict (self binding_world)))
    = Ok checked
    /\ sdict_get binding_frame "temperature" = Some (Array T)
    /\ sdict_get binding_frame "fx_obs" = Some (Array fx)
    /\ sdict_get binding_frame "fx_folded" = Some (Array folded)
    /\ get_fx_obs_fast (self (snd binding_run))
         (mut_dict_to_array (self (snd binding_run)) (Some checked)) T
       = Ok (fx, folded).
Proof.
  apply (get_fx_obs_fast_agrees None (Some 1%nat) (Array [q 1; q 1])
           binding_world binding_frame (snd binding_run)).
  - vm_compute. reflexivity.
  - exact binding_run_kept.
Defined.

Lemma get_dG_obs_fast_agrees_when_unmasked_witness :
  exists checked T dG folded mask,
    check_mut_energy
      (map (fun '(s, _) => (s, num0)) (_species_dict (self mild_world)))
    = Ok checked
    /\ sdict_get mild_frame "temperature" = Some (Array T)
    /\ sdict_get mild_frame "dG_obs" = Some (Array dG)
    /\ sdict_get mild_frame "fx_folded" = Some (Array folded)
    /\ nan_mask (self (snd mild_run))
         (mut_dict_to_array (self (snd mild_run)) (Some checked)) T = Ok mask
    /\ (List.Forall (eq false) mask ->
        get_dG_obs_fast (self (snd mild_run))
          (mut_dict_to_array (self (snd mild_run)) (Some checked)) T
        = Ok (dG, folded)).
Proof.
  apply (get_dG_obs_fast_agrees_when_unmasked None (Some 0%nat)
           (Array [q 1; q 1]) mild_world mild_frame (snd mild_run)).
  - vm_compute. reflexivity.
  - exact mild_run_kept.
Defined.

Lemma get_dG_obs_fast_raises_when_masked_witness :
  exists checked num_conditions T mask,
    check_mut_energy
      (map (fun '(s, _) => (s, num0)) (_species_dict (self binding_world)))
    = Ok checked
    /\ check_temperature (Array [q 1; q 1]) num_conditions = Ok T
    /\ (temperature_kept (snd binding_run) ->
        sdict_get binding_frame "temperature" = Some (Array T))
    /\ nan_mask (self (snd binding_run))
         (mut_dict_to_array (self (snd binding_run)) (Some checked)) T
       = Ok mask
    /\ ((2 <= length T)%nat -> In true mask ->
        get_dG_obs_fast (self (snd binding_run))
          (mut_dict_to_array (self (snd binding_run)) (Some checked)) T
        = Raise ValueError).
Proof.
  apply (get_dG_obs_fast_raises_when_masked None (Some 1%nat)
           (Array [q 1; q 1]) binding_world binding_frame (snd binding_run)).
  vm_compute. reflexivity.
Defined.

Lemma get_obs_observable_columns_witness :
  exists checked z not_obs_mask weights obs not_obs Ts fx dG,
    check_mut_energy
      (map (fun '(s, _) => (s, num0)) (_species_dict (self binding_world)))
    = Ok checked
    /\ sdict_get binding_frame "temperature" = Some (Array Ts)
    /\ sdict_get binding_frame "fx_obs" = Some (Array fx)
    /\ sdict_get binding_frame "dG_obs" = Some (Array dG)
    /\ built (self (snd binding_run)) = Some z
    /\ _not_obs_mask z = Some not_obs_mask
    /\ _get_weights (self (snd binding_run))
         (mut_dict_to_array (self (snd binding_run)) (Some checked)) Ts
       = Ok weights
    /\ masked_sum weights (_obs_mask z) = Ok obs
    /\ masked_sum weights not_obs_mask = Ok not_obs
    /\ length obs = length Ts
    /\ length not_obs = length Ts
    /\ forall j T o n,
         Ts !! j = Some T ->
         obs !! j = Some o -> not_obs !! j = Some n ->
         fx !! j = Some (ndiv o (nadd o n))
         /\ dG !! j
            = Some (if neqb o num0 || neqb n num0 then nan
                    else nmul (ndiv (nopp num1)
                                 (nmul (_gas_constant (self (snd binding_run)))
                                       T))
                              (nlog (ndiv o n))).
Proof.
  apply (get_obs_observable_columns None (Some 1%nat) (Array [q 1; q 1])
           binding_world binding_frame (snd binding_run)).
  - vm_compute. reflexivity.
  - exact binding_run_kept.
Defined.

(** A third species ["C"] binding ["Y"]. *)
Lemma add_species_registers_witness :
  let w' := snd (add_species "C" (q 3) false true [("Y", q 2)]
                   binding_world) in
  (exists sp,
     sdict_get (_species_dict (self w')) "C" = Some sp
     /\ observable sp = false /\ folded sp = true
     /\ check_float (q 3) None true = Ok (dG0 sp))
  /\ (forall other, other <> "C" ->
        sdict_get (_species_dict (self w')) other
        = sdict_get (_species_dict (self binding_world)) other)
  /\ _species_list (self w') = _species_list (self binding_world) ++ ["C"]
  /\ (exists more,
        _ligand_list (self w') = _ligand_list (self binding_world) ++ more)
  /\ (forall lig, In lig (map fst [("Y", q 2)]) ->
                  In lig (_ligand_list (self w')))
  /\ heap w' = heap binding_world
  /\ forall dG0' obs' fol' ligands',
       add_species "C" dG0' obs' fol' ligands' w' = (Raise ValueError, w').
Proof.
  apply (add_species_registers "C" (q 3) false true [("Y", q 2)]
           binding_world).
  vm_compute. reflexivity.
Defined.

(** A third species ["C"] with a negative stoichiometry. *)
Lemma add_species_failure_leaves_species_witness :
  let w' := snd (add_species "C" (q 3) false true [("X", q (-1))]
                   binding_world) in
  sdict_mem "C" (_species_dict (self w')) = true
  /\ _species_list (self w') = _species_list (self binding_world)
  /\ forall dG0' obs' fol' ligands',
       add_species "C" dG0' obs' fol' ligands' w' = (Raise ValueError, w').
Proof.
  apply (add_species_failure_leaves_species "C" (q 3) false true
           [("X", q (-1))] binding_world
           (snd (add_species "C" (q 3) false true [("X", q (-1))]
                   binding_world))
           ValueError (q 3));
    vm_compute; reflexivity.
Defined.

Lemma build_z_matrix_shape_witness :
  exists z n,
    built (self (snd (_build_z_matrix 1%nat binding_world))) = Some z
    /\ value_len (Array [q (-2000); q 0]) = Ok n
    /\ length (_z_matrix z) = length (_species_dict (self binding_world))
    /\ List.Forall (fun row => length row = n) (_z_matrix z)
    /\ _obs_mask z
       = map (fun p => observable (snd p)) (_species_dict (self binding_world))
    /\ _folded_mask z
       = map (fun p => folded (snd p)) (_species_dict (self binding_world))
    /\ _not_obs_mask z = Some (map negb (_obs_mask z))
    /\ _unfolded_mask z = Some (map negb (_folded_mask z))
    /\ _species_dict (self (snd (_build_z_matrix 1%nat binding_world)))
       = _species_dict (self binding_world)
    /\ _species_list (self (snd (_build_z_matrix 1%nat binding_world)))
       = _species_list (self binding_world)
    /\ _ligand_list (self (snd (_build_z_matrix 1%nat binding_world)))
       = _ligand_list (self binding_world).
Proof.
  apply (build_z_matrix_shape 1%nat binding_world
           (snd (_build_z_matrix 1%nat binding_world)) two_conditions);
    vm_compute; reflexivity.
Defined.

(** The empty dictionary of the store is handed to the builder: the ligand
    ["X"] of the ensemble gets its one zero. *)
Lemma build_z_matrix_completes_dictionary_witness :
  exists d',
    heap (snd (_build_z_matrix 0%nat binding_world)) !! 0%nat = Some d'
    /\ (forall lig, In lig (_ligand_list (self binding_world)) ->
                    sdict_mem lig ([] : pydict num) = false ->
                    sdict_get d' lig = Some (Array (repeat num0 1)))
    /\ (forall k v, sdict_get ([] : pydict num) k = Some v ->
                    sdict_get d' k = Some v)
    /\ (forall k, sdict_mem k d' = true ->
                  sdict_mem k ([] : pydict num) = true
                  \/ In k (_ligand_list (self binding_world)))
    /\ (forall l', l' <> 0%nat ->
                   heap (snd (_build_z_matrix 0%nat binding_world)) !! l'
                   = heap binding_world !! l')
    /\ length (heap (snd (_build_z_matrix 0%nat binding_world)))
       = length (heap binding_world).
Proof.
  apply (build_z_matrix_completes_dictionary 0%nat binding_world
           (fst (_build_z_matrix 0%nat binding_world))
           (snd (_build_z_matrix 0%nat binding_world)) [] 1%nat);
    vm_compute; reflexivity.
Defined.

Lemma binding_world_consistent : consistent (self binding_world).
Proof.
  assert (Hdict : _species_dict (self binding_world)
                  = [("A", mkspecies false true (q 0) []);
                     ("B", mkspecies true true (q 0) [("X", q 1)])])
    by (vm_compute; reflexivity).
  assert (Hlist : _species_list (self binding_world) = ["A"; "B"])
    by (vm_compute; reflexivity).
  assert (Hligands : _ligand_list (self binding_world) = ["X"])
    by (vm_compute; reflexivity).
  unfold consistent. rewrite Hdict, Hlist, Hligands.
  split; [reflexivity|].
  split; [repeat constructor; cbn; intuition discriminate|].
  split; [repeat constructor; cbn; intuition discriminate|].
  intros name sp lig. cbn [sdict_get].
  destruct (String.eqb "A" name); [intros [= <-]; discriminate|].
  destruct (String.eqb "B" name); [|discriminate].
  intros [= <-]. unfold sdict_mem. cbn [stoichiometry sdict_get].
  destruct (String.eqb "X" lig) eqn:E; [|discriminate].
  apply String.eqb_eq in E. now left.
Qed.

(** The conditions are read, then a third species is added. *)
Lemma add_species_leaves_matrix_stale_witness :
  let w := snd (_build_z_matrix 1%nat binding_world) in
  let w' := snd (add_species "C" (q 3) false true [] w) in
  built (self w') = built (self w)
  /\ get_fx_obs_fast (self w') (mut_dict_to_array (self w') None)
       [q 1; q 1] = Raise ValueError
  /\ get_dG_obs_fast (self w') (mut_dict_to_array (self w') None)
       [q 1; q 1] = Raise ValueError.
Proof.
  apply (add_species_leaves_matrix_stale 1%nat "C" (q 3) false true []
           binding_world (snd (_build_z_matrix 1%nat binding_world))
           (snd (add_species "C" (q 3) false true []
                   (snd (_build_z_matrix 1%nat binding_world))))
           None [q 1; q 1] binding_world_consistent).
  - vm_compute. lia.
  - vm_compute. reflexivity.
  - vm_compute. reflexivity.
Defined.

End EnsembleFacts.

(** ** The ensemble over the reals *)

Module ExactFacts.
Import Py Ensemble Inputs EnsembleFacts.
Import Stdlib.Reals.Reals.

Lemma exact_exp_add (a s : Exact.num) :
  nexp (FloatOps := Exact.float) (nadd (RingOps := Exact.ring) a s)
  = nmul (RingOps := Exact.ring) (nexp (FloatOps := Exact.float) a)
         (nexp (FloatOps := Exact.float) s).
Proof. apply exp_plus. Qed.

Lemma exact_exp_nonzero (s : Exact.num) :
  nexp (FloatOps := Exact.float) s <> num0 (RingOps := Exact.ring).
Proof.
  intros Hs. pose proof (exp_pos s) as Hpos. cbn in Hs.
  rewrite Hs in Hpos. exact (Rlt_irrefl _ Hpos).
Qed.

Lemma exact_div_cancel (x y c : Exact.num) :
  c <> num0 (RingOps := Exact.ring) ->
  ndiv (FloatOps := Exact.float) (nmul (RingOps := Exact.ring) x c)
       (nmul (RingOps := Exact.ring) y c)
  = ndiv (FloatOps := Exact.float) x y.
Proof.
  intros Hc. cbn in *. unfold Exact.num in *.
  destruct (Req_dec_T y 0%R) as [->|Hy].
  - unfold Rdiv. now rewrite !Rmult_0_l, Rinv_0, !Rmult_0_r.
  - field. now split.
Qed.

(** Two species and one condition: the ratio of the two weights is that of
    the exponentials of their exponents. *)
Lemma shift_keeps_ratios_witness :
  exists z perturbed exponents,
    built two_levels = Some z
    /\ add_column (H := Exact.ring) (_z_matrix z) [0%R; 0%R] = Ok perturbed
    /\ collect (fun row =>
                  broadcast2 (nmul (RingOps := Exact.ring))
                    (map (nopp (RingOps := Exact.ring))
                       (map (fun t => ndiv (FloatOps := Exact.float)
                                        (num1 (RingOps := Exact.ring))
                                        (nmul (RingOps := Exact.ring)
                                           (_gas_constant two_levels) t))
                            [1%R])) row) perturbed = Ok exponents
    /\ forall i k j ri rk wi wk,
         two_levels_weights !! i = Some ri -> ri !! j = Some wi ->
         two_levels_weights !! k = Some rk -> rk !! j = Some wk ->
         exists ei ek xi xk,
           exponents !! i = Some ei /\ entry ei j = Some xi
           /\ exponents !! k = Some ek /\ entry ek j = Some xk
           /\ (wi / wk)%R = (exp xi / exp xk)%R.
Proof.
  apply (shift_keeps_ratios (H := Exact.ring) (H0 := Exact.float)
           exact_exp_add exact_exp_nonzero exact_div_cancel two_levels
           [0%R; 0%R] [1%R] two_levels_weights).
  reflexivity.
Defined.
(** *** The populations of the species *)

Lemma zip_div_add (t : list R) : forall a w,
  length a = length t -> length w = length t ->
  zip_with Rplus (zip_with Rdiv a t) (zip_with Rdiv w t)
  = zip_with Rdiv (zip_with Rplus a w) t.
Proof.
  induction t as [|x t IH]; intros [|y a] [|z w] Ha Hw; cbn in *;
    try discriminate; [reflexivity|].
  f_equal; [now rewrite Rdiv_plus_distr|]. apply IH; lia.
Qed.

Lemma sum_of_quotients (t : list R) : forall ws acc,
  length acc = length t ->
  List.Forall (fun w => length w = length t) ws ->
  fold_left (zip_with Rplus) (map (fun w => zip_with Rdiv w t) ws)
            (zip_with Rdiv acc t)
  = zip_with Rdiv (fold_left (zip_with Rplus) ws acc) t.
Proof.
  induction ws as [|w ws IH]; intros acc Hacc Hws; [reflexivity|].
  apply List.Forall_cons_iff in Hws as [Hw Hws]. cbn [map fold_left].
  rewrite zip_div_add by assumption.
  apply IH; [|exact Hws]. rewrite length_zip_with. lia.
Qed.

Lemma zero_quotients (t : list R) :
  zip_with Rdiv (repeat 0%R (length t)) t = repeat 0%R (length t).
Proof.
  induction t as [|x t IH]; cbn; [reflexivity|].
  f_equal; [apply Rdiv_0_l|exact IH].
Qed.

Lemma sums_stay_positive (n : nat) : forall ws acc,
  length acc = n ->
  List.Forall (fun w => length w = n) ws ->
  List.Forall (List.Forall (fun x => (0 < x)%R)) ws ->
  List.Forall (fun x => (0 <= x)%R) acc ->
  ws <> [] \/ List.Forall (fun x => (0 < x)%R) acc ->
  List.Forall (fun x => (0 < x)%R) (fold_left (zip_with Rplus) ws acc).
Proof.
  induction ws as [|w ws IH]; intros acc Hacc Hlen Hpos Hnn Hsome.
  - destruct Hsome as [Hs|Hs]; [contradiction|exact Hs].
  - apply List.Forall_cons_iff in Hlen as [Hw Hlen].
    apply List.Forall_cons_iff in Hpos as [Hwpos Hpos].
    cbn [fold_left].
    assert (Hnew : List.Forall (fun x => (0 < x)%R) (zip_with Rplus acc w)).
    { clear -Hacc Hw Hwpos Hnn. revert acc w Hacc Hw Hwpos Hnn.
      induction n as [|n IHn]; intros [|a acc] [|x w] Hacc Hw Hwpos Hnn;
        cbn in *; try discriminate; constructor.
      - apply List.Forall_cons_iff in Hwpos as [Hx _].
        apply List.Forall_cons_iff in Hnn as [Ha _].
        now apply Rplus_le_lt_0_compat.
      - apply List.Forall_cons_iff in Hwpos as [_ Hwpos].
        apply List.Forall_cons_iff in Hnn as [_ Hnn].
        apply IHn; auto. }
    apply IH; try assumption.
    + rewrite length_zip_with. lia.
    + eapply List.Forall_impl; [|exact Hnew]. intros x Hx. now apply Rlt_le.
    + now right.
Qed.

Lemma quotients_by_itself (t : list R) :
  List.Forall (fun x => (0 < x)%R) t ->
  zip_with Rdiv t t = repeat 1%R (length t).
Proof.
  induction 1 as [|x t Hx Ht IH]; cbn; [reflexivity|].
  f_equal; [|exact IH]. apply Rdiv_diag. now apply Rgt_not_eq.
Qed.

(** X25.  Over the reals, for an ensemble whose list of species follows
    its dictionary of species, lists no species twice and has no species
    called like one of the columns [fx_obs], [dG_obs] and [fx_folded]
    assigned after those of the species: the frame of [get_obs] has one
    column per species, found under the name of the species, every such
    column has one entry per checked temperature, and under every
    condition the populations of the species add up to 1. *)
Theorem species_fractions_sum_to_one (checks : Checks Exact.num) mut_energy
    ligand_dict temperature w out w' :
  _species_list (self w) = map fst (_species_dict (self w)) ->
  species_columns_kept (self w) ->
  get_obs (H := Exact.ring) (H0 := checks) (FloatOps0 := Exact.float)
    mut_energy ligand_dict temperature w = (Ok out, w') ->
  exists num_conditions T fractions,
    check_temperature temperature num_conditions = Ok T
    /\ map fst fractions = _species_list (self w)
    /\ (forall name fraction,
          In (name, fraction) fractions ->
          sdict_get out name = Some (Array fraction))
    /\ List.Forall (fun column => length (snd column) = length T) fractions
    /\ column_sum (H := Exact.ring) (length T) (map snd fractions)
       = repeat 1%R (length T).
Proof.
  intros Horder [Hnodup Hnames_kept] Hrun.
  destruct (get_obs_fractions _ _ _ _ _ _ Hrun)
    as (Hdict & Hlist & df & z & n & weights & Hframe & Hnames_df & Hz
        & Hrows & Hzlen & Htwo & [checked Hweights] & [nc Htemperature]
        & (not_obs_mask & obs & not_obs & Hobs & Hnot & Hmask)
        & Hfractions).
  assert (Hspecies : length (_species_list (self w'))
                     = length (_z_matrix z)).
  { now rewrite Hlist, Horder, length_map. }
  assert (Henergies : length (mut_dict_to_array (H := Exact.ring) (self w')
                                (Some checked))
                      = length (_z_matrix z)).
  { unfold mut_dict_to_array. now rewrite length_map. }
  destruct (weights_shape (H := Exact.ring) (H0 := Exact.float) (self w') z n
              _ _ _ Hz Hrows Henergies Hweights)
    as (Hwlen & m & exponents & Hm & ->).
  set (weights := map (map (nexp (FloatOps := Exact.float))) exponents) in *.
  assert (Huniform : List.Forall (fun r => length r = m) weights).
  { unfold weights. apply List.Forall_map.
    eapply List.Forall_impl; [|exact Hm]. cbn. intros r Hr.
    now rewrite length_map. }
  assert (Hpositive : List.Forall (List.Forall (fun x => (0 < x)%R)) weights).
  { unfold weights. apply List.Forall_map. apply List.Forall_forall.
    intros r _. apply List.Forall_map. apply List.Forall_forall.
    intros x _. apply exp_pos. }
  assert (Hsome : weights <> []).
  { intros Hnil. rewrite Hnil in Hwlen. cbn in Hwlen. lia. }
  assert (Hconditions : m = length (df_temperature df)).
  { rewrite <- Hmask. unfold zero_mask.
    rewrite length_zip_with, !length_map.
    rewrite (masked_sum_length weights _ m obs Hsome Huniform Hobs).
    rewrite (masked_sum_length weights _ m not_obs Hsome Huniform Hnot).
    lia. }
  assert (Hwidth : width weights = m).
  { destruct weights as [|r rest]; [contradiction|].
    now apply List.Forall_cons_iff in Huniform as [Hr _]. }
  set (total := column_sum (H := Exact.ring) (width weights) weights) in *.
  assert (Htotal : length total = m).
  { unfold total, column_sum. rewrite Hwidth.
    apply column_sum_length; [apply repeat_length|exact Huniform]. }
  assert (Hnames_len : length (_species_list (self w')) = length weights)
    by congruence.
  destruct (fractions_of_weights
              (fun w => zip_with (ndiv (FloatOps := Exact.float)) w total)
              weights (_species_list (self w')) [] (df_species df)
              Hnames_len Hfractions) as [Hnames Hcolumns].
  unfold Exact.num in *.
  exists nc, (df_temperature df), (df_species df).
  split; [exact Htemperature|].
  split; [congruence|]. split.
  { intros name fraction Hin.
    assert (Hname : In name (_species_list (self w))).
    { rewrite <- Hlist, <- Hnames_df.
      exact (in_map fst _ (name, fraction) Hin). }
    apply In_lookup in Hin as [i Hi].
    destruct (Hnames_kept name Hname) as (H1 & H2 & H3).
    eapply DataFrame_column; [exact Hframe|].
    apply (columns_species df i); try assumption.
    now rewrite Hnames_df, Hlist. }
  split.
  { apply List.Forall_forall. intros column Hin.
    apply (in_map snd) in Hin. rewrite Hcolumns in Hin.
    apply in_map_iff in Hin as (r & <- & Hr).
    rewrite List.Forall_forall in Huniform. specialize (Huniform r Hr).
    rewrite length_zip_with. lia. }
  rewrite Hcolumns, <- Hconditions. unfold column_sum.
  change (nadd (RingOps := Exact.ring)) with Rplus.
  change (ndiv (FloatOps := Exact.float)) with Rdiv.
  change (num0 (RingOps := Exact.ring)) with 0%R.
  rewrite <- Htotal at 1. rewrite <- zero_quotients.
  rewrite sum_of_quotients; [|rewrite repeat_length; reflexivity|].
  2:{ eapply List.Forall_impl; [|exact Huniform]. cbn. intros r Hr.
      exact (eq_trans Hr (eq_sym Htotal)). }
  rewrite Htotal.
  change (fold_left (zip_with Rplus) weights (repeat 0%R m)) with
    (column_sum (H := Exact.ring) m weights).
  assert (Hsame : column_sum (H := Exact.ring) m weights = total)
    by (unfold total; now rewrite Hwidth).
  rewrite Hsame, <- Htotal.
  apply quotients_by_itself. rewrite <- Hsame. unfold column_sum.
  apply (sums_stay_positive m); try assumption.
  - apply repeat_length.
  - apply List.Forall_forall. intros x Hx. apply repeat_spec in Hx.
    subst x. apply Rle_refl.
  - now left.
Qed.

(** *** At the two species *)

Lemma reqb_sum_exp e : Exact.reqb (0 + exp e)%R 0%R = false.
Proof.
  unfold Exact.reqb. destruct (Req_dec_T (0 + exp e) 0) as [Heq|Hne];
    [|reflexivity].
  pose proof (exp_pos e) as Hpos. rewrite Rplus_0_l in Heq.
  rewrite Heq in Hpos. now apply Rlt_irrefl in Hpos.
Qed.

Lemma two_levels_run_ok :
  two_levels_run = (Ok two_levels_frame, snd two_levels_run).
Proof.
  assert (Hdf : exists df, fst two_levels_run = Ok df).
  { unfold two_levels_run, get_obs, two_levels_world.
    lazy -[exp ln Rplus Rmult Rminus Rdiv Ropp Rmax Exact.reqb Rinv IZR].
    rewrite !reqb_sum_exp.
    lazy -[exp ln Rplus Rmult Rminus Rdiv Ropp Rmax Exact.reqb Rinv IZR].
    eexists. reflexivity. }
  destruct Hdf as [df Hdf]. unfold two_levels_frame. rewrite Hdf.
  rewrite <- Hdf. now destruct two_levels_run.
Qed.

Lemma two_levels_columns_kept : species_columns_kept (self two_levels_world).
Proof.
  split; cbn.
  - repeat constructor; cbn; intuition discriminate.
  - intros name [<-|[<-|[]]]; repeat split; discriminate.
Qed.

Lemma species_fractions_sum_to_one_witness :
  exists num_conditions T fractions,
    check_temperature (Checks := accepting_checks) (Scalar 1%R)
      num_conditions = Ok T
    /\ map fst fractions = ["A"; "B"]
    /\ (forall name fraction,
          In (name, fraction) fractions ->
          sdict_get two_levels_frame name = Some (Array fraction))
    /\ List.Forall (fun column => length (snd column) = length T) fractions
    /\ column_sum (H := Exact.ring) (length T) (map snd fractions)
       = repeat 1%R (length T).
Proof.
  apply (species_fractions_sum_to_one accepting_checks None (Some 0%nat)
           (Scalar 1%R) two_levels_world two_levels_frame
           (snd two_levels_run) eq_refl two_levels_columns_kept
           two_levels_run_ok).
Defined.


End ExactFacts.

(** ** Reading an ensemble: the search for a key *)

Module ReadEnsembleFacts.
Import Py ReadEnsemble.

Scheme json_dict_ind := Induction for json Sort Prop
  with dict_json_ind := Induction for dict Sort Prop.

Lemma last_differs_snoc s key k :
  last_differs (s ++ [key]) k = Ok (negb (String.eqb key k)).
Proof.
  unfold last_differs. rewrite List.map_app. cbn [map].
  rewrite List.last_last. reflexivity.
Qed.

(** A dictionary that does not hold the key anywhere leaves the stack as
    it was. *)
Lemma search_from_absent k : forall d s,
  occurrences k d = O -> search_from d k s = Ok s.
Proof.
  intros d.
  induction d as [d IHd|text| |key value IHvalue rest IHrest]
    using dict_json_ind
    with (P := fun j => match j with
                        | JDict d => forall s, occurrences k d = O ->
                                               search_from d k s = Ok s
                        | JAtom _ => True
                        end).
  - exact IHd.
  - exact I.
  - reflexivity.
  - intros s Hocc. cbn [occurrences] in Hocc. cbn [search_from].
    destruct (String.eqb key k) eqn:Ekey; [discriminate|].
    destruct value as [inner|text].
    + rewrite IHvalue by lia. rewrite last_differs_snoc, Ekey. cbn [negb].
      rewrite removelast_last. apply IHrest. lia.
    + apply IHrest. lia.
Qed.

(** The search always returns, and with the stack it was given or with a
    longer one that ends in the key. *)
Lemma search_from_shape k : forall d s,
  exists r, search_from d k s = Ok r
            /\ (r = s \/ exists p, r = s ++ p ++ [k]).
Proof.
  intros d.
  induction d as [d IHd|text| |key value IHvalue rest IHrest]
    using dict_json_ind
    with (P := fun j => match j with
                        | JDict d => forall s, exists r,
                            search_from d k s = Ok r
                            /\ (r = s \/ exists p, r = s ++ p ++ [k])
                        | JAtom _ => True
                        end).
  - exact IHd.
  - exact I.
  - intros s. exists s. split; [reflexivity|now left].
  - intros s. cbn [search_from].
    destruct (String.eqb key k) eqn:Ekey.
    + apply String.eqb_eq in Ekey as ->. exists (s ++ [k]).
      split; [reflexivity|]. right. exists []. reflexivity.
    + destruct value as [inner|text]; [|apply IHrest].
      destruct (IHvalue (s ++ [key])) as (r1 & -> & [->|[p ->]]).
      * rewrite last_differs_snoc, Ekey. cbn [negb].
        rewrite removelast_last. apply IHrest.
      * replace ((s ++ [key]) ++ p ++ [k]) with ((s ++ key :: p) ++ [k])
          by (rewrite <- !app_assoc; reflexivity).
        rewrite last_differs_snoc, String.eqb_refl. cbn [negb].
        destruct (IHrest ((s ++ key :: p) ++ [k])) as (r & -> & [->|[p' ->]]);
          eexists; (split; [reflexivity|]); right.
        -- exists (key :: p). now repeat (rewrite <- ?app_assoc; cbn [app]).
        -- exists (key :: p ++ [k] ++ p'). now repeat (rewrite <- ?app_assoc; cbn [app]).
Qed.

(** A dictionary that holds the key returns a longer stack. *)
Lemma search_from_present k : forall d s,
  occurrences k d <> O -> exists p, search_from d k s = Ok (s ++ p ++ [k]).
Proof.
  intros d.
  induction d as [d IHd|text| |key value IHvalue rest IHrest]
    using dict_json_ind
    with (P := fun j => match j with
                        | JDict d => forall s, occurrences k d <> O ->
                            exists p, search_from d k s = Ok (s ++ p ++ [k])
                        | JAtom _ => True
                        end).
  - exact IHd.
  - exact I.
  - intros s Hocc. now contradict Hocc.
  - intros s Hocc. cbn [occurrences] in Hocc. cbn [search_from].
    destruct (String.eqb key k) eqn:Ekey.
    + apply String.eqb_eq in Ekey as ->. exists []. reflexivity.
    + destruct value as [inner|text]; [|apply IHrest; lia].
      destruct (Nat.eq_dec (occurrences k inner) O) as [Hinner|Hinner].
      * rewrite search_from_absent by exact Hinner.
        rewrite last_differs_snoc, Ekey. cbn [negb].
        rewrite removelast_last. apply IHrest. lia.
      * destruct (IHvalue (s ++ [key]) Hinner) as [p ->].
        replace ((s ++ [key]) ++ p ++ [k]) with ((s ++ key :: p) ++ [k])
          by (rewrite <- !app_assoc; reflexivity).
        rewrite last_differs_snoc, String.eqb_refl. cbn [negb].
        destruct (search_from_shape k rest ((s ++ key :: p) ++ [k]))
          as (r & -> & [->|[p' ->]]).
        -- exists (key :: p). now repeat (rewrite <- ?app_assoc; cbn [app]).
        -- exists (key :: p ++ [k] ++ p'). now repeat (rewrite <- ?app_assoc; cbn [app]).
Qed.

(** Looking a key up behind an entry with another key. *)
Lemma follow_keys_behind key value rest path holder k v :
  dict_lookup rest key = None -> String.eqb key k = false ->
  follow_keys (JDict rest) path = Ok (JDict holder) ->
  dict_lookup holder k = Some v ->
  exists holder',
    follow_keys (JDict (DCons key value rest)) path = Ok (JDict holder')
    /\ dict_lookup holder' k = Some v.
Proof.
  intros Hfresh Hkey Hpath Hv. destruct path as [|k1 path].
  - injection Hpath as <-. eexists. split; [reflexivity|].
    cbn [dict_lookup]. now rewrite Hkey.
  - exists holder. split; [|exact Hv]. cbn [follow_keys dict_lookup] in *.
    destruct (String.eqb key k1) eqn:E; [|exact Hpath].
    apply String.eqb_eq in E as <-. now rewrite Hfresh in Hpath.
Qed.

Lemma search_from_unique k : forall d s,
  distinct_keys d -> occurrences k d = 1%nat ->
  exists path holder v,
    search_from d k s = Ok (s ++ path ++ [k])
    /\ follow_keys (JDict d) path = Ok (JDict holder)
    /\ dict_lookup holder k = Some v.
Proof.
  intros d.
  induction d as [d IHd|text| |key value IHvalue rest IHrest]
    using dict_json_ind
    with (P := fun j => match j with
                        | JDict d => forall s,
                            distinct_keys d -> occurrences k d = 1%nat ->
                            exists path holder v,
                              search_from d k s = Ok (s ++ path ++ [k])
                              /\ follow_keys (JDict d) path = Ok (JDict holder)
                              /\ dict_lookup holder k = Some v
                        | JAtom _ => True
                        end).
  - exact IHd.
  - exact I.
  - intros s _ Hocc. discriminate Hocc.
  - intros s (Hfresh & Hinner & Hrest) Hocc.
    cbn [occurrences] in Hocc. cbn [search_from].
    destruct (String.eqb key k) eqn:Ekey.
    + apply String.eqb_eq in Ekey as ->.
      exists [], (DCons k value rest), value. repeat split.
      cbn [dict_lookup]. now rewrite String.eqb_refl.
    + assert (Hbehind : forall s,
                occurrences k rest = 1%nat ->
                exists path holder v,
                  search_from rest k s = Ok (s ++ path ++ [k])
                  /\ follow_keys (JDict (DCons key value rest)) path
                     = Ok (JDict holder)
                  /\ dict_lookup holder k = Some v).
      { intros s' Hone.
        destruct (IHrest s' Hrest Hone) as (path & holder & v & Hs & Hp & Hv).
        destruct (follow_keys_behind key value rest path holder k v
                    Hfresh Ekey Hp Hv) as (holder' & Hp' & Hv').
        now exists path, holder', v. }
      destruct value as [inner|text]; [|apply Hbehind; lia].
      destruct (Nat.eq_dec (occurrences k inner) O) as [Hnone|Hsome].
      * rewrite search_from_absent by exact Hnone.
        rewrite last_differs_snoc, Ekey. cbn [negb].
        rewrite removelast_last. apply Hbehind. lia.
      * destruct (IHvalue (s ++ [key]) Hinner ltac:(lia))
          as (path & holder & v & -> & Hp & Hv).
        replace ((s ++ [key]) ++ path ++ [k])
          with ((s ++ key :: path) ++ [k])
          by now repeat (rewrite <- ?app_assoc; cbn [app]).
        rewrite last_differs_snoc, String.eqb_refl. cbn [negb].
        rewrite search_from_absent by lia.
        exists (key :: path), holder, v. repeat split.
        -- now repeat (rewrite <- ?app_assoc; cbn [app]).
        -- cbn [follow_keys dict_lookup]. now rewrite String.eqb_refl.
        -- exact Hv.
Qed.

Lemma follow_keys_app path : forall j k holder v,
  follow_keys j path = Ok (JDict holder) -> dict_lookup holder k = Some v ->
  follow_keys j (path ++ [k]) = Ok v.
Proof.
  induction path as [|k1 path IH]; intros j k holder v Hp Hv.
  - injection Hp as ->. cbn. now rewrite Hv.
  - cbn [app follow_keys] in *. destruct j as [d|text]; [|discriminate].
    destruct (dict_lookup d k1); [|discriminate]. eapply IH; eassumption.
Qed.

(** X1.  [_search_for_key] always returns: the stack it takes the last
    entry of is never empty.  Called without a stack, as
    [_json_to_ensemble] calls it, it returns the empty stack exactly when
    the key occurs nowhere in the nested dictionary. *)
Theorem search_for_key_empty_iff_absent d k :
  exists key_stack,
    _search_for_key d k None = Ok key_stack
    /\ (key_stack = [] <-> occurrences k d = O).
Proof.
  unfold _search_for_key.
  destruct (Nat.eq_dec (occurrences k d) O) as [Hnone|Hsome].
  - exists []. split; [now apply search_from_absent|]. now split.
  - destruct (search_from_present k d [] Hsome) as [p Hp].
    exists (p ++ [k]). split; [exact Hp|]. split; [|contradiction].
    intros Hnil. now destruct p.
Qed.

(** X2.  Where the key occurs exactly once in a nested dictionary, the
    stack [_search_for_key] returns is the way to it: it ends in the key,
    and following the keys before it leads to the dictionary that holds
    the key, so following all of it leads to the value under the key. *)
Theorem search_for_key_finds_unique_key d k :
  distinct_keys d -> occurrences k d = 1%nat ->
  exists path holder v,
    _search_for_key d k None = Ok (path ++ [k])
    /\ follow_keys (JDict d) path = Ok (JDict holder)
    /\ dict_lookup holder k = Some v
    /\ follow_keys (JDict d) (path ++ [k]) = Ok v.
Proof.
  intros Hd Hone.
  destruct (search_from_unique k d [] Hd Hone)
    as (path & holder & v & Hs & Hp & Hv).
  exists path, holder, v. repeat split; try assumption.
  eapply follow_keys_app; eassumption.
Qed.

Lemma search_for_key_finds_unique_key_witness :
  exists path holder v,
    _search_for_key Inputs.simulation_json "ens" None = Ok (path ++ ["ens"])
    /\ follow_keys (JDict Inputs.simulation_json) path = Ok (JDict holder)
    /\ dict_lookup holder "ens" = Some v
    /\ follow_keys (JDict Inputs.simulation_json) (path ++ ["ens"]) = Ok v.
Proof.
  apply (search_for_key_finds_unique_key Inputs.simulation_json "ens").
  - cbn. repeat split.
  - reflexivity.
Defined.

End ReadEnsembleFacts.

(** ** Reading a tree *)

Module ReadTreeFacts.
Import Py ReadTree.

Section Reader.
Variable TreeNode : Type.
Variable Tree : string -> option Z -> parsed TreeNode.
Variable check_int : Z -> Z -> Z -> exn + Z.

(** The loop returns the tree of the first format that parses. *)
Lemma try_formats_first text t : forall fs,
  StronglySorted Z.lt fs ->
  try_formats TreeNode Tree text fs = Some (Parsed t)
  <-> exists f, In f fs /\ Tree text (Some f) = Parsed t
                /\ forall f', In f' fs -> f' < f ->
                      Tree text (Some f') = NewickError.
Proof.
  induction fs as [|f0 fs IH]; intros Hsorted; cbn [try_formats].
  - split; [discriminate|]. now intros (f & [] & _).
  - apply StronglySorted_inv in Hsorted as [Hsorted Hf0].
    rewrite List.Forall_forall in Hf0.
    destruct (Tree text (Some f0)) as [t0| |e] eqn:E0.
    + split.
      * intros [= ->]. exists f0. split; [now left|]. split; [exact E0|].
        intros f' [<-|Hin] Hlt; [lia|]. specialize (Hf0 _ Hin). lia.
      * intros (f & [<-|Hin] & Hf & Hbefore); [congruence|].
        rewrite (Hbefore f0) in E0; [discriminate|now left|now apply Hf0].
    + rewrite (IH Hsorted). split.
      * intros (f & Hin & Hf & Hbefore). exists f.
        split; [now right|]. split; [exact Hf|].
        intros f' [<-|Hin'] Hlt; [exact E0|now apply Hbefore].
      * intros (f & [<-|Hin] & Hf & Hbefore); [congruence|].
        exists f. split; [exact Hin|]. split; [exact Hf|].
        intros f' Hin' Hlt. apply Hbefore; [now right|exact Hlt].
    + split; [discriminate|].
      intros (f & [<-|Hin] & Hf & Hbefore); [congruence|].
      rewrite (Hbefore f0) in E0; [discriminate|now left|now apply Hf0].
Qed.

Lemma try_formats_none text : forall fs,
  try_formats TreeNode Tree text fs = None
  <-> forall f, In f fs -> Tree text (Some f) = NewickError.
Proof.
  induction fs as [|f0 fs IH]; cbn [try_formats].
  - split; [now intros _ f []|reflexivity].
  - destruct (Tree text (Some f0)) as [t0| |e] eqn:E0.
    + split; [discriminate|]. intros Hall.
      rewrite (Hall f0) in E0; [discriminate|now left].
    + rewrite IH. split.
      * intros Hall f [<-|Hin]; [exact E0|now apply Hall].
      * intros Hall f Hin. apply Hall. now right.
    + split; [discriminate|]. intros Hall.
      rewrite (Hall f0) in E0; [discriminate|now left].
Qed.

Lemma formats_sorted : StronglySorted Z.lt formats.
Proof.
  unfold formats. cbn.
  repeat (constructor; [|repeat (constructor; [lia|]); constructor]).
  constructor.
Qed.

(** X23.  Without a format, [read_tree] returns the tree of the plain
    parse, or, when that raises [NewickError], the tree of the first of the
    formats 0 to 9 and 100, in this order, that parses; it raises
    [ValueError] when none of them parses.  With a format, a tree is
    returned only for a checked format of at most 9, or 100. *)
Theorem read_tree_takes_first_format text :
  (forall t,
     read_tree TreeNode Tree check_int (Newick text) None = Parsed t
     <-> Tree text None = Parsed t
         \/ (Tree text None = NewickError
             /\ exists f, In f formats /\ Tree text (Some f) = Parsed t
                  /\ forall f', In f' formats -> f' < f ->
                        Tree text (Some f') = NewickError))
  /\ (Tree text None = NewickError ->
      (forall f, In f formats -> Tree text (Some f) = NewickError) ->
      read_tree TreeNode Tree check_int (Newick text) None
      = Failed ValueError)
  /\ (forall fmt t,
        read_tree TreeNode Tree check_int (Newick text) (Some fmt) = Parsed t ->
        exists f, check_int fmt 0 100 = inr f
                  /\ (f <= 9 \/ f = 100)
                  /\ Tree text (Some f) = Parsed t).
Proof.
  split; [|split].
  - intros t. unfold read_tree.
    destruct (Tree text None) as [t0| |e] eqn:E.
    + split; [intros [= ->]; now left|].
      intros [[= ->]|[Hno _]]; [reflexivity|discriminate].
    + pose proof (try_formats_first text t formats formats_sorted) as Hfirst.
      destruct (try_formats TreeNode Tree text formats) as [r|] eqn:Etry.
      * split.
        -- intros ->. right. split; [reflexivity|]. now apply Hfirst.
        -- intros [Hno|[_ Hf]]; [discriminate|].
           apply Hfirst in Hf. now injection Hf as ->.
      * split; [discriminate|].
        intros [Hno|[_ Hf]]; [discriminate|].
        apply Hfirst in Hf. discriminate.
    + split; [discriminate|]. intros [Hno|[Hno _]]; discriminate.
  - intros Hplain Hall. unfold read_tree. rewrite Hplain.
    now rewrite (proj2 (try_formats_none text formats) Hall).
  - intros fmt t. unfold read_tree.
    destruct (check_int fmt 0 100) as [e|f]; [discriminate|].
    destruct ((9 <? f) && negb (f =? 100)) eqn:Ebad; [discriminate|].
    intros Hparse. exists f. split; [reflexivity|]. split; [|exact Hparse].
    apply andb_false_iff in Ebad as [Ebad|Ebad].
    + left. apply Z.ltb_ge in Ebad. exact Ebad.
    + right. apply negb_false_iff, Z.eqb_eq in Ebad. exact Ebad.
Qed.

End Reader.

End ReadTreeFacts.
